(** * santotobench: the stall simulator (sim/types.py, sim/demand.py, sim/engine.py)

    A shallow embedding of the simulation core and the properties its
    specification states about it.

    Modelling conventions.
    - Python [int] is [Z].  A finite Python [float] is the rational [Q] it
      denotes; NaN and the infinities have no counterpart.  Where the source
      compares against a tolerance (the purchase, the fulfilment scan, the
      stock check) the rounding of the operands decides the outcome, so the
      arithmetic that feeds those comparisons rounds every result with [fl],
      the rounding to the nearest float, a parameter of the model: cost and
      weight of a purchase, the cash paid, the needs of an order, the budgets
      and the stock it consumes, the stock a delivery adds, and the literal
      [1e-9] itself.  Revenue, capacities and the demand model, where no
      such comparison depends on the last bit, are computed exactly.
      An [int] too large for a float raises [OverflowError] where the
      purchase multiplies it by a float.
    - A [dict] that the code only reads and updates by key (stock, prices,
      costs, weights, recipes by product, workers on trip) is a [gmap].  A
      [dict] that the code iterates (call arguments, the inner recipe of a
      product, order items, profile probabilities, the per-order ingredient
      needs, units sold) is an association list in insertion order.
    - A Python exception is the [Raised] case of [outcome].
    - numpy's generator and [math.pow] are parameters ([Numerics]). *)

From Stdlib Require Import ZArith QArith Qround Qabs Lqa.
From stdpp Require Import base option list strings pretty gmap fin_maps sorting.

Set Default Proof Using "Type".
Set Warnings "-clear-no-such-hyp".
Local Open Scope Z_scope.

(** ** Python numbers *)

(** [x > y] and [x < y] on floats. *)
Definition Qgt_bool (x y : Q) : bool := negb (Qle_bool x y).
Definition Qlt_bool (x y : Q) : bool := negb (Qle_bool y x).

(** [max(a, b)]: the first argument unless the second is strictly larger. *)
Definition py_max (a b : Q) : Q := if Qlt_bool a b then b else a.

(** [round(q)]: to the nearest integer, ties to the even one. *)
Definition py_round (q : Q) : Z :=
  let f := Qfloor q in
  let r := (q - inject_Z f)%Q in
  if Qlt_bool r (1 # 2) then f
  else if Qgt_bool r (1 # 2) then f + 1
  else if Z.even f then f else f + 1.

(** [round(q, 6)]. *)
Definition round6 (q : Q) : Q :=
  (inject_Z (py_round (q * inject_Z 1000000)) / inject_Z 1000000)%Q.

(** [f"{z:02d}"]. *)
Definition fmt02d (z : Z) : string :=
  let s := pretty z in
  if (String.length s <? 2)%nat then "0" +:+ s else s.

(** ** Exceptions *)

Inductive exn : Type :=
  | KeyError (key : string)
  | IndexError
  | ValueError (msg : string)
  | OverflowError.

Inductive outcome (A : Type) : Type :=
  | Raised (e : exn)
  | Returned (a : A).
Arguments Raised {A} e.
Arguments Returned {A} a.

#[global] Instance outcome_ret : MRet outcome := fun A a => Returned a.
#[global] Instance outcome_bind : MBind outcome := fun A B f m =>
  match m with
  | Raised e => Raised e
  | Returned a => f a
  end.

#[global] Instance outcome_fmap : FMap outcome := fun A B f m =>
  match m with
  | Raised e => Raised e
  | Returned a => Returned (f a)
  end.

Definition returns {A} (m : outcome A) : Prop := exists a, m = Returned a.

(** [d[k]] on a [gmap]: [KeyError] when the key is absent. *)
Definition getitem {V} (d : gmap string V) (k : string) : outcome V :=
  match d !! k with
  | Some v => Returned v
  | None => Raised (KeyError k)
  end.

(** ** Insertion-ordered dictionaries *)

Module PyDict.
Section Dict.
Context {V : Type}.

(** [d.get(k)]. *)
Fixpoint get (d : list (string * V)) (k : string) : option V :=
  match d with
  | [] => None
  | (k', v) :: d' => if String.eqb k' k then Some v else get d' k
  end.

(** [d[k] = v]: in place when the key exists, at the end otherwise. *)
Fixpoint set (d : list (string * V)) (k : string) (v : V) : list (string * V) :=
  match d with
  | [] => [(k, v)]
  | (k', v') :: d' =>
      if String.eqb k' k then (k', v) :: d' else (k', v') :: set d' k v
  end.

(** [d[k]]. *)
Definition getitem (d : list (string * V)) (k : string) : outcome V :=
  match get d k with
  | Some v => Returned v
  | None => Raised (KeyError k)
  end.
End Dict.
End PyDict.

(** ** sim/types.py *)

Record EmployeeAssignment : Type := {
  employee_id : Z;
  task : string }.

Record Delivery : Type := {
  d_arrival_turn : Z;
  d_quantities : list (string * Z) }.

(** An order in the queue carries its arrival turn; the records of served and
    unserved orders kept in the summary carry the items only. *)
Record Order : Type := {
  items : list (string * Z);
  arrival_turn : option Z }.

Record OrderProfile : Type := {
  p_name : string;
  p_items : list (string * Z) }.

Record OrderMixSegment : Type := {
  from_turn : Z;
  to_turn : Z;
  profile_probs : list (string * Q) }.

Record InitialState : Type := {
  init_cash : Q;
  init_stock : gmap string Q;
  init_prices : gmap string Q;
  init_worker_assignments : option (list EmployeeAssignment) }.

Record DemandParams : Type := {
  price_ref : gmap string Q;
  elasticity : gmap string Q;
  noise_std : Q;
  customers_curve : list Q;
  elasticity_customers : Q;
  order_profiles : list (string * OrderProfile);
  order_mix_segments : list OrderMixSegment }.

Record WorkerCapacities : Type := {
  customers_per_turn : Q;
  txistorra_strips_per_turn : Q;
  sidra_bottles_per_turn : Q }.

Record Config : Type := {
  num_turns : Z;
  lead_time : Z;
  seed : Z;
  initial : InitialState;
  costs : gmap string Q;
  ingredient_weights : gmap string Q;
  worker_max_carry_weight : Q;
  recipes : gmap string (list (string * Q));
  demand : DemandParams;
  num_workers : Z }.

Record TurnSummary : Type := {
  ts_queue_start : Z;
  ts_new_customers : Z;
  ts_served_customers : Z;
  ts_queue_end : Z;
  ts_dropped_from_queue : Z;
  ts_orders_served : list Order;
  ts_unserved_orders : list Order;
  ts_blocked_by_customers_capacity : bool;
  ts_blocked_by_grill_capacity : bool;
  ts_blocked_by_sidra_capacity : bool;
  ts_blocked_by_stock : bool;
  ts_messages : list string;
  ts_worker_assignments : list EmployeeAssignment;
  ts_worker_capacities : WorkerCapacities }.

Record State : Type := {
  turn : Z;
  cash : Q;
  stock_on_hand : gmap string Q;
  inbound_deliveries : list Delivery;
  prices : gmap string Q;
  last_turn : option TurnSummary;
  order_queue : list Order;
  worker_assignments : list EmployeeAssignment;
  worker_capacities : WorkerCapacities;
  workers_on_trip : gmap Z Z }.

Record Observation : Type := {
  obs_turn : Z;
  obs_time : string;
  obs_last_turn_summary : option TurnSummary;
  obs_costs : gmap string Q;
  obs_recipes : gmap string (list (string * Q));
  obs_lead_time : Z;
  capacity_customers_per_turn : Q;
  capacity_txistorra_strips_per_turn : Q;
  capacity_sidra_bottles_per_turn : Q;
  obs_worker_assignments : list EmployeeAssignment;
  obs_workers_on_trip : gmap Z Z }.

Record InboundDeliveryView : Type := {
  arrival_time : string;
  v_quantities : list (string * Z) }.

(** [ToolResult] is a [TypedDict] with [total=False]: every key but [ok] may
    be missing. *)
Record ToolResult : Type := {
  ok : bool;
  reason : option string;
  r_cash : option Q;
  r_stock_on_hand : option (gmap string Q);
  r_inbound_deliveries : option (list InboundDeliveryView);
  current_prices : option (gmap string Q);
  accepted : option bool;
  r_worker_assignments : option (list EmployeeAssignment);
  r_workers_on_trip : option (gmap Z Z) }.

(** An entry of the list [play_turn] returns. *)
Inductive Action : Type :=
  | get_status_action
  | get_prices_action
  | set_prices_action (prices : list (string * Q))
  | place_order_action (quantities : list (string * Z)) (workers : list Z)
  | assign_workers_action (assignments : list EmployeeAssignment)
  | end_turn_action.

(** ** Floats, numpy and math

    [fl x] is the float nearest to the real number [x]: the result of a float
    operation is [fl] of the exact result.  The generator of [numpy.random]
    and [math.pow] are library code.  A generator is a value threaded through
    the sampling calls.  [rng_choice g n p] is [g.choice(n, p=p)]: numpy
    accepts a vector of [n] non-negative probabilities that sum to one and
    answers with an index below [n]; it raises [ValueError] on other
    vectors. *)

Definition Qsum (l : list Q) : Q := foldl Qplus 0%Q l.

Class Numerics : Type := {
  fl : Q -> Q;
  Generator : Type;
  default_rng : Z -> Generator;
  rng_lognormal : Generator -> Q -> Q -> Q * Generator;
  rng_choice : Generator -> nat -> list Q -> outcome (nat * Generator);
  math_pow : Q -> Q -> Q;
  rng_choice_returns : forall g n p,
    n = length p -> (0 < n)%nat -> Forall (fun x => (0 <= x)%Q) p ->
    (Qsum p == 1)%Q -> returns (rng_choice g n p);
  rng_choice_lt : forall g n p i g',
    rng_choice g n p = Returned (i, g') -> (i < n)%nat }.

(** [l[i]] on a list: a negative index counts from the end. *)
Definition list_getitem {A} (l : list A) (i : Z) : outcome A :=
  let j := if i <? 0 then Z.of_nat (length l) + i else i in
  if j <? 0 then Raised IndexError
  else match l !! Z.to_nat j with
       | Some a => Returned a
       | None => Raised IndexError
       end.

(** ** Float arithmetic *)

Section Floats.
Context {np : Numerics}.

(** [x + y], [x - y] and [x * y] on floats. *)
Definition fadd (x y : Q) : Q := fl (x + y).
Definition fsub (x y : Q) : Q := fl (x - y).
Definition fmul (x y : Q) : Q := fl (x * y).

(** The literal [1e-9] used by every capacity, weight and stock comparison:
    the float nearest to one billionth. *)
Definition eps : Q := fl (1 # 1000000000).

(** An [int] where a float is wanted: [float(z)].  The conversion rounds to
    the nearest float and raises [OverflowError] from [2^1024 - 2^970] on,
    where the nearest float would be beyond the largest one. *)
Definition FLOAT_INT_LIMIT : Z := 2 ^ 1024 - 2 ^ 970.

Definition float (z : Z) : Q := fl (inject_Z z).

Definition float_of_int (z : Z) : outcome Q :=
  if Z.abs z <? FLOAT_INT_LIMIT then Returned (float z) else Raised OverflowError.
End Floats.

(** What the proofs use of rounding to the nearest float, as IEEE 754
    arithmetic does it while no result leaves the range of the floats: it
    respects equality and order, no float is nearer to [x] than [fl x], a
    float is its own rounding, and a whole number of up to 53 bits divided by
    a power of two (down to [2^-1022]) is a float. *)
Class FloatLaws (np : Numerics) : Prop := {
  fl_proper : forall x y : Q, (x == y)%Q -> (fl x == fl y)%Q;
  fl_monotone : forall x y : Q, (x <= y)%Q -> (fl x <= fl y)%Q;
  fl_nearest : forall x r : Q,
    (fl r == r)%Q -> (Qabs (fl x - x) <= Qabs (r - x))%Q;
  fl_fixed : forall x : Q, (fl (fl x) == fl x)%Q;
  fl_dyadic : forall m k : Z,
    Z.abs m <= 2 ^ 53 -> 0 <= k <= 1022 ->
    (fl (inject_Z m / inject_Z (2 ^ k)) == inject_Z m / inject_Z (2 ^ k))%Q }.

(** ** sim/demand.py *)

Definition _find_order_mix_segment (params : DemandParams) (turn_idx : Z)
  : list (string * Q) :=
  match List.find (fun seg => (from_turn seg <=? turn_idx) && (turn_idx <=? to_turn seg))
          (order_mix_segments params) with
  | Some seg => profile_probs seg
  | None =>
      match last (order_mix_segments params) with
      | Some seg => profile_probs seg
      | None =>
          let n := length (order_profiles params) in
          map (fun '(name, _) => (name, (1 / inject_Z (Z.of_nat n))%Q))
              (order_profiles params)
      end
  end.

Section Sampling.
Context {np : Numerics}.

Definition _sample_profile (profile_probs : list (string * Q)) (rng : Generator)
  : outcome (string * Generator) :=
  let names := map fst profile_probs in
  let probs := map snd profile_probs in
  let total := Qsum probs in
  let probs :=
    if Qle_bool total 0
    then map (fun _ => (1 / inject_Z (Z.of_nat (length probs)))%Q) probs
    else map (fun p => (p / total)%Q) probs in
  '(idx, rng) ← rng_choice rng (length names) probs;
  name ← list_getitem names (Z.of_nat idx);
  mret (name, rng).
End Sampling.

(** The ticket of one profile: [sum(float(qty) * float(prices[product]))]. *)
Fixpoint ticket_of_items (prices : gmap string Q) (its : list (string * Z)) (acc : Q)
  : outcome Q :=
  match its with
  | [] => Returned acc
  | (product, qty) :: its' =>
      price ← getitem prices product;
      ticket_of_items prices its' (acc + inject_Z qty * price)%Q
  end.

Fixpoint expected_over_profiles (prices : gmap string Q)
    (profiles : list (string * OrderProfile)) (probs : list (string * Q)) (expected : Q)
  : outcome Q :=
  match probs with
  | [] => Returned expected
  | (profile_name, prob) :: probs' =>
      profile ← PyDict.getitem profiles profile_name;
      ticket_profile ← ticket_of_items prices (p_items profile) 0%Q;
      expected_over_profiles prices profiles probs' (expected + prob * ticket_profile)%Q
  end.

Fixpoint mean_of_prices (prices : gmap string Q) (products : list string) (expected : Q)
  : outcome Q :=
  match products with
  | [] => Returned expected
  | p :: products' =>
      price ← getitem prices p;
      mean_of_prices prices products' (expected + price / 3)%Q
  end.

Definition _compute_expected_ticket (prices : gmap string Q) (params : DemandParams)
    (turn_idx : Z) : outcome Q :=
  let profile_probs := _find_order_mix_segment params turn_idx in
  match profile_probs with
  | [] => mean_of_prices prices ["pintxo"; "bocadillo"; "sidra"] 0%Q
  | _ => expected_over_profiles prices (order_profiles params) profile_probs 0%Q
  end.

Section Customers.
Context {np : Numerics}.

Definition sample_customers_for_agent (prices : gmap string Q) (params : DemandParams)
    (turn_idx : Z) (rng : Generator) : outcome (Z * Generator) :=
  market_customers ← list_getitem (customers_curve params) turn_idx;
  ticket_agent ← _compute_expected_ticket prices params turn_idx;
  ticket_comp ← _compute_expected_ticket (price_ref params) params turn_idx;
  let epsilon_c := elasticity_customers params in
  let ticket_agent := py_max ticket_agent (1 # 1000000) in
  let ticket_comp := py_max ticket_comp (1 # 1000000) in
  let a_agent := math_pow (ticket_agent / ticket_comp)%Q (- epsilon_c)%Q in
  let a_comp := 1%Q in
  let total_attr := (a_agent + 3 * a_comp)%Q in
  let share_agent :=
    if Qle_bool total_attr (1 # 1000000000000) then 0%Q
    else (a_agent / total_attr)%Q in
  let expected_customers_agent := (market_customers * share_agent)%Q in
  let '(noise, rng) :=
    if Qgt_bool (noise_std params) 0
    then rng_lognormal rng 0%Q (noise_std params)
    else (1%Q, rng) in
  let q := py_max 0%Q (expected_customers_agent * noise)%Q in
  mret (py_round q, rng).

Record NewBatch : Type := {
  orders : list Order;
  new_customers : Z;
  demand_products : list (string * Z) }.

(** [demand_products[product] = demand_products.get(product, 0) + int(qty)]
    for every item. *)
Definition add_units (totals : list (string * Z)) (its : list (string * Z))
  : list (string * Z) :=
  foldl (fun acc '(product, qty) =>
           PyDict.set acc product (default 0 (PyDict.get acc product) + qty))
        totals its.

(** The body of [for _ in range(new_customers)]. *)
Fixpoint sample_orders_loop (n : nat) (params : DemandParams) (turn_idx : Z)
    (profile_probs : list (string * Q)) (rng : Generator)
    (orders : list Order) (demand_products : list (string * Z))
  : outcome (list Order * list (string * Z) * Generator) :=
  match n with
  | O => Returned (orders, demand_products, rng)
  | S n' =>
      match profile_probs with
      | [] => Returned (orders, demand_products, rng)
      | _ =>
          '(profile_name, rng) ← _sample_profile profile_probs rng;
          profile ← PyDict.getitem (order_profiles params) profile_name;
          let its := p_items profile in
          sample_orders_loop n' params turn_idx profile_probs rng
            (orders ++ [{| items := its; arrival_turn := Some turn_idx |}])
            (add_units demand_products its)
      end
  end.

Definition sample_orders_for_agent (prices : gmap string Q) (params : DemandParams)
    (turn_idx : Z) (rng : Generator) : outcome (NewBatch * Generator) :=
  '(new_customers, rng) ← sample_customers_for_agent prices params turn_idx rng;
  let profile_probs := _find_order_mix_segment params turn_idx in
  '(orders, demand_products, rng) ←
    sample_orders_loop (Z.to_nat new_customers) params turn_idx profile_probs rng
      [] [("pintxo", 0); ("bocadillo", 0); ("sidra", 0)];
  mret ({| orders := orders; new_customers := new_customers;
           demand_products := demand_products |}, rng).
End Customers.

(** ** sim/engine.py *)

Definition TURN_MINUTES : Z := 15.
Definition MAX_QUEUE_WAIT_TURNS : Z := 2.

Definition format_time (turn_idx : Z) : string :=
  let start_minutes := 10 * 60 in
  let minutes := start_minutes + TURN_MINUTES * turn_idx in
  let h := minutes `div` 60 in
  let m := minutes `mod` 60 in
  fmt02d h +:+ ":" +:+ fmt02d m.

(** The [arguments] entry of a recorded tool call: the raw arguments the
    caller passed along (a JSON object, kept as text), or, when it passed none
    or an empty object, the default the operation builds from its own
    parameters. *)
Inductive CallArgs : Type :=
  | args_raw (json : string)
  | args_empty
  | args_prices (prices : list (string * Q))
  | args_order (quantities : list (string * Z)) (workers : list Z)
  | args_assignments (assignments : list EmployeeAssignment).

Definition args_or (arguments : option string) (dflt : CallArgs) : CallArgs :=
  match arguments with
  | Some json => args_raw json
  | None => dflt
  end.

(** An entry of [agent_actions_trace]: a tool call recorded by the executor
    or a reasoning summary appended by a language-model adapter. *)
Inductive TraceEntry : Type :=
  | tool_call (id name : string) (arguments : CallArgs) (result : ToolResult)
  | reasoning (id : string) (summary : list string).

Definition result_ok : ToolResult :=
  {| ok := true; reason := None; r_cash := None; r_stock_on_hand := None;
     r_inbound_deliveries := None; current_prices := None; accepted := None;
     r_worker_assignments := None; r_workers_on_trip := None |}.

(** [ToolResult(ok=False, reason=msg)], with [accepted=False] where the
    source adds it. *)
Definition result_failed (msg : string) (acc : option bool) : ToolResult :=
  {| ok := false; reason := Some msg; r_cash := None; r_stock_on_hand := None;
     r_inbound_deliveries := None; current_prices := None; accepted := acc;
     r_worker_assignments := None; r_workers_on_trip := None |}.

(** *** Worker assignments and capacities *)

Fixpoint insert_by_id (a : EmployeeAssignment) (l : list EmployeeAssignment)
  : list EmployeeAssignment :=
  match l with
  | [] => [a]
  | b :: l' =>
      if employee_id a <=? employee_id b then a :: b :: l'
      else b :: insert_by_id a l'
  end.

(** [sorted(assignments, key=employee_id)]; the sort is stable. *)
Definition _normalize_assignments (assignments : list EmployeeAssignment)
  : list EmployeeAssignment :=
  foldr insert_by_id [] assignments.

Definition task_counts_zero : list (string * Z) :=
  [("atender_clientes", 0); ("freir_txistorra", 0); ("preparar_pintxos", 0);
   ("abrir_sidra", 0); ("comprar", 0)].

Definition _count_tasks (assignments : list EmployeeAssignment) : list (string * Z) :=
  foldl (fun counts a =>
           PyDict.set counts (task a) (default 0 (PyDict.get counts (task a)) + 1))
        task_counts_zero assignments.

(** [counts[name]] for one of the five names [_count_tasks] starts from. *)
Definition count_of (counts : list (string * Z)) (name : string) : Z :=
  default 0 (PyDict.get counts name).

Definition _compute_worker_capacities (assignments : list EmployeeAssignment)
  : WorkerCapacities :=
  let counts := _count_tasks assignments in
  let n_atencion := inject_Z (count_of counts "atender_clientes") in
  let n_txistorra := inject_Z (count_of counts "freir_txistorra") in
  let n_sidra := inject_Z (count_of counts "abrir_sidra") in
  {| customers_per_turn := (1 * n_atencion * inject_Z TURN_MINUTES)%Q;
     txistorra_strips_per_turn := ((4 / 60) * inject_Z TURN_MINUTES * n_txistorra)%Q;
     sidra_bottles_per_turn := (2 * n_sidra * inject_Z TURN_MINUTES)%Q |}.

(** *** State updates *)

Definition with_cash (st : State) (c : Q) : State :=
  {| turn := turn st; cash := c; stock_on_hand := stock_on_hand st;
     inbound_deliveries := inbound_deliveries st; prices := prices st;
     last_turn := last_turn st; order_queue := order_queue st;
     worker_assignments := worker_assignments st;
     worker_capacities := worker_capacities st;
     workers_on_trip := workers_on_trip st |}.

Definition with_stock_on_hand (st : State) (s : gmap string Q) : State :=
  {| turn := turn st; cash := cash st; stock_on_hand := s;
     inbound_deliveries := inbound_deliveries st; prices := prices st;
     last_turn := last_turn st; order_queue := order_queue st;
     worker_assignments := worker_assignments st;
     worker_capacities := worker_capacities st;
     workers_on_trip := workers_on_trip st |}.

Definition with_inbound_deliveries (st : State) (ds : list Delivery) : State :=
  {| turn := turn st; cash := cash st; stock_on_hand := stock_on_hand st;
     inbound_deliveries := ds; prices := prices st;
     last_turn := last_turn st; order_queue := order_queue st;
     worker_assignments := worker_assignments st;
     worker_capacities := worker_capacities st;
     workers_on_trip := workers_on_trip st |}.

Definition with_prices (st : State) (p : gmap string Q) : State :=
  {| turn := turn st; cash := cash st; stock_on_hand := stock_on_hand st;
     inbound_deliveries := inbound_deliveries st; prices := p;
     last_turn := last_turn st; order_queue := order_queue st;
     worker_assignments := worker_assignments st;
     worker_capacities := worker_capacities st;
     workers_on_trip := workers_on_trip st |}.

Definition with_workers_on_trip (st : State) (w : gmap Z Z) : State :=
  {| turn := turn st; cash := cash st; stock_on_hand := stock_on_hand st;
     inbound_deliveries := inbound_deliveries st; prices := prices st;
     last_turn := last_turn st; order_queue := order_queue st;
     worker_assignments := worker_assignments st;
     worker_capacities := worker_capacities st;
     workers_on_trip := w |}.

Definition with_turn (st : State) (t : Z) : State :=
  {| turn := t; cash := cash st; stock_on_hand := stock_on_hand st;
     inbound_deliveries := inbound_deliveries st; prices := prices st;
     last_turn := last_turn st; order_queue := order_queue st;
     worker_assignments := worker_assignments st;
     worker_capacities := worker_capacities st;
     workers_on_trip := workers_on_trip st |}.

Definition with_last_turn (st : State) (s : option TurnSummary) : State :=
  {| turn := turn st; cash := cash st; stock_on_hand := stock_on_hand st;
     inbound_deliveries := inbound_deliveries st; prices := prices st;
     last_turn := s; order_queue := order_queue st;
     worker_assignments := worker_assignments st;
     worker_capacities := worker_capacities st;
     workers_on_trip := workers_on_trip st |}.

Definition with_order_queue (st : State) (q : list Order) : State :=
  {| turn := turn st; cash := cash st; stock_on_hand := stock_on_hand st;
     inbound_deliveries := inbound_deliveries st; prices := prices st;
     last_turn := last_turn st; order_queue := q;
     worker_assignments := worker_assignments st;
     worker_capacities := worker_capacities st;
     workers_on_trip := workers_on_trip st |}.

(** [Simulator._set_worker_assignments], on the state it updates. *)
Definition _set_worker_assignments (st : State) (assignments : list EmployeeAssignment)
  : State :=
  let normalized := _normalize_assignments assignments in
  {| turn := turn st; cash := cash st; stock_on_hand := stock_on_hand st;
     inbound_deliveries := inbound_deliveries st; prices := prices st;
     last_turn := last_turn st; order_queue := order_queue st;
     worker_assignments := normalized;
     worker_capacities := _compute_worker_capacities normalized;
     workers_on_trip := workers_on_trip st |}.

(** *** The simulator object and the tool executor *)

Section Tools.
Context {np : Numerics}.

(** The fields of [Simulator] the core reads or writes.  The two fields
    that only the language-model adapters use to keep their conversation
    ([previous_response_id], [pending_tool_outputs]) are left out. *)
Record Simulator : Type := {
  config : Config;
  rng : Generator;
  state : State;
  agent_actions_trace : list TraceEntry;
  metrics_tool_calls : Z;
  metrics_tokens_in : Z;
  metrics_tokens_out : Z;
  metrics_cost_eur : Q;
  _end_turn_requested : bool }.

Definition with_state (sim : Simulator) (st : State) : Simulator :=
  {| config := config sim; rng := rng sim; state := st;
     agent_actions_trace := agent_actions_trace sim;
     metrics_tool_calls := metrics_tool_calls sim;
     metrics_tokens_in := metrics_tokens_in sim;
     metrics_tokens_out := metrics_tokens_out sim;
     metrics_cost_eur := metrics_cost_eur sim;
     _end_turn_requested := _end_turn_requested sim |}.

(** [self.engine.metrics_tool_calls += 1]. *)
Definition count_tool_call (sim : Simulator) : Simulator :=
  {| config := config sim; rng := rng sim; state := state sim;
     agent_actions_trace := agent_actions_trace sim;
     metrics_tool_calls := metrics_tool_calls sim + 1;
     metrics_tokens_in := metrics_tokens_in sim;
     metrics_tokens_out := metrics_tokens_out sim;
     metrics_cost_eur := metrics_cost_eur sim;
     _end_turn_requested := _end_turn_requested sim |}.

Definition append_trace (sim : Simulator) (entry : TraceEntry) : Simulator :=
  {| config := config sim; rng := rng sim; state := state sim;
     agent_actions_trace := agent_actions_trace sim ++ [entry];
     metrics_tool_calls := metrics_tool_calls sim;
     metrics_tokens_in := metrics_tokens_in sim;
     metrics_tokens_out := metrics_tokens_out sim;
     metrics_cost_eur := metrics_cost_eur sim;
     _end_turn_requested := _end_turn_requested sim |}.

Definition request_end_turn (sim : Simulator) : Simulator :=
  {| config := config sim; rng := rng sim; state := state sim;
     agent_actions_trace := agent_actions_trace sim;
     metrics_tool_calls := metrics_tool_calls sim;
     metrics_tokens_in := metrics_tokens_in sim;
     metrics_tokens_out := metrics_tokens_out sim;
     metrics_cost_eur := metrics_cost_eur sim;
     _end_turn_requested := true |}.

Definition _record_tool_call (sim : Simulator) (name call_id : string)
    (arguments : CallArgs) (result : ToolResult) : Simulator :=
  append_trace sim (tool_call call_id name arguments result).

(** Record the result and hand it back, as every exit of a tool does. *)
Definition finish (sim : Simulator) (name call_id : string)
    (arguments : CallArgs) (result : ToolResult) : ToolResult * Simulator :=
  (result, _record_tool_call sim name call_id arguments result).

Definition get_status (call_id : string) (arguments : option string)
    (sim : Simulator) : ToolResult * Simulator :=
  let sim := count_tool_call sim in
  let s := state sim in
  let inbound_view :=
    map (fun d => {| arrival_time := format_time (d_arrival_turn d);
                     v_quantities := d_quantities d |})
        (inbound_deliveries s) in
  let result :=
    {| ok := true; reason := None; r_cash := Some (cash s);
       r_stock_on_hand := Some (stock_on_hand s);
       r_inbound_deliveries := Some inbound_view; current_prices := None;
       accepted := None;
       r_worker_assignments := Some (worker_assignments s);
       r_workers_on_trip := Some (workers_on_trip s) |} in
  finish sim "get_status" call_id (args_or arguments args_empty) result.

Definition get_prices (call_id : string) (arguments : option string)
    (sim : Simulator) : ToolResult * Simulator :=
  let sim := count_tool_call sim in
  let result :=
    {| ok := true; reason := None; r_cash := None; r_stock_on_hand := None;
       r_inbound_deliveries := None; current_prices := Some (prices (state sim));
       accepted := None; r_worker_assignments := None;
       r_workers_on_trip := None |} in
  finish sim "get_prices" call_id (args_or arguments args_empty) result.

(** [state.prices.update(new_prices)].  The prices are finite numbers: a
    NaN, which the test [v < 0] of [set_prices] lets through, has no
    counterpart here. *)
Definition update_prices (old : gmap string Q) (new_prices : list (string * Q))
  : gmap string Q :=
  foldl (fun m '(k, v) => <[k := v]> m) old new_prices.

Definition set_prices (new_prices : list (string * Q)) (call_id : string)
    (arguments : option string) (sim : Simulator) : ToolResult * Simulator :=
  let sim := count_tool_call sim in
  let args := args_or arguments (args_prices new_prices) in
  match List.find (fun '(_, v) => Qlt_bool v 0) new_prices with
  | Some (k, _) =>
      finish sim "set_prices" call_id args
        (result_failed ("Precio negativo para " +:+ k) None)
  | None =>
      let st := with_prices (state sim) (update_prices (prices (state sim)) new_prices) in
      finish (with_state sim st) "set_prices" call_id args result_ok
  end.

(** The first loop of [place_order]: stop at the first negative quantity,
    otherwise add up [costs[ing] * qty].  The unit cost is looked up, then
    the quantity is converted, then the two floats are multiplied. *)
Fixpoint order_cost (costs : gmap string Q) (quantities : list (string * Z))
    (cost : Q) : outcome (string + Q) :=
  match quantities with
  | [] => Returned (inr cost)
  | (ing, qty) :: rest =>
      if qty <? 0 then Returned (inl ing)
      else
        c ← getitem costs ing;
        q ← float_of_int qty;
        order_cost costs rest (fadd cost (fmul c q))
  end.

(** The loop over [workers]: the reason of the first rejection, or the set
    [seen_workers]. *)
Fixpoint check_workers (num_workers : Z) (on_trip : gmap Z Z) (workers : list Z)
    (seen_workers : gset Z) : string + gset Z :=
  match workers with
  | [] => inr seen_workers
  | w :: ws =>
      if (w <? 1) || (num_workers <? w)
      then inl ("ID de trabajador inválido: " +:+ pretty w)
      else if bool_decide (w ∈ seen_workers)
      then inl ("ID de trabajador duplicado: " +:+ pretty w)
      else if bool_decide (is_Some (on_trip !! w))
      then inl ("El trabajador " +:+ pretty w +:+ " ya está de viaje")
      else check_workers num_workers on_trip ws ({[w]} ∪ seen_workers)
  end.

(** The second loop: [total_weight += weights.get(ing, 0.0) * qty].  It runs
    after the first, which has converted every quantity. *)
Definition total_weight_of (weights : gmap string Q) (quantities : list (string * Z))
  : Q :=
  foldl (fun total '(ing, qty) =>
           fadd total (fmul (default 0%Q (weights !! ing)) (float qty)))
        0%Q quantities.

(** [for w in seen_workers: workers_on_trip[w] = lead_time]. *)
Definition send_on_trip (on_trip : gmap Z Z) (seen_workers : gset Z) (lead : Z)
  : gmap Z Z :=
  foldr (fun w m => <[w := lead]> m) on_trip (elements seen_workers).

(** The accepted branch of [place_order]: pay, schedule the delivery, take
    the workers off their tasks and send them on the trip. *)
Definition accept_order (cfg : Config) (st : State) (quantities : list (string * Z))
    (seen_workers : gset Z) (cost : Q) : State :=
  let st := with_cash st (fsub (cash st) cost) in
  let arrival := turn st + lead_time cfg in
  let st := with_inbound_deliveries st
    (inbound_deliveries st
     ++ [{| d_arrival_turn := arrival; d_quantities := quantities |}]) in
  let remaining_assignments :=
    filter (fun a => employee_id a ∉ seen_workers) (worker_assignments st) in
  let st := _set_worker_assignments st remaining_assignments in
  with_workers_on_trip st
    (send_on_trip (workers_on_trip st) seen_workers (lead_time cfg)).

Definition place_order (quantities : list (string * Z)) (workers : list Z)
    (call_id : string) (arguments : option string) (sim : Simulator)
  : outcome (ToolResult * Simulator) :=
  let sim := count_tool_call sim in
  let args := args_or arguments (args_order quantities workers) in
  let fail msg acc :=
    Returned (finish sim "place_order" call_id args (result_failed msg acc)) in
  checked ← order_cost (costs (config sim)) quantities 0%Q;
  match checked with
  | inl ing => fail ("Cantidad negativa para " +:+ ing) None
  | inr cost =>
      match workers with
      | [] => fail "Debe enviar al menos un trabajador a comprar" None
      | _ =>
          match check_workers (num_workers (config sim))
                  (workers_on_trip (state sim)) workers ∅ with
          | inl msg => fail msg None
          | inr seen_workers =>
              let total_weight :=
                total_weight_of (ingredient_weights (config sim)) quantities in
              let max_weight :=
                fmul (float (Z.of_nat (length workers)))
                     (worker_max_carry_weight (config sim)) in
              if Qgt_bool total_weight (fadd max_weight eps)
              then fail "La compra excede la capacidad de carga de los trabajadores seleccionados"
                        (Some false)
              else if Qgt_bool cost (cash (state sim))
              then fail "Compra rechazada: coste > caja" (Some false)
              else
                let st := accept_order (config sim) (state sim) quantities
                            seen_workers cost in
                let result :=
                  {| ok := true; reason := None; r_cash := None;
                     r_stock_on_hand := None; r_inbound_deliveries := None;
                     current_prices := None; accepted := Some true;
                     r_worker_assignments := Some (worker_assignments st);
                     r_workers_on_trip := Some (workers_on_trip st) |} in
                Returned (finish (with_state sim st) "place_order" call_id args result)
          end
      end
  end.
End Tools.

Section Phases.
Context {np : Numerics}.

(** The loop of [assign_workers] over the entries: the reason of the first
    rejection, or the task counts. *)
Fixpoint check_assignments (num_workers : Z) (on_trip : gmap Z Z)
    (assignments : list EmployeeAssignment) (seen_ids : gset Z)
    (counts : list (string * Z)) : string + list (string * Z) :=
  match assignments with
  | [] => inr counts
  | a :: rest =>
      let emp_id := employee_id a in
      if (emp_id <? 1) || (num_workers <? emp_id)
      then inl ("employee_id inválido: " +:+ pretty emp_id)
      else if bool_decide (is_Some (on_trip !! emp_id))
      then inl ("El trabajador " +:+ pretty emp_id
                +:+ " está de viaje y no puede ser asignado")
      else if bool_decide (emp_id ∈ seen_ids)
      then inl ("employee_id duplicado: " +:+ pretty emp_id)
      else if negb (bool_decide (task a ∈ map fst task_counts_zero))
      then inl ("Tarea inválida: " +:+ task a)
      else check_assignments num_workers on_trip rest ({[emp_id]} ∪ seen_ids)
             (PyDict.set counts (task a) (count_of counts (task a) + 1))
  end.

(** The per-task caps; ["comprar"] has none. *)
Definition task_limits : list (string * Z) :=
  [("atender_clientes", 3); ("freir_txistorra", 3); ("preparar_pintxos", 3);
   ("abrir_sidra", 3)].

Definition assign_workers (assignments : list EmployeeAssignment) (call_id : string)
    (arguments : option string) (sim : Simulator) : ToolResult * Simulator :=
  let sim := count_tool_call sim in
  let args := args_or arguments (args_assignments assignments) in
  match check_assignments (num_workers (config sim)) (workers_on_trip (state sim))
          assignments ∅ task_counts_zero with
  | inl msg => finish sim "assign_workers" call_id args (result_failed msg None)
  | inr counts =>
      match List.find (fun '(task_name, limit) => limit <? count_of counts task_name)
              task_limits with
      | Some (task_name, limit) =>
          finish sim "assign_workers" call_id args
            (result_failed ("Máximo " +:+ pretty limit +:+ " para " +:+ task_name) None)
      | None =>
          let st := _set_worker_assignments (state sim) assignments in
          let result :=
            {| ok := true; reason := None; r_cash := None; r_stock_on_hand := None;
               r_inbound_deliveries := None; current_prices := None;
               accepted := None;
               r_worker_assignments := Some (worker_assignments st);
               r_workers_on_trip := None |} in
          finish (with_state sim st) "assign_workers" call_id args result
      end
  end.

Definition end_turn (call_id : string) (arguments : option string)
    (sim : Simulator) : ToolResult * Simulator :=
  let sim := request_end_turn (count_tool_call sim) in
  finish sim "end_turn" call_id (args_or arguments args_empty) result_ok.

(** *** Phases of a turn *)

Definition _update_worker_trips (st : State) : State :=
  with_workers_on_trip st
    (omap (fun turns_left =>
             let remaining := turns_left - 1 in
             if 0 <? remaining then Some remaining else None)
          (workers_on_trip st)).

Definition _init_state (cfg : Config) : State :=
  let initial_assignments := default [] (init_worker_assignments (initial cfg)) in
  {| turn := 0;
     cash := init_cash (initial cfg);
     stock_on_hand := init_stock (initial cfg);
     inbound_deliveries := [];
     prices := init_prices (initial cfg);
     last_turn := None;
     order_queue := [];
     worker_assignments := initial_assignments;
     worker_capacities := _compute_worker_capacities initial_assignments;
     workers_on_trip := ∅ |}.

(** [Simulator(config, rng)]: the generator given, or one seeded from the
    configuration. *)
Definition new_simulator (cfg : Config) (g : option Generator) : Simulator :=
  {| config := cfg;
     rng := default (default_rng (seed cfg)) g;
     state := _init_state cfg;
     agent_actions_trace := [];
     metrics_tool_calls := 0; metrics_tokens_in := 0; metrics_tokens_out := 0;
     metrics_cost_eur := 0%Q;
     _end_turn_requested := false |}.

(** [reset] rebuilds the state and the counters; the generator is kept. *)
Definition reset (sim : Simulator) : Simulator :=
  {| config := config sim;
     rng := rng sim;
     state := with_workers_on_trip (_init_state (config sim)) ∅;
     agent_actions_trace := [];
     metrics_tool_calls := 0; metrics_tokens_in := 0; metrics_tokens_out := 0;
     metrics_cost_eur := 0%Q;
     _end_turn_requested := false |}.

Definition _build_observation (sim : Simulator) : Observation :=
  let st := state sim in
  {| obs_turn := turn st;
     obs_time := format_time (turn st);
     obs_last_turn_summary := last_turn st;
     obs_costs := costs (config sim);
     obs_recipes := recipes (config sim);
     obs_lead_time := lead_time (config sim);
     capacity_customers_per_turn := customers_per_turn (worker_capacities st);
     capacity_txistorra_strips_per_turn :=
       txistorra_strips_per_turn (worker_capacities st);
     capacity_sidra_bottles_per_turn := sidra_bottles_per_turn (worker_capacities st);
     obs_worker_assignments := worker_assignments st;
     obs_workers_on_trip := workers_on_trip st |}.

(** [stock[ing] = stock.get(ing, 0) + qty] for every entry of a delivery:
    a float addition of the quantity, which the purchase has converted
    before. *)
Definition add_delivery (stock : gmap string Q) (quantities : list (string * Z))
  : gmap string Q :=
  foldl (fun s '(ing, qty) => <[ing := fadd (default 0%Q (s !! ing)) (float qty)]> s)
        stock quantities.

Definition _receive_deliveries (st : State) : State :=
  let current_turn := turn st in
  let '(stock, remaining) :=
    foldl (fun '(stock, remaining) d =>
             if d_arrival_turn d =? current_turn
             then (add_delivery stock (d_quantities d), remaining)
             else (stock, remaining ++ [d]))
          (stock_on_hand st, []) (inbound_deliveries st) in
  with_inbound_deliveries (with_stock_on_hand st stock) remaining.

Fixpoint revenue_loop (prices : gmap string Q) (sold : list (string * Z)) (rev : Q)
  : outcome Q :=
  match sold with
  | [] => Returned rev
  | (product, units) :: sold' =>
      price ← getitem prices product;
      revenue_loop prices sold' (rev + price * inject_Z units)%Q
  end.

Definition _compute_revenue (st : State) (sold : list (string * Z)) : outcome Q :=
  revenue_loop (prices st) sold 0%Q.
End Phases.

(** *** The fulfilment scan of [_simulate_demand_and_sales] *)

(** The local variables of the loop over [all_orders], with the stock it
    consumes. *)
Record Scan : Type := {
  remaining_customers : Q;
  remaining_txistorra : Q;
  remaining_sidra : Q;
  stock : gmap string Q;
  sold_products : list (string * Z);
  unserved_orders : list Order;
  served_customers : Z;
  blocked_by_customers_capacity : Z;
  blocked_by_grill_capacity : Z;
  blocked_by_sidra_capacity : Z;
  blocked_by_stock : bool;
  next_queue : list Order;
  orders_served : list Order }.

(** [{"items": dict(items)}]. *)
Definition items_only (o : Order) : Order :=
  {| items := items o; arrival_turn := None |}.

Section Scanning.
Context {np : Numerics}.

(** [txistorra_needed] and [sidra_needed] of an order:
    [needed += recipe.get(ing, 0.0) * float(qty)] for each item.  The scan
    converts quantities that fit in a float; one that does not, on which
    [float(qty)] raises, is outside the scan as modelled. *)
Definition order_needs (recipes : gmap string (list (string * Q)))
    (its : list (string * Z)) : Q * Q :=
  foldl (fun '(txistorra_needed, sidra_needed) '(product, qty) =>
           let recipe := default [] (recipes !! product) in
           (fadd txistorra_needed
              (fmul (default 0%Q (PyDict.get recipe "txistorra")) (float qty)),
            fadd sidra_needed
              (fmul (default 0%Q (PyDict.get recipe "sidra")) (float qty))))
        (0%Q, 0%Q) its.

Definition txistorra_needed recipes (o : Order) : Q := fst (order_needs recipes (items o)).
Definition sidra_needed recipes (o : Order) : Q := snd (order_needs recipes (items o)).

(** [needed_ingredients] of an order: ingredients with a positive
    per-unit amount, summed over the items. *)
Definition needed_ingredients (recipes : gmap string (list (string * Q)))
    (its : list (string * Z)) : list (string * Q) :=
  foldl (fun needed '(product, qty) =>
           foldl (fun needed '(ing, per_unit) =>
                    if Qle_bool per_unit 0 then needed
                    else
                      let need := fmul per_unit (float qty) in
                      PyDict.set needed ing
                        (fadd (default 0%Q (PyDict.get needed ing)) need))
                 needed (default [] (recipes !! product)))
        [] its.

Definition can_fulfill (stock : gmap string Q) (needed : list (string * Q)) : bool :=
  forallb (fun '(ing, total_need) =>
             negb (Qgt_bool total_need (fadd (default 0%Q (stock !! ing)) eps)))
          needed.

Definition consume_stock (stock : gmap string Q) (needed : list (string * Q))
  : gmap string Q :=
  foldl (fun s '(ing, total_need) =>
           <[ing := fsub (default 0%Q (s !! ing)) total_need]> s)
        stock needed.

(** The branch taken when the customer slots are used up: everything from
    the current order on goes back to the queue and is recorded unserved. *)
Definition stop_scan (s : Scan) (remaining : list Order) : Scan :=
  {| remaining_customers := remaining_customers s;
     remaining_txistorra := remaining_txistorra s;
     remaining_sidra := remaining_sidra s;
     stock := stock s;
     sold_products := sold_products s;
     unserved_orders := unserved_orders s ++ map items_only remaining;
     served_customers := served_customers s;
     blocked_by_customers_capacity :=
       blocked_by_customers_capacity s + Z.of_nat (length remaining);
     blocked_by_grill_capacity := blocked_by_grill_capacity s;
     blocked_by_sidra_capacity := blocked_by_sidra_capacity s;
     blocked_by_stock := blocked_by_stock s;
     next_queue := next_queue s ++ remaining;
     orders_served := orders_served s |}.

(** The order waits for the grill. *)
Definition block_by_grill (s : Scan) (order : Order) : Scan :=
  {| remaining_customers := remaining_customers s;
     remaining_txistorra := remaining_txistorra s;
     remaining_sidra := remaining_sidra s;
     stock := stock s;
     sold_products := sold_products s;
     unserved_orders := unserved_orders s ++ [items_only order];
     served_customers := served_customers s;
     blocked_by_customers_capacity := blocked_by_customers_capacity s;
     blocked_by_grill_capacity := blocked_by_grill_capacity s + 1;
     blocked_by_sidra_capacity := blocked_by_sidra_capacity s;
     blocked_by_stock := blocked_by_stock s;
     next_queue := next_queue s ++ [order];
     orders_served := orders_served s |}.

(** The order waits for a drink to be poured. *)
Definition block_by_sidra (s : Scan) (order : Order) : Scan :=
  {| remaining_customers := remaining_customers s;
     remaining_txistorra := remaining_txistorra s;
     remaining_sidra := remaining_sidra s;
     stock := stock s;
     sold_products := sold_products s;
     unserved_orders := unserved_orders s ++ [items_only order];
     served_customers := served_customers s;
     blocked_by_customers_capacity := blocked_by_customers_capacity s;
     blocked_by_grill_capacity := blocked_by_grill_capacity s;
     blocked_by_sidra_capacity := blocked_by_sidra_capacity s + 1;
     blocked_by_stock := blocked_by_stock s;
     next_queue := next_queue s ++ [order];
     orders_served := orders_served s |}.

(** The order waits for stock: requeued, the flag set, no unserved record. *)
Definition block_by_stock (s : Scan) (order : Order) : Scan :=
  {| remaining_customers := remaining_customers s;
     remaining_txistorra := remaining_txistorra s;
     remaining_sidra := remaining_sidra s;
     stock := stock s;
     sold_products := sold_products s;
     unserved_orders := unserved_orders s;
     served_customers := served_customers s;
     blocked_by_customers_capacity := blocked_by_customers_capacity s;
     blocked_by_grill_capacity := blocked_by_grill_capacity s;
     blocked_by_sidra_capacity := blocked_by_sidra_capacity s;
     blocked_by_stock := true;
     next_queue := next_queue s ++ [order];
     orders_served := orders_served s |}.

(** [sold_products[product] = sold_products.get(product, 0) + int(qty)]. *)
Definition add_sold (totals : list (string * Z)) (its : list (string * Z))
  : list (string * Z) :=
  foldl (fun acc '(product, qty) =>
           PyDict.set acc product (default 0 (PyDict.get acc product) + qty))
        totals its.

(** The order is served. *)
Definition serve (recipes : gmap string (list (string * Q))) (s : Scan) (order : Order)
  : Scan :=
  {| remaining_customers := fsub (remaining_customers s) 1;
     remaining_txistorra := fsub (remaining_txistorra s) (txistorra_needed recipes order);
     remaining_sidra := fsub (remaining_sidra s) (sidra_needed recipes order);
     stock := consume_stock (stock s) (needed_ingredients recipes (items order));
     sold_products := add_sold (sold_products s) (items order);
     unserved_orders := unserved_orders s;
     served_customers := served_customers s + 1;
     blocked_by_customers_capacity := blocked_by_customers_capacity s;
     blocked_by_grill_capacity := blocked_by_grill_capacity s;
     blocked_by_sidra_capacity := blocked_by_sidra_capacity s;
     blocked_by_stock := blocked_by_stock s;
     next_queue := next_queue s;
     orders_served := orders_served s ++ [items_only order] |}.

(** [for idx, order in enumerate(all_orders)]. *)
Fixpoint scan_orders (recipes : gmap string (list (string * Q)))
    (all_orders : list Order) (s : Scan) : Scan :=
  match all_orders with
  | [] => s
  | order :: rest =>
      if Qle_bool (remaining_customers s) 0 then stop_scan s all_orders
      else if Qgt_bool (txistorra_needed recipes order) (fadd (remaining_txistorra s) eps)
      then scan_orders recipes rest (block_by_grill s order)
      else if Qgt_bool (sidra_needed recipes order) (fadd (remaining_sidra s) eps)
      then scan_orders recipes rest (block_by_sidra s order)
      else if negb (can_fulfill (stock s) (needed_ingredients recipes (items order)))
      then scan_orders recipes rest (block_by_stock s order)
      else scan_orders recipes rest (serve recipes s order)
  end.
End Scanning.

(** The values of the loop variables before the first order. *)
Definition scan_start (caps : WorkerCapacities) (stock0 : gmap string Q) : Scan :=
  {| remaining_customers := customers_per_turn caps;
     remaining_txistorra := txistorra_strips_per_turn caps;
     remaining_sidra := sidra_bottles_per_turn caps;
     stock := stock0;
     sold_products := [("pintxo", 0); ("bocadillo", 0); ("sidra", 0)];
     unserved_orders := [];
     served_customers := 0;
     blocked_by_customers_capacity := 0;
     blocked_by_grill_capacity := 0;
     blocked_by_sidra_capacity := 0;
     blocked_by_stock := false;
     next_queue := [];
     orders_served := [] |}.

(** Step 2 of [_simulate_demand_and_sales]: customers that have waited
    [MAX_QUEUE_WAIT_TURNS] turns or more leave. *)
Definition waited_turns (turn_idx : Z) (order : Order) : Z :=
  turn_idx - default turn_idx (arrival_turn order).

Definition stays (turn_idx : Z) (order : Order) : bool :=
  negb (MAX_QUEUE_WAIT_TURNS <=? waited_turns turn_idx order).

Definition filter_queue (turn_idx : Z) (queue : list Order) : list Order * Z :=
  foldl (fun '(filtered_queue, dropped_from_queue) order =>
           if MAX_QUEUE_WAIT_TURNS <=? waited_turns turn_idx order
           then (filtered_queue, dropped_from_queue + 1)
           else (filtered_queue ++ [order], dropped_from_queue))
        ([], 0) queue.

(** The [stats] dictionary of a turn. *)
Record QueueStats : Type := {
  qs_new_customers : Z;
  qs_served_customers : Z;
  queue_start : Z;
  queue_end : Z;
  qs_blocked_by_customers_capacity : Z;
  qs_blocked_by_grill_capacity : Z;
  qs_blocked_by_sidra_capacity : Z;
  qs_blocked_by_stock : bool;
  dropped_from_queue : Z }.

(** The tuple [_simulate_demand_and_sales] returns. *)
Record Sales : Type := {
  sl_demand_products : list (string * Z);
  sl_sold_products : list (string * Z);
  sl_orders_served : list Order;
  sl_unserved_orders : list Order;
  sl_stats : QueueStats }.

Section SalesPhase.
Context {np : Numerics}.

Definition with_rng (sim : Simulator) (g : Generator) : Simulator :=
  {| config := config sim; rng := g; state := state sim;
     agent_actions_trace := agent_actions_trace sim;
     metrics_tool_calls := metrics_tool_calls sim;
     metrics_tokens_in := metrics_tokens_in sim;
     metrics_tokens_out := metrics_tokens_out sim;
     metrics_cost_eur := metrics_cost_eur sim;
     _end_turn_requested := _end_turn_requested sim |}.

(** Steps 2 and 3 of [_simulate_demand_and_sales], once the new orders of
    the turn are known. *)
Definition serve_queue (recipes : gmap string (list (string * Q))) (st : State)
    (new_orders : list Order) : Scan * Z * Z :=
  let '(filtered_queue, dropped) := filter_queue (turn st) (order_queue st) in
  let queue_start_len := Z.of_nat (length filtered_queue) in
  let all_orders := filtered_queue ++ new_orders in
  (scan_orders recipes all_orders (scan_start (worker_capacities st) (stock_on_hand st)),
   queue_start_len, dropped).

Definition _simulate_demand_and_sales (sim : Simulator) : outcome (Sales * Simulator) :=
  let st := state sim in
  let turn_idx := turn st in
  '(new_batch, g) ← sample_orders_for_agent (prices st) (demand (config sim)) turn_idx (rng sim);
  let sim := with_rng sim g in
  let '(s, queue_start_len, dropped) :=
    serve_queue (recipes (config sim)) st (orders new_batch) in
  let st := with_order_queue (with_stock_on_hand st (stock s)) (next_queue s) in
  let stats :=
    {| qs_new_customers := new_customers new_batch;
       qs_served_customers := served_customers s;
       queue_start := queue_start_len;
       queue_end := Z.of_nat (length (order_queue st));
       qs_blocked_by_customers_capacity := blocked_by_customers_capacity s;
       qs_blocked_by_grill_capacity := blocked_by_grill_capacity s;
       qs_blocked_by_sidra_capacity := blocked_by_sidra_capacity s;
       qs_blocked_by_stock := blocked_by_stock s;
       dropped_from_queue := dropped |} in
  mret ({| sl_demand_products := demand_products new_batch;
           sl_sold_products := sold_products s;
           sl_orders_served := orders_served s;
           sl_unserved_orders := unserved_orders s;
           sl_stats := stats |},
        with_state sim st).
End SalesPhase.

(** *** The decision-maker

    [play_turn] receives the observation and the tool executor, calls tools
    as it pleases, looking at each result, and returns its list of actions.
    The language-model adapters also append reasoning summaries to the
    trace of the turn and add their token counts and cost to the counters of
    the simulator; the other agents report none. *)

Inductive ToolCall : Type :=
  | call_get_status (call_id : string) (arguments : option string)
  | call_get_prices (call_id : string) (arguments : option string)
  | call_set_prices (new_prices : list (string * Q)) (call_id : string)
      (arguments : option string)
  | call_place_order (quantities : list (string * Z)) (workers : list Z)
      (call_id : string) (arguments : option string)
  | call_assign_workers (assignments : list EmployeeAssignment) (call_id : string)
      (arguments : option string)
  | call_end_turn (call_id : string) (arguments : option string).

Inductive Play (R : Type) : Type :=
  | play_return (r : R)
  | play_call (c : ToolCall) (k : ToolResult -> Play R)
  | play_reasoning (id : string) (summary : list string) (k : Play R).
Arguments play_return {R} r.
Arguments play_call {R} c k.
Arguments play_reasoning {R} id summary k.

Record Reply : Type := {
  actions : list Action;
  tokens_in : Z;
  tokens_out : Z;
  cost_eur : Q }.

Record AgentProtocol : Type := {
  memory : Type;
  fresh : memory;
  play_turn : memory -> Observation -> Play (Reply * memory) }.

(** What the decision-maker did in a phase, without the results it got. *)
Inductive Invocation : Type :=
  | invoked (c : ToolCall)
  | reasoned (id : string) (summary : list string).

Section Decision.
Context {np : Numerics}.

Definition exec_tool (c : ToolCall) (sim : Simulator) : outcome (ToolResult * Simulator) :=
  match c with
  | call_get_status call_id arguments => Returned (get_status call_id arguments sim)
  | call_get_prices call_id arguments => Returned (get_prices call_id arguments sim)
  | call_set_prices new_prices call_id arguments =>
      Returned (set_prices new_prices call_id arguments sim)
  | call_place_order quantities workers call_id arguments =>
      place_order quantities workers call_id arguments sim
  | call_assign_workers assignments call_id arguments =>
      Returned (assign_workers assignments call_id arguments sim)
  | call_end_turn call_id arguments => Returned (end_turn call_id arguments sim)
  end.

(** Run the decision-maker against the simulator.  An exception of a tool
    passes through the decision-maker, as it does through the agents of
    the repository, and ends the phase.  A decision-maker that catches the
    exception and goes on is outside this model, and with it the count of the
    call that raised, which the source has added to [metrics_tool_calls]
    before it raises. *)
Fixpoint run_play {R} (p : Play R) (sim : Simulator) : outcome (R * Simulator) :=
  match p with
  | play_return r => Returned (r, sim)
  | play_call c k =>
      '(result, sim) ← exec_tool c sim;
      run_play (k result) sim
  | play_reasoning id summary k =>
      run_play k (append_trace sim (reasoning id summary))
  end.

Fixpoint invocations {R} (p : Play R) (sim : Simulator) : list Invocation :=
  match p with
  | play_return _ => []
  | play_call c k =>
      invoked c ::
      match exec_tool c sim with
      | Raised _ => []
      | Returned (result, sim) => invocations (k result) sim
      end
  | play_reasoning id summary k =>
      reasoned id summary :: invocations k (append_trace sim (reasoning id summary))
  end.
End Decision.

(** *** [run_episode] *)

Record Snapshot : Type := {
  sn_cash : Q;
  sn_stock : gmap string Q;
  sn_inbound : list Delivery;
  sn_prices : gmap string Q;
  sn_worker_assignments : list EmployeeAssignment;
  sn_worker_capacities : WorkerCapacities;
  sn_workers_on_trip : gmap Z Z }.

(** The dictionary handed to [trace_writer] at the end of a turn. *)
Record TraceRecord : Type := {
  tr_turn : Z;
  tr_time : string;
  state_before : Snapshot;
  sb_queue_start : Z;
  agent_actions : list TraceEntry;
  tool_calls_count : Z;
  tr_orders_served : list Order;
  revenue : Q;
  by_product : list (string * Q);
  state_after : Snapshot;
  sa_queue_end : Z;
  llm_tokens_in : Z;
  llm_tokens_out : Z;
  llm_cost_eur : Q }.

Record EpisodeResult : Type := {
  cash_final : Q;
  tool_calls_total : Z;
  tokens_in_total : Z;
  tokens_out_total : Z;
  cost_total_eur : Q }.

Definition snapshot (st : State) : Snapshot :=
  {| sn_cash := cash st; sn_stock := stock_on_hand st;
     sn_inbound := inbound_deliveries st; sn_prices := prices st;
     sn_worker_assignments := worker_assignments st;
     sn_worker_capacities := worker_capacities st;
     sn_workers_on_trip := workers_on_trip st |}.

(** [not actions or actions[-1]["type"] != "end_turn"], negated. *)
Definition ends_with_end_turn (acts : list Action) : bool :=
  match last acts with
  | Some end_turn_action => true
  | _ => false
  end.

Definition end_turn_missing : exn :=
  ValueError "El plan de acciones debe finalizar con 'end_turn'".

Definition dropped_message (dropped : Z) : string :=
  pretty dropped +:+ " persona" +:+ (if dropped =? 1 then "" else "s")
  +:+ " se han ido de la cola porque llevaban más de media hora esperando.".

(** [{k: prices[k] * sold[k] for k in sold}]. *)
Fixpoint sales_by_product (prices : gmap string Q) (sold : list (string * Z))
  : outcome (list (string * Q)) :=
  match sold with
  | [] => Returned []
  | (k, units) :: sold' =>
      price ← getitem prices k;
      rest ← sales_by_product prices sold';
      mret ((k, (price * inject_Z units)%Q) :: rest)
  end.

Section Episode.
Context {np : Numerics}.

(** The top of the loop body: set the turn, clear the flag and the trace of
    the turn, age the trips, receive the deliveries. *)
Definition begin_turn (sim : Simulator) (t : Z) : Simulator :=
  {| config := config sim; rng := rng sim;
     state := _receive_deliveries (_update_worker_trips (with_turn (state sim) t));
     agent_actions_trace := [];
     metrics_tool_calls := metrics_tool_calls sim;
     metrics_tokens_in := metrics_tokens_in sim;
     metrics_tokens_out := metrics_tokens_out sim;
     metrics_cost_eur := metrics_cost_eur sim;
     _end_turn_requested := false |}.

(** What a language-model agent adds to the counters before it returns. *)
Definition add_llm_metrics (sim : Simulator) (reply : Reply) : Simulator :=
  {| config := config sim; rng := rng sim; state := state sim;
     agent_actions_trace := agent_actions_trace sim;
     metrics_tool_calls := metrics_tool_calls sim;
     metrics_tokens_in := metrics_tokens_in sim + tokens_in reply;
     metrics_tokens_out := metrics_tokens_out sim + tokens_out reply;
     metrics_cost_eur := (metrics_cost_eur sim + cost_eur reply)%Q;
     _end_turn_requested := _end_turn_requested sim |}.

(** The decision phase: [agent.play_turn(obs, tools)]. *)
Definition decision_phase {R} (p : Play (Reply * R)) (sim : Simulator)
  : outcome (Reply * R * Simulator) :=
  '(reply, mem, sim) ← run_play p sim;
  mret (reply, mem, add_llm_metrics sim reply).

(** The rest of the loop body after the check of the action list: demand
    and sales, revenue, the summary of the turn and the trace record. *)
Definition settle (sim0 sim : Simulator) : outcome (TraceRecord * Simulator) :=
  let t := turn (state sim0) in
  let tool_calls_this_turn := metrics_tool_calls sim - metrics_tool_calls sim0 in
  let tokens_in_turn := metrics_tokens_in sim - metrics_tokens_in sim0 in
  let tokens_out_turn := metrics_tokens_out sim - metrics_tokens_out sim0 in
  let cost_turn := round6 (metrics_cost_eur sim - metrics_cost_eur sim0) in
  '(sales, sim) ← _simulate_demand_and_sales sim;
  let sold := sl_sold_products sales in
  let queue_stats := sl_stats sales in
  rev ← _compute_revenue (state sim) sold;
  let st := with_cash (state sim) (cash (state sim) + rev)%Q in
  let dropped := dropped_from_queue queue_stats in
  let messages := if 0 <? dropped then [dropped_message dropped] else [] in
  let summary :=
    {| ts_queue_start := queue_start queue_stats;
       ts_new_customers := qs_new_customers queue_stats;
       ts_served_customers := qs_served_customers queue_stats;
       ts_queue_end := queue_end queue_stats;
       ts_dropped_from_queue := dropped;
       ts_orders_served := sl_orders_served sales;
       ts_unserved_orders := sl_unserved_orders sales;
       ts_blocked_by_customers_capacity :=
         0 <? qs_blocked_by_customers_capacity queue_stats;
       ts_blocked_by_grill_capacity := 0 <? qs_blocked_by_grill_capacity queue_stats;
       ts_blocked_by_sidra_capacity := 0 <? qs_blocked_by_sidra_capacity queue_stats;
       ts_blocked_by_stock := qs_blocked_by_stock queue_stats;
       ts_messages := messages;
       ts_worker_assignments := worker_assignments st;
       ts_worker_capacities := worker_capacities st |} in
  let st := with_last_turn st (Some summary) in
  products ← sales_by_product (prices st) sold;
  mret ({| tr_turn := t;
           tr_time := format_time t;
           state_before := snapshot (state sim0);
           sb_queue_start := queue_start queue_stats;
           agent_actions := agent_actions_trace sim;
           tool_calls_count := tool_calls_this_turn;
           tr_orders_served := sl_orders_served sales;
           revenue := rev;
           by_product := products;
           state_after := snapshot st;
           sa_queue_end := queue_end queue_stats;
           llm_tokens_in := tokens_in_turn;
           llm_tokens_out := tokens_out_turn;
           llm_cost_eur := cost_turn |},
        with_state sim st).

(** The check between the two phases. *)
Definition close_turn (sim0 : Simulator) (reply : Reply) (sim : Simulator)
  : outcome (TraceRecord * Simulator) :=
  if ends_with_end_turn (actions reply) then settle sim0 sim
  else Raised end_turn_missing.

(** One iteration of [for t in range(num_turns)]. *)
Definition play_one_turn (agent : AgentProtocol) (mem : memory agent) (t : Z)
    (sim : Simulator) : outcome (TraceRecord * memory agent * Simulator) :=
  let sim0 := begin_turn sim t in
  let obs := _build_observation sim0 in
  '(reply, mem, sim) ← decision_phase (play_turn agent mem obs) sim0;
  '(record, sim) ← close_turn sim0 reply sim;
  mret (record, mem, sim).

(** The loop.  The records written so far stay written when a turn
    raises. *)
Fixpoint episode_loop (agent : AgentProtocol) (turns : list Z) (mem : memory agent)
    (sim : Simulator) (written : list TraceRecord)
  : list TraceRecord * outcome Simulator :=
  match turns with
  | [] => (written, Returned sim)
  | t :: turns' =>
      match play_one_turn agent mem t sim with
      | Raised e => (written, Raised e)
      | Returned (record, mem, sim) =>
          episode_loop agent turns' mem sim (written ++ [record])
      end
  end.

Definition turn_range (n : Z) : list Z := map Z.of_nat (seq 0 (Z.to_nat n)).

Definition episode_result (sim : Simulator) : EpisodeResult :=
  {| cash_final := cash (state sim);
     tool_calls_total := metrics_tool_calls sim;
     tokens_in_total := metrics_tokens_in sim;
     tokens_out_total := metrics_tokens_out sim;
     cost_total_eur := round6 (metrics_cost_eur sim) |}.

(** [run_episode(agent, trace_writer)]: the records handed to the writer
    and the metrics returned, or the exception that ended the episode. *)
Definition run_episode (agent : AgentProtocol) (sim : Simulator)
  : list TraceRecord * outcome EpisodeResult :=
  let '(written, final) :=
    episode_loop agent (turn_range (num_turns (config sim))) (fresh agent)
      (reset sim) [] in
  (written, episode_result <$> final).
End Episode.

(** ** Concrete arithmetic and a concrete generator

    Two instances of the parameters.  Both use the generator whose uniform
    draws are all [0] and whose normal draws are all [0]: [choice] answers
    with the first index of positive probability and [lognormal] with
    [exp(0) = 1]; [math_pow] is exact on integer exponents, the only ones
    the examples below use.  In [zero_draws] every rational is a float and
    the arithmetic is exact; in [binary64_draws] the floats are those of IEEE
    754 binary64 and [fl] rounds to the nearest one, ties to even. *)

(** The integer nearest to [n / d], ties to the even one ([0 < d]). *)
Definition nearest_even (n d : Z) : Z :=
  let q := n / d in
  match 2 * (n mod d) ?= d with
  | Lt => q
  | Gt => q + 1
  | Eq => if Z.even q then q else q + 1
  end.

(** The binary64 float nearest to [x]: 53 bits of precision, least exponent
    [-1074].  The exponent is not bounded above: a result beyond the largest
    float, which the machine turns into an infinity, is not modelled. *)
Definition round_binary64 (x : Q) : Q :=
  let n := Qnum x in
  let d := Zpos (Qden x) in
  if n =? 0 then 0%Q
  else
    let a := Z.abs n in
    let e0 := Z.log2 a - Z.log2 d - 52 in
    let up k := 2 ^ Z.max 0 k in
    let e1 := if a * up (- e0) <? 2 ^ 52 * d * up e0 then e0 - 1 else e0 in
    let e := Z.max e1 (-1074) in
    let m := nearest_even (a * up (- e)) (d * up e) in
    Qred (inject_Z (Z.sgn n * m * up e)%Z / inject_Z (up (- e))%Z)%Q.

Fixpoint first_positive (p : list Q) : nat :=
  match p with
  | [] => O
  | x :: p' => if Qlt_bool 0 x then O else
                 match p' with
                 | [] => O
                 | _ => S (first_positive p')
                 end
  end.

Definition zero_choice (g : unit) (n : nat) (p : list Q) : outcome (nat * unit) :=
  if (n =? length p)%nat && (0 <? n)%nat
  then Returned (first_positive p, g)
  else Raised (ValueError "a and p must have same size").

Definition zero_draws : Numerics.
Proof.
  refine {| fl := fun x => x;
            Generator := unit;
            default_rng := fun _ => tt;
            rng_lognormal := fun g _ _ => (1%Q, g);
            rng_choice := zero_choice;
            math_pow := fun x y => Qpower x (Qfloor y) |}.
  - intros g n p Hn Hpos _ _. unfold zero_choice, returns.
    subst n. rewrite Nat.eqb_refl. simpl.
    destruct (length p) eqn:E; [lia|]. simpl. eauto.
  - intros g n p i g'. unfold zero_choice.
    destruct (n =? length p)%nat eqn:E1; simpl; [|discriminate].
    destruct (0 <? n)%nat eqn:E2; [|discriminate].
    intros [= <- <-]. apply Nat.eqb_eq in E1. apply Nat.ltb_lt in E2.
    subst n. revert E2. clear. induction p as [|x p IH]; simpl; [lia|]. intros _.
    destruct (Qlt_bool 0 x); [lia|].
    destruct p as [|y p]; [lia|]. simpl in IH. specialize (IH ltac:(lia)). simpl. lia.
Defined.

Definition binary64_draws : Numerics :=
  {| fl := round_binary64;
     Generator := @Generator zero_draws;
     default_rng := @default_rng zero_draws;
     rng_lognormal := @rng_lognormal zero_draws;
     rng_choice := @rng_choice zero_draws;
     math_pow := @math_pow zero_draws;
     rng_choice_returns := @rng_choice_returns zero_draws;
     rng_choice_lt := @rng_choice_lt zero_draws |}.



(** ** Quantities the specification speaks of *)

Section Quantities.
Context {np : Numerics}.

(** The float sum, from zero and in the order of the list, of the float
    products of [per_unit] (zero where it is not listed) and quantity. *)
Definition float_total (per_unit : gmap string Q) (quantities : list (string * Z)) : Q :=
  foldl (fun total '(ing, qty) =>
           fadd total (fmul (default 0%Q (per_unit !! ing)) (float qty)))
        0%Q quantities.

(** The total cost of a purchase: the sum over the ingredients of unit cost
    times quantity, as floats add up. *)
Definition cost_of (costs : gmap string Q) (quantities : list (string * Z)) : Q :=
  float_total costs quantities.

(** The total weight of a purchase: the sum over the ingredients of unit
    weight times quantity, as floats add up. *)
Definition weight_sum (weights : gmap string Q) (quantities : list (string * Z)) : Q :=
  float_total weights quantities.

(** What the chosen workers can carry: [len(workers) * worker_max_carry_weight]. *)
Definition carry_limit (cfg : Config) (workers : list Z) : Q :=
  fmul (float (Z.of_nat (length workers))) (worker_max_carry_weight cfg).
End Quantities.

(** Every ingredient of a purchase has a configured unit cost. *)
Definition priced (cfg : Config) (quantities : list (string * Z)) : Prop :=
  Forall (fun '(ing, _) => is_Some (costs cfg !! ing)) quantities.

(** Every quantity of the list fits in a float. *)
Definition convertible (quantities : list (string * Z)) : Prop :=
  Forall (fun '(_, qty) => Z.abs qty < FLOAT_INT_LIMIT) quantities.


(** ** Example configurations

    A three-product stall; the parameters are the parts the examples
    vary. *)

Definition three_prices : gmap string Q :=
  {[ "pintxo" := 2%Q; "bocadillo" := 4%Q; "sidra" := 3%Q ]}.

Definition example_demand (curve : list Q) (profiles : list (string * OrderProfile))
    (segments : list OrderMixSegment) : DemandParams :=
  {| price_ref := three_prices;
     elasticity := {[ "pintxo" := 1%Q; "bocadillo" := 1%Q; "sidra" := 1%Q ]};
     noise_std := 0;
     customers_curve := curve;
     elasticity_customers := 1;
     order_profiles := profiles;
     order_mix_segments := segments |}.

Definition example_config (turns : Z) (stock0 : gmap string Q)
    (assignments0 : option (list EmployeeAssignment))
    (weights : gmap string Q) (recipes0 : gmap string (list (string * Q)))
    (dem : DemandParams) : Config :=
  {| num_turns := turns;
     lead_time := 1;
     seed := 42;
     initial := {| init_cash := 100; init_stock := stock0;
                   init_prices := three_prices;
                   init_worker_assignments := assignments0 |};
     costs := {[ "txistorra" := 1%Q; "pan" := (1 # 2)%Q; "sidra" := 2%Q ]};
     ingredient_weights := weights;
     worker_max_carry_weight := 10;
     recipes := recipes0;
     demand := dem;
     num_workers := 8 |}.

Definition usual_weights : gmap string Q :=
  {[ "txistorra" := (1 # 10)%Q; "pan" := (1 # 5)%Q; "sidra" := 1%Q ]}.

Definition usual_recipes : gmap string (list (string * Q)) :=
  {[ "pintxo" := [("txistorra", 1%Q); ("pan", 1%Q)];
     "bocadillo" := [("txistorra", 2%Q); ("pan", 1%Q)];
     "sidra" := [("sidra", 1%Q)] ]}.

Definition one_pintxo : OrderProfile :=
  {| p_name := "solo_pintxo"; p_items := [("pintxo", 1)] |}.

Definition usual_demand : DemandParams :=
  example_demand [4%Q; 4%Q] [("solo_pintxo", one_pintxo)]
    [{| from_turn := 0; to_turn := 39; profile_probs := [("solo_pintxo", 1%Q)] |}].

Definition usual_config : Config :=
  example_config 2 {[ "txistorra" := 5%Q; "pan" := 5%Q ]}
    (Some [{| employee_id := 1; task := "atender_clientes" |};
           {| employee_id := 2; task := "freir_txistorra" |}])
    usual_weights usual_recipes usual_demand.

(** One loaf weighs a hair more than a worker can carry: [10 + 2^-31],
    about [10.0000000005]. *)
Definition heavy_bread_config : Config :=
  example_config 2 ∅ None
    {[ "pan" := (10 + (1 # 2147483648))%Q ]} usual_recipes usual_demand.


(** A pintxo that takes a hair more than one strip of txistorra:
    [1 + 2^-31], about [1.0000000005]. *)
Definition generous_recipes : gmap string (list (string * Q)) :=
  {[ "pintxo" := [("txistorra", (1 + (1 # 2147483648))%Q)] ]}.

Definition pintxo_order (t : Z) : Order :=
  {| items := [("pintxo", 1)]; arrival_turn := Some t |}.

Definition sidra_order (t : Z) : Order :=
  {| items := [("sidra", 1)]; arrival_turn := Some t |}.

(** Capacities of one worker at the counter and one at the grill. *)
Definition counter_and_grill : WorkerCapacities :=
  _compute_worker_capacities
    [{| employee_id := 1; task := "atender_clientes" |};
     {| employee_id := 2; task := "freir_txistorra" |}].


(** An order has waited long enough to leave the queue. *)
Definition aged (turn_idx : Z) (order : Order) : bool :=
  MAX_QUEUE_WAIT_TURNS <=? waited_turns turn_idx order.


(** ** The expected ticket, in the words of the specification

    For each order profile, the sum of unit price times quantity over its
    items, weighted by the profile probabilities of the active segment,
    normalized to sum to one; a uniform mix when their total is zero. *)

Definition normalized_mix (probs : list (string * Q)) : list (string * Q) :=
  let total := Qsum (map snd probs) in
  if Qeq_bool total 0
  then map (fun '(name, _) => (name, (1 / inject_Z (Z.of_nat (length probs)))%Q)) probs
  else map (fun '(name, p) => (name, (p / total)%Q)) probs.

Definition spec_expected_ticket (prices : gmap string Q) (params : DemandParams)
    (turn_idx : Z) : outcome Q :=
  expected_over_profiles prices (order_profiles params)
    (normalized_mix (_find_order_mix_segment params turn_idx)) 0%Q.

Definition menu : OrderProfile :=
  {| p_name := "menu"; p_items := [("bocadillo", 1); ("sidra", 1)] |}.

(** Three customers in four take a pintxo, one takes the menu; the mix is
    written as weights. *)
Definition weighted_demand : DemandParams :=
  example_demand [4%Q; 4%Q] [("solo_pintxo", one_pintxo); ("menu", menu)]
    [{| from_turn := 0; to_turn := 39;
        profile_probs := [("solo_pintxo", 3%Q); ("menu", 1%Q)] |}].

(** A segment whose weights are all zero. *)
Definition weightless_demand : DemandParams :=
  example_demand [4%Q; 4%Q] [("solo_pintxo", one_pintxo); ("menu", menu)]
    [{| from_turn := 0; to_turn := 39;
        profile_probs := [("solo_pintxo", 0%Q); ("menu", 0%Q)] |}].


(** ** Reachable states

    The world moves by a tool call that returns, by a note or the metrics of
    the decision-maker, and by the phases of the turn engine: setting the
    turn, ageing the trips, receiving deliveries, and the settlement (demand,
    fulfilment, revenue, summary). *)

Section Reachability.
Context {np : Numerics}.

Inductive engine_step : Simulator -> Simulator -> Prop :=
  | step_tool c sim r sim' :
      exec_tool c sim = Returned (r, sim') -> engine_step sim sim'
  | step_reasoning id summary sim :
      engine_step sim (append_trace sim (reasoning id summary))
  | step_metrics reply sim :
      engine_step sim (add_llm_metrics sim reply)
  | step_begin_turn t sim :
      engine_step sim (begin_turn sim t)
  | step_turn t sim :
      engine_step sim (with_state sim (with_turn (state sim) t))
  | step_trips sim :
      engine_step sim (with_state sim (_update_worker_trips (state sim)))
  | step_deliveries sim :
      engine_step sim (with_state sim (_receive_deliveries (state sim)))
  | step_settle sim0 sim record sim' :
      settle sim0 sim = Returned (record, sim') -> engine_step sim sim'.

(** The states an episode on [cfg] can be in: from the state [run_episode]
    starts with, any number of moves. *)
Definition reachable (cfg : Config) (sim : Simulator) : Prop :=
  exists g, rtc engine_step (reset (new_simulator cfg g)) sim.
End Reachability.

(** No worker has a task and is on a trip. *)
Definition workers_disjoint (st : State) : Prop :=
  forall a, a ∈ worker_assignments st -> workers_on_trip st !! employee_id a = None.

(** The part of a configuration the balances depend on: the initial cash,
    stock and prices are not negative, and no order profile asks for a
    negative number of units. *)
Definition valid_config (cfg : Config) : Prop :=
  (0 <= init_cash (initial cfg))%Q
  ∧ map_Forall (fun _ q => (0 <= q)%Q) (init_stock (initial cfg))
  ∧ map_Forall (fun _ p => (0 <= p)%Q) (init_prices (initial cfg))
  ∧ Forall (fun '(_, profile) => Forall (fun '(_, qty) => 0 <= qty) (p_items profile))
           (order_profiles (demand cfg)).


Section AfterCall.
Context {np : Numerics}.

(** The simulator after a tool call; a call that raises leaves it as it
    was. *)
Definition after_call (c : ToolCall) (sim : Simulator) : Simulator :=
  match exec_tool c sim with
  | Returned (_, sim') => sim'
  | Raised _ => sim
  end.

(** The result of a tool call, when it returns one. *)
Definition result_of (c : ToolCall) (sim : Simulator) : option ToolResult :=
  match exec_tool c sim with
  | Returned (r, _) => Some r
  | Raised _ => None
  end.
End AfterCall.


(** No item of the list asks for a negative number of units. *)
Definition units_ok (its : list (string * Z)) : Prop :=
  Forall (fun '(_, qty) => 0 <= qty) its.

(** How far below zero the tolerance of the stock check and of the budget
    checks can take a balance: [275 / 2^37], a float a hair beyond twice
    [1e-9], about [2.0009e-9]. *)
Definition tolerance_floor : Q := - (275 # 137438953472).

(** The balances the specification wants kept: cash and prices not negative,
    stock not below what the tolerance of the stock check allows. *)
Definition balances_ok (st : State) : Prop :=
  (0 <= cash st)%Q
  ∧ map_Forall (fun _ q => (tolerance_floor <= q)%Q) (stock_on_hand st)
  ∧ map_Forall (fun _ p => (0 <= p)%Q) (prices st).

Section Pending.
Context {np : Numerics}.

(** Every quantity in stock is a float. *)
Definition stock_of_floats (stock : gmap string Q) : Prop :=
  map_Forall (fun _ q => (fl q == q)%Q) stock.

(** What keeps the balances: pending deliveries and queued orders carry no
    negative quantity, and the stock holds floats. *)
Definition pending_ok (st : State) : Prop :=
  Forall (fun d => units_ok (d_quantities d)) (inbound_deliveries st)
  ∧ Forall (fun o => units_ok (items o)) (order_queue st)
  ∧ stock_of_floats (stock_on_hand st).
End Pending.


(** One strip of txistorra in stock, two workers at the grill, and a pintxo
    that takes a hair more than one strip. *)
Definition generous_config : Config :=
  example_config 1 {[ "txistorra" := 1%Q ]}
    (Some [{| employee_id := 1; task := "atender_clientes" |};
           {| employee_id := 2; task := "freir_txistorra" |};
           {| employee_id := 3; task := "freir_txistorra" |}])
    usual_weights generous_recipes usual_demand.

Definition no_llm (acts : list Action) : Reply :=
  {| actions := acts; tokens_in := 0; tokens_out := 0; cost_eur := 0 |}.

(** The decision-maker that ends every turn at once. *)
Definition idle_agent : AgentProtocol :=
  {| memory := unit;
     fresh := tt;
     play_turn := fun _ _ =>
       play_call (call_end_turn "" None)
         (fun _ => play_return (no_llm [end_turn_action], tt)) |}.


(** ** What the settlement needs

    The demand and sales phase reads the customers curve at the turn, the
    profile of every name in the active mix, and the price of every product
    it meets.  These say that what it reads is there. *)

Definition products_priced (prices : gmap string Q) (its : list (string * Z)) : Prop :=
  Forall (fun '(product, _) => is_Some (prices !! product)) its.

Definition profiles_priced (prices : gmap string Q) (params : DemandParams) : Prop :=
  Forall (fun '(_, profile) => products_priced prices (p_items profile))
         (order_profiles params)
  ∧ Forall (fun product => is_Some (prices !! product)) ["pintxo"; "bocadillo"; "sidra"].

Definition demand_ready (params : DemandParams) (turn_idx : Z) : Prop :=
  0 <= turn_idx < Z.of_nat (length (customers_curve params))
  ∧ Forall (fun '(name, p) =>
              (0 <= p)%Q ∧ is_Some (PyDict.get (order_profiles params) name))
           (_find_order_mix_segment params turn_idx)
  ∧ profiles_priced (price_ref params) params.

Section Ready.
Context {np : Numerics}.

Definition settlement_ready (sim : Simulator) : Prop :=
  demand_ready (demand (config sim)) (turn (state sim))
  ∧ profiles_priced (prices (state sim)) (demand (config sim))
  ∧ Forall (fun o => products_priced (prices (state sim)) (items o))
           (order_queue (state sim)).
End Ready.


(** A decision-maker that looks at the status and then forgets to end its
    turn, and one that ends its list with [end_turn] without ever calling
    the tool. *)
Definition forgetful_agent : AgentProtocol :=
  {| memory := unit;
     fresh := tt;
     play_turn := fun _ _ =>
       play_call (call_get_status "" None)
         (fun _ => play_return (no_llm [get_status_action], tt)) |}.

Definition silent_agent : AgentProtocol :=
  {| memory := unit;
     fresh := tt;
     play_turn := fun _ _ => play_return (no_llm [end_turn_action], tt) |}.


(** ** What a decision-maker did in an episode

    For each turn played: the tool calls and notes it made, in order, and
    the reply it returned (none when a tool raised). *)

Record Decision : Type := {
  made : list Invocation;
  replied : option Reply }.

Section Decisions.
Context {np : Numerics}.

Definition decision_of {R} (p : Play (Reply * R)) (sim : Simulator) : Decision :=
  {| made := invocations p sim;
     replied := match run_play p sim with
                | Returned (reply, _, _) => Some reply
                | Raised _ => None
                end |}.

Fixpoint episode_decisions (agent : AgentProtocol) (turns : list Z)
    (mem : memory agent) (sim : Simulator) : list Decision :=
  match turns with
  | [] => []
  | t :: turns' =>
      let sim0 := begin_turn sim t in
      decision_of (play_turn agent mem (_build_observation sim0)) sim0 ::
      match play_one_turn agent mem t sim with
      | Raised _ => []
      | Returned (_, mem, sim) => episode_decisions agent turns' mem sim
      end
  end.

Definition decisions (agent : AgentProtocol) (sim : Simulator) : list Decision :=
  episode_decisions agent (turn_range (num_turns (config sim))) (fresh agent) (reset sim).
End Decisions.

(** A decision-maker that counts its turns and looks at the result of
    [end_turn] before it returns; it does what the idle one does. *)
Definition counting_agent : AgentProtocol :=
  {| memory := nat;
     fresh := O;
     play_turn := fun n _ =>
       play_call (call_end_turn "" None)
         (fun result =>
            if ok result then play_return (no_llm [end_turn_action], S n)
            else play_return (no_llm [], S n)) |}.


(** ** Head counts *)

(** The number of assignments that put a worker on the task [name]. *)
Definition workers_on (name : string) (assignments : list EmployeeAssignment) : Z :=
  Z.of_nat (length (filter (fun a => task a = name) assignments)).


(** The five task names [assign_workers] knows. *)
Definition task_names : list string := map fst task_counts_zero.

(** An entry [assign_workers] can take: a worker of the stall, not on a
    trip, on a known task. *)
Definition assignable (cfg : Config) (st : State) (a : EmployeeAssignment) : Prop :=
  1 <= employee_id a <= num_workers cfg
  ∧ workers_on_trip st !! employee_id a = None
  ∧ task a ∈ task_names.


(** The usual stall with goods that are supposed to arrive at once. *)
Definition no_lead_config : Config :=
  {| num_turns := num_turns usual_config;
     lead_time := 0;
     seed := seed usual_config;
     initial := initial usual_config;
     costs := costs usual_config;
     ingredient_weights := ingredient_weights usual_config;
     worker_max_carry_weight := worker_max_carry_weight usual_config;
     recipes := recipes usual_config;
     demand := demand usual_config;
     num_workers := num_workers usual_config |}.



(** ** Reading the trace of a turn *)

Definition is_tool_call (e : TraceEntry) : bool :=
  match e with
  | tool_call _ _ _ _ => true
  | reasoning _ _ => false
  end.

(** The name under which the executor records a call, and the id the caller
    gave it. *)
Definition tool_name (c : ToolCall) : string :=
  match c with
  | call_get_status _ _ => "get_status"
  | call_get_prices _ _ => "get_prices"
  | call_set_prices _ _ _ => "set_prices"
  | call_place_order _ _ _ _ => "place_order"
  | call_assign_workers _ _ _ => "assign_workers"
  | call_end_turn _ _ => "end_turn"
  end.

Definition call_id_of (c : ToolCall) : string :=
  match c with
  | call_get_status id _ | call_get_prices id _ | call_set_prices _ id _
  | call_place_order _ _ id _ | call_assign_workers _ id _ | call_end_turn id _ => id
  end.



(** ** Segments and staffing *)

(** The test of [_find_order_mix_segment]: the segment contains the turn. *)
Definition covers (turn_idx : Z) (seg : OrderMixSegment) : bool :=
  (from_turn seg <=? turn_idx) && (turn_idx <=? to_turn seg).

(** The capacities are those of the assignments the state holds. *)
Definition staffed (st : State) : Prop :=
  worker_capacities st = _compute_worker_capacities (worker_assignments st).



(** ** What became of an order in the scan *)

Inductive Verdict : Type :=
  | was_served
  | held_by_counter
  | held_by_grill
  | held_by_sidra
  | held_by_stock.

Definition is_served (v : Verdict) : bool :=
  match v with was_served => true | _ => false end.

Definition is_held (v : Verdict) : bool := negb (is_served v).

Definition is_held_by_stock (v : Verdict) : bool :=
  match v with held_by_stock => true | _ => false end.

(** Held back by the counter, the grill or the sidra. *)
Definition is_held_by_capacity (v : Verdict) : bool :=
  match v with held_by_counter | held_by_grill | held_by_sidra => true | _ => false end.

Section Verdicts.
Context {np : Numerics}.

(** Each order of the batch with the branch of the loop that it took. *)
Fixpoint verdicts (recipes : gmap string (list (string * Q)))
    (all_orders : list Order) (s : Scan) : list (Order * Verdict) :=
  match all_orders with
  | [] => []
  | order :: rest =>
      if Qle_bool (remaining_customers s) 0
      then map (fun o => (o, held_by_counter)) all_orders
      else if Qgt_bool (txistorra_needed recipes order) (fadd (remaining_txistorra s) eps)
      then (order, held_by_grill) :: verdicts recipes rest (block_by_grill s order)
      else if Qgt_bool (sidra_needed recipes order) (fadd (remaining_sidra s) eps)
      then (order, held_by_sidra) :: verdicts recipes rest (block_by_sidra s order)
      else if negb (can_fulfill (stock s) (needed_ingredients recipes (items order)))
      then (order, held_by_stock) :: verdicts recipes rest (block_by_stock s order)
      else (order, was_served) :: verdicts recipes rest (serve recipes s order)
  end.
End Verdicts.

(** The orders of a list of verdicts that satisfy [f]. *)
Definition orders_with (f : Verdict -> bool) (vs : list (Order * Verdict)) : list Order :=
  map fst (List.filter (fun ov => f (snd ov)) vs).



(** The usual stall asked to play three turns on its curve of two. *)
Definition short_curve_config : Config :=
  {| num_turns := 3;
     lead_time := lead_time usual_config;
     seed := seed usual_config;
     initial := initial usual_config;
     costs := costs usual_config;
     ingredient_weights := ingredient_weights usual_config;
     worker_max_carry_weight := worker_max_carry_weight usual_config;
     recipes := recipes usual_config;
     demand := demand usual_config;
     num_workers := num_workers usual_config |}.


(** * Properties *)

(** ** Comparisons *)

Lemma Qgt_bool_true (x y : Q) : Qgt_bool x y = true <-> (y < x)%Q.
Proof.
  unfold Qgt_bool. rewrite negb_true_iff, <- not_true_iff_false, Qle_bool_iff.
  split; [apply Qnot_le_lt | apply Qlt_not_le].
Qed.

Lemma Qgt_bool_false (x y : Q) : Qgt_bool x y = false <-> (x <= y)%Q.
Proof. unfold Qgt_bool. by rewrite negb_false_iff, Qle_bool_iff. Qed.

Lemma Qlt_bool_true (x y : Q) : Qlt_bool x y = true <-> (x < y)%Q.
Proof. apply Qgt_bool_true. Qed.

Lemma Qlt_bool_false (x y : Q) : Qlt_bool x y = false <-> (y <= x)%Q.
Proof. apply Qgt_bool_false. Qed.

Lemma Qle_bool_false (x y : Q) : Qle_bool x y = false <-> (y < x)%Q.
Proof.
  rewrite <- not_true_iff_false, Qle_bool_iff.
  split; [apply Qnot_le_lt | apply Qlt_not_le].
Qed.

(** ** Dictionaries *)

Module PyDictFacts.
Section Facts.
Context {V : Type}.
Implicit Types (d : list (string * V)) (k : string) (v : V).

Lemma get_set_eq d k v : PyDict.get (PyDict.set d k v) k = Some v.
Proof.
  induction d as [|[k' v'] d IH]; simpl.
  - by rewrite String.eqb_refl.
  - destruct (String.eqb k' k) eqn:E; simpl; by rewrite E.
Qed.

Lemma get_set_ne d k k' v : k ≠ k' -> PyDict.get (PyDict.set d k v) k' = PyDict.get d k'.
Proof.
  intros Hne. induction d as [|[k0 v0] d IH]; simpl.
  - destruct (String.eqb k k') eqn:E; [|done]. by apply String.eqb_eq in E.
  - destruct (String.eqb k0 k) eqn:E; simpl.
    + apply String.eqb_eq in E. subst k0.
      destruct (String.eqb k k') eqn:E'; [|done]. by apply String.eqb_eq in E'.
    + by rewrite IH.
Qed.

Lemma get_Some_elem d k v : PyDict.get d k = Some v -> (k, v) ∈ d.
Proof.
  induction d as [|[k0 v0] d IH]; simpl; [done|].
  destruct (String.eqb k0 k) eqn:E.
  - apply String.eqb_eq in E. intros [= ->]. subst. left.
  - intros H. right. by apply IH.
Qed.

Lemma keys_set d k v :
  map fst (PyDict.set d k v)
  = if PyDict.get d k is Some _ then map fst d else map fst d ++ [k].
Proof.
  induction d as [|[k0 v0] d IH]; simpl; [done|].
  destruct (String.eqb k0 k) eqn:E; simpl; [done|].
  rewrite IH. by destruct (PyDict.get d k).
Qed.

Lemma get_None_keys d k : PyDict.get d k = None -> k ∉ map fst d.
Proof.
  induction d as [|[k0 v0] d IH]; simpl; [intros _; apply not_elem_of_nil|].
  destruct (String.eqb k0 k) eqn:E; [done|]. intros H.
  apply not_elem_of_cons. split; [|by apply IH].
  intros ->. by rewrite String.eqb_refl in E.
Qed.

Lemma NoDup_keys_set d k v : NoDup (map fst d) -> NoDup (map fst (PyDict.set d k v)).
Proof.
  intros Hnd. rewrite keys_set. destruct (PyDict.get d k) eqn:E; [done|].
  apply NoDup_app. split_and!; [done| |apply NoDup_singleton].
  intros x Hx Hx'. apply list_elem_of_singleton in Hx'. subst x.
  by apply get_None_keys in E.
Qed.

End Facts.
End PyDictFacts.

(** ** Worker lists *)

Lemma insert_by_id_perm a l : insert_by_id a l ≡ₚ a :: l.
Proof.
  induction l as [|b l IH]; simpl; [done|].
  destruct (employee_id a <=? employee_id b); [done|].
  rewrite IH. apply Permutation_swap.
Qed.

Lemma normalize_perm l : _normalize_assignments l ≡ₚ l.
Proof.
  induction l as [|a l IH]; simpl; [done|].
  rewrite insert_by_id_perm. by rewrite IH.
Qed.

Lemma elem_of_normalize a l : a ∈ _normalize_assignments l <-> a ∈ l.
Proof. by rewrite normalize_perm. Qed.

Lemma check_workers_seen n on_trip ws seen0 seen :
  check_workers n on_trip ws seen0 = inr seen ->
  seen = list_to_set ws ∪ seen0
  ∧ Forall (fun w => 1 <= w <= n ∧ on_trip !! w = None) ws.
Proof.
  revert seen0. induction ws as [|w ws IH]; intros seen0; simpl.
  - intros [= <-]. split; [set_solver|constructor].
  - destruct ((w <? 1) || (n <? w)) eqn:Hrange; [done|].
    case_bool_decide as Hdup; [done|]. case_bool_decide as Htrip; [done|].
    intros Hrec. apply IH in Hrec as [-> Hall]. split; [set_solver|].
    constructor; [|done]. apply orb_false_iff in Hrange as [?%Z.ltb_ge ?%Z.ltb_ge].
    split; [lia|]. destruct (on_trip !! w) eqn:E; [|done].
    exfalso. apply Htrip. by eexists.
Qed.

Lemma lookup_foldr_insert (m : gmap Z Z) (l : list Z) lead w :
  foldr (fun w m => <[w := lead]> m) m l !! w
  = if decide (w ∈ l) then Some lead else m !! w.
Proof.
  induction l as [|x l IH]; simpl.
  - destruct (decide (w ∈ [])) as [H|_]; [by apply elem_of_nil in H|done].
  - destruct (decide (x = w)) as [->|Hne].
    + rewrite lookup_insert_eq. destruct (decide (w ∈ w :: l)) as [_|H]; [done|].
      exfalso. apply H. left.
    + rewrite lookup_insert_ne by done. rewrite IH.
      destruct (decide (w ∈ l)) as [Hin|Hin], (decide (w ∈ x :: l)) as [Hin'|Hin'];
        try done.
      * exfalso. apply Hin'. by right.
      * exfalso. apply elem_of_cons in Hin' as [->|?]; done.
Qed.

Lemma lookup_send_on_trip (m : gmap Z Z) (seen : gset Z) lead w :
  send_on_trip m seen lead !! w = if decide (w ∈ seen) then Some lead else m !! w.
Proof.
  unfold send_on_trip. rewrite lookup_foldr_insert.
  destruct (decide (w ∈ elements seen)) as [Hin|Hin], (decide (w ∈ seen)) as [Hin'|Hin'];
    try done; exfalso; apply elem_of_elements in Hin || apply Hin;
    try done; by apply elem_of_elements.
Qed.

(** ** [place_order] *)

Section PlaceOrder.
Context {np : Numerics}.

Lemma total_weight_of_sum weights quantities :
  total_weight_of weights quantities = weight_sum weights quantities.
Proof. reflexivity. Qed.

Lemma order_cost_inr costs quantities acc cost :
  order_cost costs quantities acc = Returned (inr cost) ->
  cost = foldl (fun total '(ing, qty) =>
                  fadd total (fmul (default 0%Q (costs !! ing)) (float qty)))
               acc quantities.
Proof.
  revert acc. induction quantities as [|[ing qty] l IH]; intros acc; simpl.
  - by intros [= <-].
  - destruct (qty <? 0); [done|]. unfold getitem.
    destruct (costs !! ing) as [c|] eqn:E; simpl; [|done].
    unfold float_of_int. destruct (Z.abs qty <? FLOAT_INT_LIMIT); simpl; [|done].
    apply IH.
Qed.

Lemma order_cost_priced costs quantities acc :
  Forall (fun '(ing, _) => is_Some (costs !! ing)) quantities ->
  convertible quantities ->
  exists checked, order_cost costs quantities acc = Returned checked.
Proof.
  revert acc. induction quantities as [|[ing qty] l IH]; intros acc Hall Hfit; simpl.
  - eauto.
  - apply Forall_cons in Hall as [[c Hc] Hall]. apply Forall_cons in Hfit as [Hq Hfit].
    destruct (qty <? 0); [eauto|]. unfold getitem. rewrite Hc. simpl.
    unfold float_of_int. apply Z.ltb_lt in Hq. rewrite Hq. simpl. by apply IH.
Qed.

(** The five ways [place_order] says no all leave the state alone; the one
    way it says yes is [accept_order]. *)
Lemma place_order_returned quantities workers call_id arguments sim r sim' :
  place_order quantities workers call_id arguments sim = Returned (r, sim') ->
  (ok r = false ∧ is_Some (reason r) ∧ state sim' = state sim)
  ∨ (ok r = true
     ∧ exists cost seen,
         order_cost (costs (config sim)) quantities 0%Q = Returned (inr cost)
         ∧ check_workers (num_workers (config sim)) (workers_on_trip (state sim))
             workers ∅ = inr seen
         ∧ (weight_sum (ingredient_weights (config sim)) quantities
            <= fadd (carry_limit (config sim) workers) eps)%Q
         ∧ (cost <= cash (state sim))%Q
         ∧ state sim' = accept_order (config sim) (state sim) quantities seen cost).
Proof.
  unfold place_order. simpl.
  destruct (order_cost _ _ _) as [e|[ing|cost]] eqn:Hcost; simpl; [done| |].
  { intros [= <- <-]. left. simpl. eauto. }
  destruct workers as [|w ws]; [intros [= <- <-]; left; simpl; eauto|].
  destruct (check_workers _ _ _ _) as [msg|seen] eqn:Hw;
    [intros [= <- <-]; left; simpl; eauto|].
  rewrite total_weight_of_sum. fold (carry_limit (config sim) (w :: ws)).
  destruct (Qgt_bool _ (fadd _ eps)) eqn:Hweight;
    [intros [= <- <-]; left; simpl; eauto|].
  destruct (Qgt_bool cost _) eqn:Hcash;
    [intros [= <- <-]; left; simpl; eauto|].
  intros [= <- <-]. right. simpl. split; [done|]. exists cost, seen.
  apply Qgt_bool_false in Hweight, Hcash. done.
Qed.
End PlaceOrder.

Section PlaceOrderClaims.
Context {np : Numerics}.

Lemma place_order_returns_if_priced quantities workers call_id arguments sim :
  priced (config sim) quantities ->
  convertible quantities ->
  returns (place_order quantities workers call_id arguments sim).
Proof.
  intros Hp Hfit. unfold place_order, returns. simpl.
  destruct (order_cost_priced _ _ 0%Q Hp Hfit) as [checked ->]. simpl.
  destruct checked; [eauto|]. destruct workers; [eauto|].
  destruct (check_workers _ _ _ _); [eauto|].
  destruct (Qgt_bool _ _); [eauto|]. destruct (Qgt_bool _ _); eauto.
Qed.

(** C4, amended.  A purchase of priced ingredients, in quantities that fit in
    a float, whose total weight is greater than what the chosen workers can
    carry plus [1e-9], the weight, the limit and the sum being the floats the
    code computes, is answered with a failure, and cash, stock and pending
    deliveries are what they were. *)
Theorem place_order_overweight_rejected quantities workers call_id arguments sim :
  priced (config sim) quantities ->
  convertible quantities ->
  (fadd (carry_limit (config sim) workers) eps
   < weight_sum (ingredient_weights (config sim)) quantities)%Q ->
  exists r sim',
    place_order quantities workers call_id arguments sim = Returned (r, sim')
    ∧ ok r = false
    ∧ is_Some (reason r)
    ∧ cash (state sim') = cash (state sim)
    ∧ stock_on_hand (state sim') = stock_on_hand (state sim)
    ∧ inbound_deliveries (state sim') = inbound_deliveries (state sim).
Proof.
  intros Hp Hfit Hheavy.
  destruct (place_order_returns_if_priced quantities workers call_id arguments sim Hp Hfit)
    as [[r sim'] Hret].
  exists r, sim'. split; [done|].
  apply place_order_returned in Hret as [(Hok & Hreason & ->)|(_ & cost & seen & Hacc)]; [done|].
  destruct Hacc as (_ & _ & Hlight & _). exfalso. revert Hheavy. by apply Qle_not_lt.
Qed.

(** C5.  An accepted purchase takes its total cost off the cash, appends a
    delivery of exactly the quantities asked for, due [lead_time] turns after
    the current one, leaves no listed worker with a task and puts every
    listed worker on a trip of [lead_time] turns. *)
Theorem place_order_accepted_effects quantities workers call_id arguments sim r sim' :
  place_order quantities workers call_id arguments sim = Returned (r, sim') ->
  ok r = true ->
  cash (state sim') = fsub (cash (state sim)) (cost_of (costs (config sim)) quantities)
  ∧ inbound_deliveries (state sim')
    = inbound_deliveries (state sim)
      ++ [{| d_arrival_turn := turn (state sim) + lead_time (config sim);
             d_quantities := quantities |}]
  ∧ (forall w a, w ∈ workers -> a ∈ worker_assignments (state sim') -> employee_id a ≠ w)
  ∧ (forall w, w ∈ workers ->
       workers_on_trip (state sim') !! w = Some (lead_time (config sim))).
Proof.
  intros Hret Hok.
  apply place_order_returned in Hret as [(Hno & _)|(_ & cost & seen & Hacc)];
    [congruence|].
  destruct Hacc as (Hcost & Hseen & _ & _ & ->).
  apply order_cost_inr in Hcost. apply check_workers_seen in Hseen as [-> _].
  unfold accept_order. simpl. split_and!.
  - by rewrite Hcost.
  - done.
  - intros w a Hw Ha <-. rewrite !elem_of_normalize in Ha.
    apply list_elem_of_filter in Ha as [Hnot _]. apply Hnot.
    apply elem_of_union_l. by apply elem_of_list_to_set.
  - intros w Hw. rewrite lookup_send_on_trip.
    destruct (decide (w ∈ list_to_set workers ∪ (∅ : gset Z))) as [_|Hnot]; [done|].
    exfalso. apply Hnot. apply elem_of_union_l. by apply elem_of_list_to_set.
Qed.
End PlaceOrderClaims.

Lemma place_order_overweight_rejected_witness :
  let sim := new_simulator (np := zero_draws) usual_config None in
  exists r sim',
    place_order [("pan", 60)] [1] "c1" None sim = Returned (r, sim')
    ∧ ok r = false
    ∧ is_Some (reason r)
    ∧ cash (state sim') = cash (state sim)
    ∧ stock_on_hand (state sim') = stock_on_hand (state sim)
    ∧ inbound_deliveries (state sim') = inbound_deliveries (state sim).
Proof.
  intros sim.
  apply (place_order_overweight_rejected (np := zero_draws) [("pan", 60)] [1] "c1" None sim).
  - repeat constructor. vm_compute. eauto.
  - repeat constructor.
  - vm_compute. reflexivity.
Defined.

(** C4 as stated fails within the tolerance: in binary64 arithmetic a loaf
    of [10 + 2^-31], heavier than the [10.0] one worker carries by about half
    of [1e-9], is accepted, paid for and scheduled. *)
Lemma place_order_overweight_accepted :
  let sim := new_simulator (np := binary64_draws) heavy_bread_config None in
  let call := call_place_order [("pan", 1)] [1] "c1" None in
  (carry_limit (np := binary64_draws) (config sim) [1%Z]
   < weight_sum (np := binary64_draws) (ingredient_weights (config sim)) [("pan", 1%Z)])%Q
  ∧ ok <$> result_of call sim = Some true
  ∧ (cash (state (after_call call sim)) < cash (state sim))%Q
  ∧ inbound_deliveries (state sim) = []
  ∧ inbound_deliveries (state (after_call call sim))
    = [{| d_arrival_turn := 1; d_quantities := [("pan", 1)] |}].
Proof. split_and!; vm_compute; reflexivity. Qed.

Lemma place_order_accepted_effects_witness :
  let sim := new_simulator (np := zero_draws) usual_config None in
  let quantities := [("pan", 3); ("txistorra", 2)] in
  let sim' := after_call (call_place_order quantities [2; 5] "c1" None) sim in
  cash (state sim')
  = fsub (np := zero_draws) (cash (state sim))
      (cost_of (np := zero_draws) (costs (config sim)) quantities)
  ∧ inbound_deliveries (state sim')
    = [{| d_arrival_turn := 1; d_quantities := quantities |}]
  ∧ (forall a, a ∈ worker_assignments (state sim') -> employee_id a ≠ 2)
  ∧ workers_on_trip (state sim') !! 5 = Some 1.
Proof.
  intros sim quantities sim'.
  eassert (place_order quantities [2; 5] "c1" None sim = Returned (_, sim')) as Hcall
    by (vm_compute; reflexivity).
  destruct (place_order_accepted_effects (np := zero_draws) _ _ _ _ _ _ _ Hcall eq_refl)
    as (Hcash & Hdel & Hfree & Htrip).
  split_and!; [exact Hcash | exact Hdel | |].
  - intros a Ha. apply (Hfree 2 a); [|exact Ha]. apply elem_of_cons. by left.
  - apply Htrip. apply elem_of_cons. right. apply elem_of_cons. by left.
Defined.

(** ** The tool surface as a whole *)

Section ToolSurface.
Context {np : Numerics}.

(** A call that comes back with a failure carries a reason and has not
    touched the state. *)
Lemma exec_tool_failed_unchanged c sim r sim' :
  exec_tool c sim = Returned (r, sim') ->
  ok r = false ->
  is_Some (reason r) ∧ state sim' = state sim.
Proof.
  destruct c as [id a|id a|new_prices id a|q ws id a|asg id a|id a]; simpl.
  - by intros [= <- <-].
  - by intros [= <- <-].
  - unfold set_prices. destruct (List.find _ _) as [[k v]|]; intros [= <- <-]; simpl; eauto.
    done.
  - intros Hret Hok.
    apply place_order_returned in Hret as [(_ & ? & ?)|(Hyes & _)]; [done|congruence].
  - unfold assign_workers. destruct (check_assignments _ _ _ _ _) as [msg|counts].
    + intros [= <- <-]; simpl; eauto.
    + destruct (List.find _ _) as [[name limit]|]; intros [= <- <-]; simpl; eauto.
      done.
  - by intros [= <- <-].
Qed.

(** The only call that can raise is a purchase naming an ingredient
    without a configured cost, or a quantity too large for a float. *)
Lemma exec_tool_returns c sim :
  match c with
  | call_place_order quantities _ _ _ =>
      priced (config sim) quantities ∧ convertible quantities
  | _ => True
  end ->
  returns (exec_tool c sim).
Proof.
  destruct c; simpl; try (intros _; unfold returns; by eauto).
  intros [Hp Hfit]. by apply place_order_returns_if_priced.
Qed.
End ToolSurface.

(** C3 fails on [place_order]: the cost loop reads [costs[ing]] before any
    check of the ingredient name, so a purchase of an ingredient the
    configuration does not price raises [KeyError] instead of returning a
    failure.  (The weight loop next to it reads [ingredient_weights.get(ing,
    0.0)].) *)
Theorem place_order_unknown_ingredient_raises :
  place_order (np := zero_draws) [("agua", 1)] [1] "c1" None
    (new_simulator usual_config None)
  = Raised (KeyError "agua").
Proof. vm_compute. reflexivity. Qed.

(** ** The fulfilment scan *)

Section ScanControl.
Context {np : Numerics}.

Lemma stop_scan_nil s : stop_scan s [] = s.
Proof.
  destruct s. unfold stop_scan. simpl. by rewrite !app_nil_r, Z.add_0_r.
Qed.

Lemma stop_scan_app s l1 l2 : stop_scan (stop_scan s l1) l2 = stop_scan s (l1 ++ l2).
Proof.
  unfold stop_scan. simpl.
  by rewrite map_app, !app_assoc, length_app, Nat2Z.inj_add, Z.add_assoc.
Qed.

(** Once the customer slots are used up the scan stops, whatever is left. *)
Lemma scan_stopped recipes l s :
  (remaining_customers s <= 0)%Q -> scan_orders recipes l s = stop_scan s l.
Proof.
  intros Hrc. destruct l as [|o l]; simpl; [by rewrite stop_scan_nil|].
  apply Qle_bool_iff in Hrc. by rewrite Hrc.
Qed.

Lemma scan_app recipes l1 l2 s :
  scan_orders recipes (l1 ++ l2) s = scan_orders recipes l2 (scan_orders recipes l1 s).
Proof.
  revert s. induction l1 as [|o l1 IH]; intros s; [done|].
  change ((o :: l1) ++ l2) with (o :: (l1 ++ l2)). simpl.
  destruct (Qle_bool (remaining_customers s) 0) eqn:Hrc.
  - apply Qle_bool_iff in Hrc.
    rewrite scan_stopped by done. by rewrite stop_scan_app.
  - repeat (match goal with |- context [if ?b then _ else _] => destruct b end);
      apply IH.
Qed.

(** The scan only ever appends to the next queue and to the unserved list. *)
Lemma scan_extends recipes l s :
  exists nq un,
    next_queue (scan_orders recipes l s) = next_queue s ++ nq
    ∧ unserved_orders (scan_orders recipes l s) = unserved_orders s ++ un.
Proof.
  revert s. induction l as [|o l IH]; intros s.
  - exists [], []. simpl. by rewrite !app_nil_r.
  - simpl. destruct (Qle_bool (remaining_customers s) 0); [simpl; eauto|].
    repeat (match goal with |- context [if ?b then _ else _] => destruct b end);
      match goal with |- context [scan_orders _ _ ?s'] =>
        destruct (IH s') as (nq & un & -> & ->) end; simpl;
      rewrite <- ?app_assoc; eauto.
Qed.

End ScanControl.



(** ** Eviction from the queue *)

Lemma filter_queue_spec turn_idx queue :
  filter_queue turn_idx queue
  = (List.filter (stays turn_idx) queue,
     Z.of_nat (length (List.filter (aged turn_idx) queue))).
Proof.
  unfold filter_queue.
  assert (forall acc n,
    foldl (fun '(filtered_queue, dropped_from_queue) order =>
             if MAX_QUEUE_WAIT_TURNS <=? waited_turns turn_idx order
             then (filtered_queue, dropped_from_queue + 1)
             else (filtered_queue ++ [order], dropped_from_queue))
          (acc, n) queue
    = (acc ++ List.filter (stays turn_idx) queue,
       n + Z.of_nat (length (List.filter (aged turn_idx) queue)))) as H.
  { induction queue as [|o q IH]; intros acc n; simpl.
    - by rewrite app_nil_r, Z.add_0_r.
    - unfold stays, aged.
      destruct (MAX_QUEUE_WAIT_TURNS <=? waited_turns turn_idx o); simpl; rewrite IH.
      + f_equal. fold (aged turn_idx). lia.
      + by rewrite <- app_assoc. }
  by rewrite H.
Qed.

Section Eviction.
Context {np : Numerics}.

Lemma scan_next_queue_from recipes l s o :
  o ∈ next_queue (scan_orders recipes l s) -> o ∈ next_queue s ∨ o ∈ l.
Proof.
  revert s. induction l as [|x l IH]; intros s; simpl; [by left|].
  destruct (Qle_bool (remaining_customers s) 0).
  { simpl. intros [?|?]%elem_of_app; [by left|by right]. }
  repeat (match goal with |- context [if ?b then _ else _] => destruct b end);
    intros [Hin|Hin]%IH; simpl in Hin;
    try apply elem_of_app in Hin as [Hin|Hin%list_elem_of_singleton];
    subst; try (by left); right; by constructor.
Qed.

(** C6.  The queue handed to the scan is the old queue without the orders
    that have waited two turns or more; those are counted as dropped, and the
    scan starts from the full budgets and the full stock whatever they are.
    No order left for the next turn is one that was neither kept nor new. *)
Theorem aged_orders_evicted_before_scan recipes st new_orders :
  let kept := List.filter (fun o => negb (aged (turn st) o)) (order_queue st) in
  let gone := List.filter (aged (turn st)) (order_queue st) in
  serve_queue recipes st new_orders
  = (scan_orders recipes (kept ++ new_orders)
       (scan_start (worker_capacities st) (stock_on_hand st)),
     Z.of_nat (length kept), Z.of_nat (length gone))
  ∧ Forall (fun o => 2 <= turn st - default (turn st) (arrival_turn o)) gone
  ∧ Forall (fun o => turn st - default (turn st) (arrival_turn o) < 2) kept
  ∧ forall o, o ∈ next_queue (serve_queue recipes st new_orders).1.1 ->
              o ∈ kept ∨ o ∈ new_orders.
Proof.
  intros kept gone.
  assert (serve_queue recipes st new_orders
          = (scan_orders recipes (kept ++ new_orders)
               (scan_start (worker_capacities st) (stock_on_hand st)),
             Z.of_nat (length kept), Z.of_nat (length gone))) as Heq.
  { unfold serve_queue. by rewrite filter_queue_spec. }
  split_and!; [done| | |].
  - apply Forall_forall. intros o [_ Ho]%list_elem_of_In%filter_In.
    unfold aged, waited_turns, MAX_QUEUE_WAIT_TURNS in Ho. lia.
  - apply Forall_forall. intros o [_ Ho]%list_elem_of_In%filter_In.
    unfold aged, waited_turns, MAX_QUEUE_WAIT_TURNS in Ho. lia.
  - rewrite Heq. simpl. intros o [Hin|Hin]%scan_next_queue_from.
    + by apply elem_of_nil in Hin.
    + by apply elem_of_app in Hin.
Qed.
End Eviction.

(** At turn 3 the customers of turns 0 and 1 leave; the one of turn 2 is
    served and the newcomer waits for the grill. *)
Lemma aged_orders_evicted_before_scan_witness :
  let st := with_order_queue (with_turn (_init_state usual_config) 3)
              [pintxo_order 0; pintxo_order 1; pintxo_order 2] in
  let out := serve_queue (np := zero_draws) usual_recipes st [pintxo_order 3] in
  out.2 = 2
  ∧ out.1.2 = 1
  ∧ orders_served out.1.1 = [items_only (pintxo_order 2)]
  ∧ next_queue out.1.1 = [pintxo_order 3].
Proof.
  intros st out. subst out.
  destruct (aged_orders_evicted_before_scan (np := zero_draws) usual_recipes st
              [pintxo_order 3]) as (-> & _).
  vm_compute. split_and!; reflexivity.
Defined.

(** ** The expected ticket *)

(** C8 fails on [_compute_expected_ticket]: the weights of the segment are
    used as they are.  With weights 3 and 1 for a pintxo (2) and a menu (7)
    the code answers 13; the mean ticket of the customers [_sample_profile]
    draws from the same weights is 13/4.  With all weights zero the code
    answers 0; a uniform mix gives 9/2. *)
Theorem expected_ticket_not_normalized :
  (exists code spec,
     _compute_expected_ticket three_prices weighted_demand 0 = Returned code
     ∧ spec_expected_ticket three_prices weighted_demand 0 = Returned spec
     ∧ (code == 13)%Q ∧ (spec == 13 # 4)%Q)
  ∧ (exists code spec,
       _compute_expected_ticket three_prices weightless_demand 0 = Returned code
       ∧ spec_expected_ticket three_prices weightless_demand 0 = Returned spec
       ∧ (code == 0)%Q ∧ (spec == 9 # 2)%Q).
Proof.
  split; eexists _, _; (split; [vm_compute; reflexivity|]);
    (split; [vm_compute; reflexivity|]); split; vm_compute; reflexivity.
Qed.

(** How far the code is from those words: scaling the weights scales the
    answer, so the code answers the mean ticket times the total weight. *)
Lemma expected_over_profiles_normalized prices profiles probs total acc acc' :
  ~ (total == 0)%Q ->
  (acc == total * acc')%Q ->
  match expected_over_profiles prices profiles probs acc,
        expected_over_profiles prices profiles
          (map (fun '(name, p) => (name, (p / total)%Q)) probs) acc' with
  | Returned v, Returned v' => (v == total * v')%Q
  | Raised e, Raised e' => e = e'
  | _, _ => False
  end.
Proof.
  intros Htotal. revert acc acc'.
  induction probs as [|[name p] probs IH]; intros acc acc' Hacc; simpl; [done|].
  destruct (PyDict.getitem profiles name) as [e|profile]; simpl; [done|].
  destruct (ticket_of_items prices (p_items profile) 0%Q) as [e|ticket]; simpl; [done|].
  apply IH. rewrite Hacc. field. done.
Qed.

Lemma expected_ticket_is_mean_times_total prices params turn_idx :
  let probs := _find_order_mix_segment params turn_idx in
  let total := Qsum (map snd probs) in
  probs ≠ [] ->
  ~ (total == 0)%Q ->
  match _compute_expected_ticket prices params turn_idx,
        spec_expected_ticket prices params turn_idx with
  | Returned code, Returned spec => (code == total * spec)%Q
  | Raised e, Raised e' => e = e'
  | _, _ => False
  end.
Proof.
  intros probs total Hne Htotal.
  unfold _compute_expected_ticket, spec_expected_ticket, normalized_mix.
  fold probs. fold total.
  destruct (Qeq_bool total 0) eqn:E; [by apply Qeq_bool_iff in E|].
  destruct probs as [|x l] eqn:Hp; [done|]. rewrite <- Hp.
  apply expected_over_profiles_normalized; [done|]. ring.
Qed.

(** ** The settlement, inverted *)

Section Settlement.
Context {np : Numerics}.

Lemma simulate_returned sim sales sim' :
  _simulate_demand_and_sales sim = Returned (sales, sim') ->
  exists batch g,
    sample_orders_for_agent (prices (state sim)) (demand (config sim))
      (turn (state sim)) (rng sim) = Returned (batch, g)
    ∧ let s := (serve_queue (recipes (config sim)) (state sim) (orders batch)).1.1 in
      state sim'
      = with_order_queue (with_stock_on_hand (state sim) (stock s)) (next_queue s)
      ∧ sl_sold_products sales = sold_products s
      ∧ config sim' = config sim.
Proof.
  unfold _simulate_demand_and_sales.
  destruct (sample_orders_for_agent _ _ _ _) as [e|[batch g]] eqn:Hs; simpl; [done|].
  destruct (serve_queue _ _ _) as [[s qs] dropped] eqn:Hq. simpl.
  intros [= <- <-]. exists batch, g. split; [done|]. simpl in *.
  by rewrite Hq.
Qed.

Lemma settle_returned sim0 sim record sim' :
  settle sim0 sim = Returned (record, sim') ->
  exists sales mid rev summary,
    _simulate_demand_and_sales sim = Returned (sales, mid)
    ∧ _compute_revenue (state mid) (sl_sold_products sales) = Returned rev
    ∧ state sim'
      = with_last_turn (with_cash (state mid) (cash (state mid) + rev)%Q) (Some summary)
    ∧ state_after record = snapshot (state sim')
    ∧ config sim' = config mid.
Proof.
  unfold settle.
  destruct (_simulate_demand_and_sales sim) as [e|[sales mid]] eqn:Hs; simpl; [done|].
  destruct (_compute_revenue _ _) as [e|rev] eqn:Hr; simpl; [done|].
  destruct (sales_by_product _ _) as [e|products] eqn:Hp; simpl; [done|].
  intros [= <- <-]. simpl. eauto 10.
Qed.
End Settlement.

(** ** Workers: at a task or on a trip, never both *)

Section Workers.
Context {np : Numerics}.

Lemma check_assignments_free n on_trip asg seen counts counts' :
  check_assignments n on_trip asg seen counts = inr counts' ->
  Forall (fun a => on_trip !! employee_id a = None) asg.
Proof.
  revert seen counts. induction asg as [|a asg IH]; intros seen counts; simpl.
  - constructor.
  - destruct (_ || _); [done|].
    case_bool_decide as Htrip; [done|]. case_bool_decide as Hdup; [done|].
    destruct (negb _); [done|]. intros Hrec. constructor; [|by eapply IH].
    destruct (on_trip !! employee_id a) eqn:E; [|done]. exfalso. apply Htrip. by eexists.
Qed.

Lemma assign_workers_state asg call_id arguments sim r sim' :
  assign_workers asg call_id arguments sim = (r, sim') ->
  state sim' = state sim
  ∨ (Forall (fun a => workers_on_trip (state sim) !! employee_id a = None) asg
     ∧ state sim' = _set_worker_assignments (state sim) asg).
Proof.
  unfold assign_workers.
  destruct (check_assignments _ _ _ _ _) as [msg|counts] eqn:Hc.
  - intros [= <- <-]. by left.
  - destruct (List.find _ _) as [[name limit]|]; intros [= <- <-]; [by left|].
    right. split; [|done]. by apply check_assignments_free in Hc.
Qed.

Lemma receive_deliveries_shape st :
  exists stock' remaining,
    _receive_deliveries st
    = with_inbound_deliveries (with_stock_on_hand st stock') remaining.
Proof.
  unfold _receive_deliveries. destruct (foldl _ _ _) as [stock' remaining]. eauto.
Qed.

Lemma engine_step_workers_disjoint sim sim' :
  engine_step sim sim' -> workers_disjoint (state sim) -> workers_disjoint (state sim').
Proof.
  assert (forall st, workers_disjoint st -> workers_disjoint (_update_worker_trips st))
    as Htrips.
  { intros st Hinv a Ha. simpl. rewrite lookup_omap. by rewrite (Hinv a Ha). }
  intros Hstep Hinv. destruct Hstep as
    [c sim r sim' Hcall|id summary sim|reply sim|t sim|t sim|sim|sim|sim0 sim record sim' Hs];
    try done.
  - destruct c as [id ar|id ar|new_prices id ar|q ws id ar|asg id ar|id ar];
      simpl in Hcall.
    + by injection Hcall as <- <-.
    + by injection Hcall as <- <-.
    + unfold set_prices in Hcall.
      destruct (List.find _ _) as [[k v]|]; by injection Hcall as <- <-.
    + apply place_order_returned in Hcall as [(_ & _ & ->)|(_ & cost & seen & Hacc)];
        [done|].
      destruct Hacc as (_ & _ & _ & _ & ->). intros a Ha.
      unfold accept_order in *. simpl in *. rewrite !elem_of_normalize in Ha.
      apply list_elem_of_filter in Ha as [Hnot Ha].
      rewrite lookup_send_on_trip. destruct (decide _) as [|_]; [done|]. by apply Hinv.
    + injection Hcall as Hcall.
      apply assign_workers_state in Hcall as [->|[Hfree ->]]; [done|].
      intros a Ha. simpl in *. rewrite !elem_of_normalize in Ha.
      by apply (proj1 (Forall_forall _ _) Hfree).
    + by injection Hcall as <- <-.
  - simpl.
    destruct (receive_deliveries_shape (_update_worker_trips (with_turn (state sim) t)))
      as (stock' & remaining & ->).
    intros a Ha. apply (Htrips (with_turn (state sim) t)); [|done].
    intros b Hb. by apply Hinv.
  - by apply Htrips.
  - simpl. by destruct (receive_deliveries_shape (state sim)) as (stock' & remaining & ->).
  - apply settle_returned in Hs as (sales & mid & rev & summary & Hsim & _ & -> & _).
    apply simulate_returned in Hsim as (batch & g & _ & Hmid & _).
    rewrite Hmid. done.
Qed.

(** C9.  In every reachable state of an episode no worker that has a task
    is on a trip. *)
Theorem worker_never_assigned_and_on_trip cfg sim :
  reachable cfg sim ->
  forall a, a ∈ worker_assignments (state sim) ->
            workers_on_trip (state sim) !! employee_id a = None.
Proof.
  intros [g Hreach]. change (workers_disjoint (state sim)).
  revert sim Hreach. apply (rtc_ind_r (fun s => workers_disjoint (state s))).
  - intros a _. apply lookup_empty.
  - intros mid sim _ Hstep IH. by eapply engine_step_workers_disjoint.
Qed.

Lemma after_call_reachable cfg c sim : reachable cfg sim -> reachable cfg (after_call c sim).
Proof.
  intros [g Hreach]. exists g. unfold after_call.
  destruct (exec_tool c sim) as [e|[r sim']] eqn:Hcall; [done|].
  eapply rtc_r; [done|]. by eapply step_tool.
Qed.

Lemma start_reachable cfg g : reachable cfg (reset (new_simulator cfg g)).
Proof. by exists g. Qed.
End Workers.

(** After worker 2, who had the grill, is sent shopping, the counter is the
    only task left and worker 2 is on the trip. *)
Lemma worker_never_assigned_and_on_trip_witness :
  let sim := after_call (np := zero_draws) (call_place_order [("pan", 3)] [2] "c1" None)
               (reset (new_simulator usual_config None)) in
  workers_on_trip (state sim) !! 2 = Some 1
  ∧ forall a, a ∈ worker_assignments (state sim) ->
              workers_on_trip (state sim) !! employee_id a = None.
Proof.
  intros sim. split; [vm_compute; reflexivity|].
  apply (worker_never_assigned_and_on_trip (np := zero_draws) usual_config sim).
  apply after_call_reachable, start_reachable.
Defined.

(** ** Stock, cash and prices *)

Lemma Forall_dict_set {V} (P : string * V -> Prop) d k v :
  Forall P d -> P (k, v) -> Forall P (PyDict.set d k v).
Proof.
  intros Hd Hkv. induction d as [|[k0 v0] d IH]; simpl.
  - by constructor.
  - apply Forall_cons in Hd as [H0 Hd].
    destruct (String.eqb k0 k) eqn:E.
    + apply String.eqb_eq in E. subst k0. by constructor.
    + constructor; [done|by apply IH].
Qed.

Lemma dict_get_Forall {V} (P : string * V -> Prop) d k v :
  Forall P d -> PyDict.get d k = Some v -> P (k, v).
Proof.
  intros Hd Hget. apply PyDictFacts.get_Some_elem in Hget.
  by apply (proj1 (Forall_forall _ _) Hd).
Qed.

Lemma add_sold_units_ok totals its :
  units_ok totals -> units_ok its -> units_ok (add_sold totals its).
Proof.
  unfold add_sold. revert totals.
  induction its as [|[product qty] its IH]; intros totals Ht Hi; simpl; [done|].
  apply Forall_cons in Hi as [Hq Hi]. apply IH; [|done].
  assert (0 <= default 0 (PyDict.get totals product)) as Hold.
  { destruct (PyDict.get totals product) as [u|] eqn:E; simpl; [|lia].
    by apply (dict_get_Forall (fun '(_, qty) => 0 <= qty) totals product u). }
  apply Forall_dict_set; [done|lia].
Qed.

(** *** Rounding to the nearest float *)

Section FloatFacts.
Context {np : Numerics}.

Lemma fl_zero `{!FloatLaws np} : (fl 0 == 0)%Q.
Proof.
  rewrite (fl_proper 0 (inject_Z 0 / inject_Z (2 ^ 0))) by (by vm_compute).
  rewrite fl_dyadic by lia. by vm_compute.
Qed.

Lemma fl_nonneg `{!FloatLaws np} x : (0 <= x)%Q -> (0 <= fl x)%Q.
Proof. intros Hx. rewrite <- fl_zero. by apply fl_monotone. Qed.

Lemma fl_floor `{!FloatLaws np} : (fl tolerance_floor == tolerance_floor)%Q.
Proof.
  rewrite (fl_proper tolerance_floor (inject_Z (-275) / inject_Z (2 ^ 37)))
    by (by vm_compute).
  rewrite fl_dyadic by lia. by vm_compute.
Qed.

Lemma fl_above_floor `{!FloatLaws np} x : (tolerance_floor <= x)%Q -> (tolerance_floor <= fl x)%Q.
Proof. intros Hx. rewrite <- fl_floor. by apply fl_monotone. Qed.

Lemma float_nonneg `{!FloatLaws np} z : 0 <= z -> (0 <= float z)%Q.
Proof.
  intros Hz. apply fl_nonneg. change 0%Q with (inject_Z 0). by rewrite <- Zle_Qle.
Qed.

Lemma eps_nonneg `{!FloatLaws np} : (0 <= eps)%Q.
Proof. apply fl_nonneg. by vm_compute. Qed.

(** [1e-9] is at most [275 / 2^38], a float a hair above one billionth. *)
Lemma eps_small `{!FloatLaws np} : (eps <= 275 # 274877906944)%Q.
Proof.
  unfold eps.
  assert (fl (275 # 274877906944) == 275 # 274877906944)%Q as <-.
  { rewrite (fl_proper (275 # 274877906944) (inject_Z 275 / inject_Z (2 ^ 38)))
      by (by vm_compute).
    rewrite fl_dyadic by lia. by vm_compute. }
  apply fl_monotone. by vm_compute.
Qed.

(** What passes a check with the tolerance takes a float balance [a] no
    lower than the floor: the sum [a + 1e-9] rounds to a float no farther
    from it than [a] is, so no more than [a] plus twice the tolerance was
    asked for. *)
Lemma within_tolerance `{!FloatLaws np} a n :
  (fl a == a)%Q -> (n <= fadd a eps)%Q ->
  (tolerance_floor <= fsub a n)%Q ∧ (fl (fsub a n) == fsub a n)%Q.
Proof.
  intros Ha Hn. split; [|apply fl_fixed]. unfold fadd, fsub in *.
  pose proof (fl_nearest (a + eps) a Ha) as Hnear.
  pose proof eps_nonneg as H0. pose proof eps_small as H1.
  assert (a - (a + eps) == - eps)%Q as Hdiff by ring.
  rewrite Hdiff, Qabs_opp, (Qabs_pos eps) in Hnear by done.
  apply Qabs_Qle_condition in Hnear as [_ Hup].
  apply fl_above_floor. unfold tolerance_floor.
  assert ((275 # 137438953472) == 2 * (275 # 274877906944))%Q as -> by (by vm_compute).
  lra.
Qed.
End FloatFacts.

Section StockBounds.
Context {np : Numerics}.

Lemma needed_ingredients_NoDup recipes its :
  NoDup (map fst (needed_ingredients recipes its)).
Proof.
  unfold needed_ingredients.
  assert (forall (acc : list (string * Q)), NoDup (map fst acc) ->
    NoDup (map fst
      (foldl (fun needed '(product, qty) =>
           foldl (fun needed '(ing, per_unit) =>
                    if Qle_bool per_unit 0 then needed
                    else
                      let need := fmul per_unit (float qty) in
                      PyDict.set needed ing
                        (fadd (default 0%Q (PyDict.get needed ing)) need))
                 needed (default [] (recipes !! product)))
        acc its))) as H; [|apply H; constructor].
  induction its as [|[product qty] its IH]; intros acc Hacc; simpl; [done|].
  apply IH. generalize (default [] (recipes !! product)). intros recipe.
  revert acc Hacc. induction recipe as [|[ing per_unit] recipe IHr]; intros acc Hacc;
    simpl; [done|].
  apply IHr. destruct (Qle_bool per_unit 0); [done|].
  by apply PyDictFacts.NoDup_keys_set.
Qed.

Lemma can_fulfill_insert_fresh (stock : gmap string Q) ing v needed :
  ing ∉ map fst needed ->
  can_fulfill (<[ing := v]> stock) needed = can_fulfill stock needed.
Proof.
  unfold can_fulfill. induction needed as [|[k n] needed IH]; intros Hfresh; simpl; [done|].
  apply not_elem_of_cons in Hfresh as [Hne Hfresh]. simpl in Hne.
  rewrite lookup_insert_ne by done. by rewrite IH.
Qed.

Lemma stock_default_float `{!FloatLaws np} (stock : gmap string Q) ing :
  stock_of_floats stock -> (fl (default 0%Q (stock !! ing)) == default 0%Q (stock !! ing))%Q.
Proof.
  intros Hfl. destruct (stock !! ing) as [q|] eqn:E; simpl; [by apply (Hfl ing)|].
  apply fl_zero.
Qed.

Lemma stock_default_floor (stock : gmap string Q) ing :
  map_Forall (fun _ q => (tolerance_floor <= q)%Q) stock ->
  (tolerance_floor <= default 0%Q (stock !! ing))%Q.
Proof.
  intros Hinv. destruct (stock !! ing) as [q|] eqn:E; simpl; [by apply (Hinv ing)|].
  by vm_compute.
Qed.

(** Serving an order that passed the stock check leaves no ingredient below
    the floor, and leaves floats. *)
Lemma consume_stock_bound `{!FloatLaws np} (stock : gmap string Q) needed :
  NoDup (map fst needed) ->
  can_fulfill stock needed = true ->
  map_Forall (fun _ q => (tolerance_floor <= q)%Q) stock ->
  stock_of_floats stock ->
  map_Forall (fun _ q => (tolerance_floor <= q)%Q) (consume_stock stock needed)
  ∧ stock_of_floats (consume_stock stock needed).
Proof.
  unfold consume_stock. revert stock.
  induction needed as [|[ing n] needed IH]; intros stock Hnd Hcan Hinv Hfl; simpl; [done|].
  apply NoDup_cons in Hnd as [Hfresh Hnd].
  unfold can_fulfill in Hcan. simpl in Hcan.
  apply andb_true_iff in Hcan as [Hing Hcan].
  apply negb_true_iff, Qgt_bool_false in Hing.
  destruct (within_tolerance (default 0%Q (stock !! ing)) n) as [Hfloor Hfloat];
    [by apply stock_default_float|done|].
  apply IH; [done| | |].
  - rewrite can_fulfill_insert_fresh; done.
  - by apply map_Forall_insert_2.
  - by apply map_Forall_insert_2.
Qed.

Lemma scan_keeps_bounds `{!FloatLaws np} recipes l s :
  Forall (fun o => units_ok (items o)) l ->
  map_Forall (fun _ q => (tolerance_floor <= q)%Q) (stock s) ->
  stock_of_floats (stock s) ->
  units_ok (sold_products s) ->
  map_Forall (fun _ q => (tolerance_floor <= q)%Q) (stock (scan_orders recipes l s))
  ∧ stock_of_floats (stock (scan_orders recipes l s))
  ∧ units_ok (sold_products (scan_orders recipes l s)).
Proof.
  revert s. induction l as [|o l IH]; intros s Hl Hstock Hfl Hsold; simpl; [done|].
  apply Forall_cons in Hl as [Ho Hl].
  destruct (Qle_bool (remaining_customers s) 0); [done|].
  destruct (Qgt_bool (txistorra_needed recipes o) _); [by apply IH|].
  destruct (Qgt_bool (sidra_needed recipes o) _); [by apply IH|].
  destruct (can_fulfill _ _) eqn:Hcan; simpl; [|by apply IH].
  destruct (consume_stock_bound (stock s) (needed_ingredients recipes (items o)))
    as [Hfloor Hfloat]; [apply needed_ingredients_NoDup|done|done|done|].
  apply IH; [done|done|done|]. simpl. by apply add_sold_units_ok.
Qed.

Lemma add_delivery_bound `{!FloatLaws np} (stock : gmap string Q) quantities :
  units_ok quantities ->
  map_Forall (fun _ q => (tolerance_floor <= q)%Q) stock ->
  stock_of_floats stock ->
  map_Forall (fun _ q => (tolerance_floor <= q)%Q) (add_delivery stock quantities)
  ∧ stock_of_floats (add_delivery stock quantities).
Proof.
  unfold add_delivery. revert stock.
  induction quantities as [|[ing qty] l IH]; intros stock Hq Hinv Hfl; simpl; [done|].
  apply Forall_cons in Hq as [Hqty Hq]. apply IH; [done| |].
  - apply map_Forall_insert_2; [|done]. unfold fadd. apply fl_above_floor.
    pose proof (stock_default_floor stock ing Hinv). pose proof (float_nonneg qty Hqty).
    lra.
  - apply map_Forall_insert_2; [|done]. apply fl_fixed.
Qed.

Lemma receive_deliveries_keeps `{!FloatLaws np} st :
  balances_ok st -> pending_ok st ->
  balances_ok (_receive_deliveries st) ∧ pending_ok (_receive_deliveries st).
Proof.
  intros (Hcash & Hstock & Hprices) (Hdel & Hqueue & Hfl). unfold _receive_deliveries.
  assert (forall ds stock remaining,
    Forall (fun d => units_ok (d_quantities d)) ds ->
    Forall (fun d => units_ok (d_quantities d)) remaining ->
    map_Forall (fun _ q => (tolerance_floor <= q)%Q) stock ->
    stock_of_floats stock ->
    let r := foldl (fun '(stock, remaining) d =>
                      if d_arrival_turn d =? turn st
                      then (add_delivery stock (d_quantities d), remaining)
                      else (stock, remaining ++ [d]))
                   (stock, remaining) ds in
    map_Forall (fun _ q => (tolerance_floor <= q)%Q) r.1
    ∧ stock_of_floats r.1
    ∧ Forall (fun d => units_ok (d_quantities d)) r.2) as H.
  { induction ds as [|d ds IH]; intros stock remaining Hds Hrem Hst Hfloat; simpl; [done|].
    apply Forall_cons in Hds as [Hd Hds].
    destruct (d_arrival_turn d =? turn st).
    - destruct (add_delivery_bound stock (d_quantities d)) as [? ?]; [done|done|done|].
      by apply IH.
    - apply IH; [done| |done|done]. apply Forall_app. split; [done|]. by constructor. }
  specialize (H (inbound_deliveries st) (stock_on_hand st) [] Hdel ltac:(constructor)
                Hstock Hfl).
  destruct (foldl _ _ _) as [stock' remaining]. simpl in H. destruct H as (H1 & H2 & H3).
  by repeat split.
Qed.
End StockBounds.

Lemma update_prices_nonneg (old : gmap string Q) new_prices :
  List.find (fun '(_, v) => Qlt_bool v 0) new_prices = None ->
  map_Forall (fun _ p => (0 <= p)%Q) old ->
  map_Forall (fun _ p => (0 <= p)%Q) (update_prices old new_prices).
Proof.
  unfold update_prices. revert old.
  induction new_prices as [|[k v] l IH]; intros old Hfind Hold; simpl; [done|].
  simpl in Hfind. destruct (Qlt_bool v 0) eqn:Hv; [done|].
  apply Qlt_bool_false in Hv. apply IH; [done|]. by apply map_Forall_insert_2.
Qed.

Lemma revenue_loop_nonneg (prices : gmap string Q) sold acc rev :
  map_Forall (fun _ p => (0 <= p)%Q) prices ->
  units_ok sold ->
  (0 <= acc)%Q ->
  revenue_loop prices sold acc = Returned rev ->
  (0 <= rev)%Q.
Proof.
  intros Hprices. revert acc.
  induction sold as [|[product units] sold IH]; intros acc Hsold Hacc; simpl.
  - by intros [= <-].
  - apply Forall_cons in Hsold as [Hu Hsold]. unfold getitem.
    destruct (prices !! product) as [price|] eqn:E; simpl; [|done].
    apply IH; [done|].
    assert (0 <= price)%Q by (by apply (Hprices product)).
    assert (0 <= inject_Z units)%Q.
    { change 0%Q with (inject_Z 0). by rewrite <- Zle_Qle. }
    assert (0 <= price * inject_Z units)%Q by (by apply Qmult_le_0_compat).
    lra.
Qed.

Section Balances.
Context {np : Numerics}.

Lemma order_cost_units_ok costs quantities acc cost :
  order_cost costs quantities acc = Returned (inr cost) -> units_ok quantities.
Proof.
  revert acc. induction quantities as [|[ing qty] l IH]; intros acc; simpl.
  - constructor.
  - destruct (qty <? 0) eqn:Hq; [done|]. unfold getitem.
    destruct (costs !! ing); simpl; [|done].
    destruct (float_of_int qty); simpl; [done|]. intros Hrec.
    constructor; [by apply Z.ltb_ge in Hq|by eapply IH].
Qed.

(** The orders the sampler hands over are copies of configured profiles,
    tagged with the current turn. *)
Lemma sample_orders_loop_from_profiles n params turn_idx probs g orders0 demand0
    orders' demand' g' (P : Order -> Prop) :
  (forall name profile,
     PyDict.get (order_profiles params) name = Some profile ->
     P {| items := p_items profile; arrival_turn := Some turn_idx |}) ->
  Forall P orders0 ->
  sample_orders_loop n params turn_idx probs g orders0 demand0
  = Returned (orders', demand', g') ->
  Forall P orders'.
Proof.
  intros Hprofiles. revert g orders0 demand0.
  induction n as [|n IH]; intros g orders0 demand0 Hacc; simpl.
  - by intros [= <- _ _].
  - destruct probs as [|x probs]; [by intros [= <- _ _]|].
    destruct (_sample_profile _ _) as [e|[name g1]]; simpl; [done|].
    unfold PyDict.getitem.
    destruct (PyDict.get (order_profiles params) name) as [profile|] eqn:E; simpl; [|done].
    apply IH. apply Forall_app. split; [done|]. constructor; [|done]. by eapply Hprofiles.
Qed.

Lemma sampled_orders_from_profiles prices params turn_idx g batch g' (P : Order -> Prop) :
  (forall name profile,
     PyDict.get (order_profiles params) name = Some profile ->
     P {| items := p_items profile; arrival_turn := Some turn_idx |}) ->
  sample_orders_for_agent prices params turn_idx g = Returned (batch, g') ->
  Forall P (orders batch).
Proof.
  intros Hprofiles. unfold sample_orders_for_agent.
  destruct (sample_customers_for_agent _ _ _ _) as [e|[n g1]]; simpl; [done|].
  destruct (sample_orders_loop _ _ _ _ _ _ _) as [e|[[orders' demand'] g2]] eqn:Hloop;
    simpl; [done|].
  intros [= <- _]. simpl.
  eapply sample_orders_loop_from_profiles; [done| |done]. constructor.
Qed.

Lemma exec_tool_config c sim r sim' :
  exec_tool c sim = Returned (r, sim') -> config sim' = config sim.
Proof.
  destruct c as [id ar|id ar|new_prices id ar|q ws id ar|asg id ar|id ar]; simpl.
  - by intros [= <- <-].
  - by intros [= <- <-].
  - unfold set_prices. by destruct (List.find _ _) as [[k v]|]; intros [= <- <-].
  - unfold place_order. simpl.
    destruct (order_cost _ _ _) as [e|[ing|cost]]; simpl; [done|by intros [= <- <-]|].
    destruct ws; [by intros [= <- <-]|].
    destruct (check_workers _ _ _ _); [by intros [= <- <-]|].
    destruct (Qgt_bool _ _); [by intros [= <- <-]|].
    by destruct (Qgt_bool _ _); intros [= <- <-].
  - unfold assign_workers. destruct (check_assignments _ _ _ _ _); [by intros [= <- <-]|].
    by destruct (List.find _ _) as [[name limit]|]; intros [= <- <-].
  - by intros [= <- <-].
Qed.

Lemma exec_tool_keeps `{!FloatLaws np} c sim r sim' :
  exec_tool c sim = Returned (r, sim') ->
  balances_ok (state sim) -> pending_ok (state sim) ->
  balances_ok (state sim') ∧ pending_ok (state sim').
Proof.
  intros Hcall Hbal Hpend.
  destruct c as [id ar|id ar|new_prices id ar|q ws id ar|asg id ar|id ar];
    simpl in Hcall.
  - by injection Hcall as <- <-.
  - by injection Hcall as <- <-.
  - unfold set_prices in Hcall.
    destruct (List.find _ _) as [[k v]|] eqn:Hfind; injection Hcall as <- <-; [done|].
    simpl. destruct Hbal as (? & ? & ?). split; [|done].
    split_and!; [done|done|]. by apply update_prices_nonneg.
  - apply place_order_returned in Hcall as [(_ & _ & ->)|(_ & cost & seen & Hacc)]; [done|].
    destruct Hacc as (Hcost & _ & _ & Hcash & ->).
    destruct Hbal as (? & ? & ?), Hpend as (Hdel & ? & ?).
    unfold accept_order. split; split_and!; simpl; try done.
    + unfold fsub. apply fl_nonneg. lra.
    + apply Forall_app. split; [done|]. constructor; [|done].
      by eapply order_cost_units_ok.
  - injection Hcall as Hcall. by apply assign_workers_state in Hcall as [->|[_ ->]].
  - by injection Hcall as <- <-.
Qed.
End Balances.

Section Invariant.
Context {np : Numerics}.

Lemma serve_queue_scan recipes st new_orders :
  (serve_queue recipes st new_orders).1.1
  = scan_orders recipes (List.filter (stays (turn st)) (order_queue st) ++ new_orders)
      (scan_start (worker_capacities st) (stock_on_hand st)).
Proof. unfold serve_queue. by rewrite filter_queue_spec. Qed.

Lemma settle_keeps `{!FloatLaws np} sim0 sim record sim' :
  valid_config (config sim) ->
  settle sim0 sim = Returned (record, sim') ->
  balances_ok (state sim) -> pending_ok (state sim) ->
  balances_ok (state sim') ∧ pending_ok (state sim') ∧ config sim' = config sim.
Proof.
  intros (_ & _ & _ & Hprofiles) Hsettle (Hcash & Hstock & Hprices) (Hdel & Hqueue & Hfl).
  apply settle_returned in Hsettle as (sales & mid & rev & summary & Hsim & Hrev & -> & _ & ->).
  apply simulate_returned in Hsim as (batch & g & Hsample & Hmid & Hsold & Hcfg).
  rewrite serve_queue_scan in Hmid, Hsold.
  set (batch_orders := List.filter (stays (turn (state sim))) (order_queue (state sim))
                       ++ orders batch) in *.
  assert (Forall (fun o => units_ok (items o)) batch_orders) as Hbatch.
  { apply Forall_app. split.
    - apply Forall_forall. intros o [Ho _]%list_elem_of_In%filter_In.
      apply (proj1 (Forall_forall _ _) Hqueue). by apply list_elem_of_In.
    - eapply sampled_orders_from_profiles; [|done]. simpl.
      intros name profile Hget. apply PyDictFacts.get_Some_elem in Hget.
      by apply (proj1 (Forall_forall _ _) Hprofiles) in Hget. }
  destruct (scan_keeps_bounds (recipes (config sim)) batch_orders
              (scan_start (worker_capacities (state sim)) (stock_on_hand (state sim)))
              Hbatch Hstock Hfl ltac:(by repeat constructor)) as (Hstock' & Hfl' & Hsold').
  unfold _compute_revenue in Hrev. rewrite Hmid in Hrev |- *. simpl in Hrev |- *.
  rewrite Hsold in Hrev.
  apply revenue_loop_nonneg in Hrev; [|done|done|done].
  split_and!; [split_and!; simpl; [lra|done|done] | |done].
  split_and!; simpl; [done| |done].
  apply Forall_forall. intros o [Ho|Ho]%scan_next_queue_from.
  - by apply elem_of_nil in Ho.
  - by apply (proj1 (Forall_forall _ _) Hbatch).
Qed.

Lemma engine_step_keeps `{!FloatLaws np} sim sim' :
  valid_config (config sim) ->
  engine_step sim sim' ->
  balances_ok (state sim) -> pending_ok (state sim) ->
  balances_ok (state sim') ∧ pending_ok (state sim') ∧ config sim' = config sim.
Proof.
  intros Hvalid Hstep Hbal Hpend. destruct Hstep as
    [c sim r sim' Hcall|id summary sim|reply sim|t sim|t sim|sim|sim|sim0 sim record sim' Hs];
    try done.
  - destruct (exec_tool_keeps c sim r sim' Hcall Hbal Hpend). split_and!; [done|done|].
    by eapply exec_tool_config.
  - simpl.
    destruct (receive_deliveries_keeps (_update_worker_trips (with_turn (state sim) t)));
      done.
  - simpl. destruct (receive_deliveries_keeps (state sim)); done.
  - by eapply settle_keeps.
Qed.

Lemma reachable_keeps `{!FloatLaws np} cfg sim :
  valid_config cfg -> stock_of_floats (init_stock (initial cfg)) -> reachable cfg sim ->
  balances_ok (state sim) ∧ pending_ok (state sim) ∧ config sim = cfg.
Proof.
  intros Hvalid Hfloats [g Hreach]. revert sim Hreach.
  apply (rtc_ind_r (fun s => balances_ok (state s) ∧ pending_ok (state s) ∧ config s = cfg)).
  - destruct Hvalid as (Hcash & Hstock & Hprices & _).
    split; [|split; [split_and!; [constructor|constructor|done]|done]].
    split_and!; simpl; [done| |done].
    intros ing q Hq. apply Hstock in Hq. simpl in Hq.
    assert (tolerance_floor <= 0)%Q by (by vm_compute). lra.
  - intros mid sim _ Hstep (Hbal & Hpend & Hcfg).
    destruct (engine_step_keeps mid sim) as (? & ? & ?); try done; [by rewrite Hcfg|].
    split_and!; try done. congruence.
Qed.

(** A decision phase and a whole turn are sequences of moves. *)
Lemma run_play_steps {R} (p : Play R) sim r sim' :
  run_play p sim = Returned (r, sim') -> rtc engine_step sim sim'.
Proof.
  revert sim. induction p as [r0|c k IH|id summary k IH]; intros sim; simpl.
  - by intros [= _ <-].
  - destruct (exec_tool c sim) as [e|[result mid]] eqn:Hcall; simpl; [done|].
    intros Hrun. eapply rtc_l; [by eapply step_tool|by eapply IH].
  - intros Hrun. eapply rtc_l; [apply step_reasoning|by apply IH].
Qed.

Lemma play_one_turn_steps agent mem t sim record mem' sim' :
  play_one_turn agent mem t sim = Returned (record, mem', sim') ->
  rtc engine_step sim sim' ∧ state_after record = snapshot (state sim').
Proof.
  unfold play_one_turn, decision_phase.
  destruct (run_play _ _) as [e|[[reply mem1] mid]] eqn:Hrun; simpl; [done|].
  unfold close_turn. destruct (ends_with_end_turn _); simpl; [|done].
  destruct (settle _ _) as [e|[rec sim1]] eqn:Hsettle; simpl; [done|].
  intros [= <- _ <-]. split.
  - eapply rtc_l; [apply (step_begin_turn t)|].
    eapply rtc_trans; [by eapply run_play_steps|].
    eapply rtc_l; [apply (step_metrics reply)|]. eapply rtc_once. by eapply step_settle.
  - by apply settle_returned in Hsettle as (? & ? & ? & ? & _ & _ & _ & ? & _).
Qed.

Lemma episode_loop_records agent turns mem sim written (P : TraceRecord -> Prop) cfg :
  (forall s record, reachable cfg s -> state_after record = snapshot (state s) -> P record) ->
  reachable cfg sim ->
  Forall P written ->
  Forall P (episode_loop agent turns mem sim written).1.
Proof.
  intros HP. revert mem sim written.
  induction turns as [|t turns IH]; intros mem sim written Hreach Hwritten; simpl; [done|].
  destruct (play_one_turn agent mem t sim) as [e|[[record mem'] sim']] eqn:Hturn;
    simpl; [done|].
  apply play_one_turn_steps in Hturn as [Hsteps Hafter].
  assert (reachable cfg sim') as Hreach'.
  { destruct Hreach as [g Hreach]. exists g. by eapply rtc_trans. }
  apply IH; [done|]. apply Forall_app. split; [done|]. constructor; [|done].
  by eapply HP.
Qed.
End Invariant.

Ltac solve_map_Forall :=
  repeat (apply map_Forall_insert_2; [by vm_compute|]);
  first [apply map_Forall_empty | apply map_Forall_singleton; by vm_compute].

Lemma usual_config_valid : valid_config usual_config.
Proof.
  split_and!; [by vm_compute|solve_map_Forall|solve_map_Forall|].
  repeat constructor; by vm_compute.
Qed.

Lemma generous_config_valid : valid_config generous_config.
Proof.
  split_and!; [by vm_compute|solve_map_Forall|solve_map_Forall|].
  repeat constructor; by vm_compute.
Qed.

(** In [zero_draws] every rational is a float, so rounding does nothing
    and the laws hold. *)
Lemma zero_draws_laws : FloatLaws zero_draws.
Proof.
  split.
  - by intros x y Hxy.
  - by intros x y Hxy.
  - intros x r _. change (Qabs (x - x) <= Qabs (r - x))%Q.
    apply Qle_trans with 0%Q; [|apply Qabs_nonneg].
    apply Qabs_Qle_condition. split; lra.
  - by intros x.
  - by intros m k _ _.
Qed.

Lemma zero_draws_floats (stock : gmap string Q) : stock_of_floats (np := zero_draws) stock.
Proof. by intros ing q _. Qed.

Section BalancesClaim.
Context {np : Numerics}.

(** C2, amended.  In float arithmetic that rounds to the nearest float and
    stays within the floats (no NaN and no infinity is configured, set as a
    price or produced), on a configuration whose initial cash, stock and
    prices are not negative and whose order profiles ask for no negative
    quantity, after every completed turn of an episode the cash and every
    price are at least zero and every quantity in stock is at least
    [-275/2^37], about [-2.0009e-9]. *)
Theorem balances_after_every_step `{!FloatLaws np} agent sim record :
  valid_config (config sim) ->
  stock_of_floats (init_stock (initial (config sim))) ->
  record ∈ (run_episode agent sim).1 ->
  (0 <= sn_cash (state_after record))%Q
  ∧ map_Forall (fun _ q => (tolerance_floor <= q)%Q) (sn_stock (state_after record))
  ∧ map_Forall (fun _ p => (0 <= p)%Q) (sn_prices (state_after record)).
Proof.
  intros Hvalid Hfloats Hin. unfold run_episode in Hin.
  pose proof (episode_loop_records agent (turn_range (num_turns (config sim)))
    (fresh agent) (reset sim) []
    (fun record =>
       (0 <= sn_cash (state_after record))%Q
       ∧ map_Forall (fun _ q => (tolerance_floor <= q)%Q) (sn_stock (state_after record))
       ∧ map_Forall (fun _ p => (0 <= p)%Q) (sn_prices (state_after record)))
    (config sim)) as Hall.
  destruct (episode_loop _ _ _ _ _) as [written final]. simpl in *.
  apply (proj1 (Forall_forall _ _)) with (x := record) in Hall; [done| | |constructor|done].
  - intros s rec Hreach ->. by apply reachable_keeps in Hreach as [Hbal _].
  - exists (Some (rng sim)). apply rtc_refl.
Qed.
End BalancesClaim.

Lemma balances_after_every_step_witness :
  let written := (run_episode (np := zero_draws) idle_agent
                    (new_simulator usual_config None)).1 in
  length written = 2%nat
  ∧ Forall (fun record =>
              (0 <= sn_cash (state_after record))%Q
              ∧ map_Forall (fun _ q => (tolerance_floor <= q)%Q)
                  (sn_stock (state_after record))
              ∧ map_Forall (fun _ p => (0 <= p)%Q) (sn_prices (state_after record)))
           written.
Proof.
  intros written. split; [vm_compute; reflexivity|].
  apply Forall_forall. intros record Hin.
  apply (balances_after_every_step (np := zero_draws) (FloatLaws0 := zero_draws_laws)
           idle_agent (new_simulator usual_config None) record);
    [exact usual_config_valid | apply zero_draws_floats | exact Hin].
Defined.

(** C2 as stated fails on the stock: the stock check lets an order through
    that needs a hair more than there is, and serving it leaves less than
    nothing.  Here, in binary64 arithmetic, one strip is in stock and the
    order takes [1 + 2^-31]: the check compares it with [1.0 + 1e-9], and
    [2^-31] strips are owed after the turn. *)
Lemma stock_negative_after_step :
  valid_config generous_config
  ∧ exists record q,
      (run_episode (np := binary64_draws) idle_agent
         (new_simulator generous_config None)).1
      = [record]
      ∧ sn_stock (state_after record) !! "txistorra" = Some q
      ∧ (q < 0)%Q.
Proof.
  split; [exact generous_config_valid|].
  eexists _, _. split; [vm_compute; reflexivity|].
  split; [vm_compute; reflexivity|]. by vm_compute.
Qed.

(** Nor is [-1e-9] the floor.  With one strip in stock an order that takes
    the float written [1.000000001] passes the check, because [1.0 + 1e-9]
    rounds to that very float, and the stock is left at about
    [-1.00000008e-9]. *)
Lemma stock_below_one_billionth :
  let final :=
    scan_orders (np := binary64_draws)
      {[ "pintxo" := [("txistorra", (1000000001 # 1000000000)%Q)] ]}
      [pintxo_order 0]
      (scan_start {| customers_per_turn := 15; txistorra_strips_per_turn := 2;
                     sidra_bottles_per_turn := 0 |} {[ "txistorra" := 1%Q ]}) in
  orders_served final = [items_only (pintxo_order 0)]
  ∧ exists q, stock final !! "txistorra" = Some q
              ∧ (q < - (1 # 1000000000))%Q
              ∧ (tolerance_floor <= q)%Q.
Proof.
  split; [vm_compute; reflexivity|].
  eexists. split; [vm_compute; reflexivity|]. split; by vm_compute.
Qed.

(** ** Sums of probabilities *)

Lemma foldl_Qplus_acc l a : (foldl Qplus a l == a + Qsum l)%Q.
Proof.
  unfold Qsum. revert a. induction l as [|x l IH]; intros a; simpl.
  - ring.
  - rewrite (IH (a + x)%Q), (IH (0 + x)%Q). ring.
Qed.

Lemma Qsum_cons x l : (Qsum (x :: l) == x + Qsum l)%Q.
Proof. unfold Qsum at 1. simpl. rewrite foldl_Qplus_acc. ring. Qed.

Lemma Qsum_scaled l c : ~ (c == 0)%Q -> (Qsum (map (fun p => p / c) l) == Qsum l / c)%Q.
Proof.
  intros Hc. induction l as [|x l IH]; simpl.
  - unfold Qsum. simpl. field. done.
  - rewrite !Qsum_cons, IH. field. done.
Qed.

Lemma Qsum_constant {A} (l : list A) v :
  (Qsum (map (fun _ => v) l) == inject_Z (Z.of_nat (length l)) * v)%Q.
Proof.
  induction l as [|x l IH].
  - unfold Qsum. simpl. ring.
  - cbn [map length]. rewrite Qsum_cons, IH, Nat2Z.inj_succ.
    unfold Z.succ. rewrite inject_Z_plus. ring.
Qed.

(** ** The demand sampler returns *)

Lemma ticket_of_items_returns prices its acc :
  products_priced prices its -> returns (ticket_of_items prices its acc).
Proof.
  revert acc. induction its as [|[product qty] its IH]; intros acc Hp; simpl.
  - by eexists.
  - apply Forall_cons in Hp as [[price Hprice] Hp]. unfold getitem. rewrite Hprice.
    simpl. by apply IH.
Qed.

Lemma expected_over_profiles_returns prices profiles probs acc :
  Forall (fun '(name, _) => is_Some (PyDict.get profiles name)) probs ->
  Forall (fun '(_, profile) => products_priced prices (p_items profile)) profiles ->
  returns (expected_over_profiles prices profiles probs acc).
Proof.
  intros Hnames Hpriced. revert acc.
  induction probs as [|[name p] probs IH]; intros acc; simpl; [by eexists|].
  apply Forall_cons in Hnames as [[profile Hget] Hnames].
  unfold PyDict.getitem. rewrite Hget. simpl.
  destruct (ticket_of_items_returns prices (p_items profile) 0%Q) as [ticket ->].
  { apply PyDictFacts.get_Some_elem in Hget.
    by apply (proj1 (Forall_forall _ _) Hpriced) in Hget. }
  simpl. by apply IH.
Qed.

Lemma mean_of_prices_returns prices products acc :
  Forall (fun product => is_Some (prices !! product)) products ->
  returns (mean_of_prices prices products acc).
Proof.
  revert acc. induction products as [|p products IH]; intros acc Hp; simpl.
  - by eexists.
  - apply Forall_cons in Hp as [[price Hprice] Hp]. unfold getitem. rewrite Hprice.
    simpl. by apply IH.
Qed.

Lemma compute_expected_ticket_returns prices params turn_idx :
  Forall (fun '(name, p) =>
            (0 <= p)%Q ∧ is_Some (PyDict.get (order_profiles params) name))
         (_find_order_mix_segment params turn_idx) ->
  profiles_priced prices params ->
  returns (_compute_expected_ticket prices params turn_idx).
Proof.
  intros Hmix [Hprofiles Hthree]. unfold _compute_expected_ticket.
  destruct (_find_order_mix_segment params turn_idx) as [|x rest] eqn:E.
  - by apply mean_of_prices_returns.
  - rewrite <- E in *. apply expected_over_profiles_returns; [|done].
    eapply Forall_impl; [done|]. by intros [name p] [_ ?].
Qed.

Lemma list_getitem_returns {A} (l : list A) i :
  0 <= i < Z.of_nat (length l) -> returns (list_getitem l i).
Proof.
  intros Hi. unfold list_getitem.
  destruct (i <? 0) eqn:E; [apply Z.ltb_lt in E; lia|]. rewrite E.
  destruct (l !! Z.to_nat i) as [a|] eqn:Hl; [by eexists|].
  apply lookup_ge_None in Hl. lia.
Qed.

Section SamplerReturns.
Context {np : Numerics}.

Lemma sample_customers_returns prices params turn_idx g :
  demand_ready params turn_idx ->
  profiles_priced prices params ->
  returns (sample_customers_for_agent prices params turn_idx g).
Proof.
  intros (Hturn & Hmix & Href) Hprices. unfold sample_customers_for_agent.
  destruct (list_getitem_returns (customers_curve params) turn_idx Hturn) as [m ->].
  destruct (compute_expected_ticket_returns prices params turn_idx Hmix Hprices) as [ta ->].
  destruct (compute_expected_ticket_returns (price_ref params) params turn_idx Hmix Href)
    as [tc ->].
  simpl. destruct (if Qgt_bool _ _ then _ else _) as [noise g']. by eexists.
Qed.

Lemma sample_profile_returns probs g :
  probs ≠ [] ->
  Forall (fun '(_, p) => (0 <= p)%Q) probs ->
  exists name g', _sample_profile probs g = Returned (name, g') ∧ name ∈ map fst probs.
Proof.
  intros Hne Hpos. unfold _sample_profile.
  set (weights := map snd probs).
  assert (Forall (fun x => (0 <= x)%Q) weights) as Hw.
  { subst weights. apply Forall_fmap. eapply Forall_impl; [done|]. by intros [name p]. }
  assert (0 < length probs)%nat as Hlen by (destruct probs; [done|simpl; lia]).
  set (normalized := if Qle_bool (Qsum weights) 0 then _ else _).
  assert (length (map fst probs) = length normalized) as H1.
  { subst normalized. destruct (Qle_bool _ _); subst weights; by rewrite !length_map. }
  assert (0 < length (map fst probs))%nat as H2 by (by rewrite length_map).
  assert (Forall (fun x => (0 <= x)%Q) normalized) as H3.
  { subst normalized. destruct (Qle_bool (Qsum weights) 0) eqn:Hz.
    - apply Forall_fmap, Forall_forall. intros x _. simpl.
      apply Qle_shift_div_l; [|rewrite Qmult_0_l; lra]. subst weights.
      rewrite length_map. change 0%Q with (inject_Z 0). rewrite <- Zlt_Qlt. lia.
    - apply Qle_bool_false in Hz. apply Forall_fmap.
      eapply Forall_impl; [exact Hw|]. intros x Hx. simpl.
      apply Qle_shift_div_l; [done|by rewrite Qmult_0_l]. }
  assert (Qsum normalized == 1)%Q as H4.
  { subst normalized. destruct (Qle_bool (Qsum weights) 0) eqn:Hz.
    - rewrite Qsum_constant. subst weights. rewrite !length_map. field.
      change 0%Q with (inject_Z 0). rewrite inject_Z_injective. lia.
    - apply Qle_bool_false in Hz. rewrite Qsum_scaled; [field|]; lra. }
  destruct (rng_choice_returns g (length (map fst probs)) normalized H1 H2 H3 H4)
    as [[idx g'] Hc].
  rewrite Hc. simpl. pose proof (rng_choice_lt _ _ _ _ _ Hc) as Hidx.
  unfold list_getitem.
  destruct (Z.of_nat idx <? 0) eqn:E; [apply Z.ltb_lt in E; lia|]. rewrite E.
  rewrite Nat2Z.id. destruct (map fst probs !! idx) as [name|] eqn:Hl.
  - simpl. exists name, g'. split; [done|]. by eapply list_elem_of_lookup_2.
  - apply lookup_ge_None in Hl. lia.
Qed.

Lemma sample_orders_loop_returns n params turn_idx probs g orders0 demand0 :
  Forall (fun '(name, p) =>
            (0 <= p)%Q ∧ is_Some (PyDict.get (order_profiles params) name)) probs ->
  returns (sample_orders_loop n params turn_idx probs g orders0 demand0).
Proof.
  intros Hmix. revert g orders0 demand0.
  induction n as [|n IH]; intros g orders0 demand0; simpl; [by eexists|].
  destruct probs as [|x rest] eqn:E; [by eexists|]. rewrite <- E in *.
  destruct (sample_profile_returns probs g) as (name & g' & -> & Hin).
  { by rewrite E. }
  { eapply Forall_impl; [done|]. by intros [? ?] [? _]. }
  simpl. apply list_elem_of_fmap in Hin as ([name' p] & -> & Hin).
  apply (proj1 (Forall_forall _ _) Hmix) in Hin as [_ [profile Hget]].
  unfold PyDict.getitem. simpl. rewrite Hget. simpl. apply IH.
Qed.

Lemma sample_orders_returns prices params turn_idx g :
  demand_ready params turn_idx ->
  profiles_priced prices params ->
  returns (sample_orders_for_agent prices params turn_idx g).
Proof.
  intros Hready Hprices. unfold sample_orders_for_agent.
  destruct (sample_customers_returns prices params turn_idx g Hready Hprices)
    as [[n g1] ->].
  simpl. destruct Hready as (_ & Hmix & _).
  destruct (sample_orders_loop_returns (Z.to_nat n) params turn_idx _ g1 []
              [("pintxo", 0); ("bocadillo", 0); ("sidra", 0)] Hmix)
    as [[[orders' demand'] g2] ->].
  simpl. by eexists.
Qed.
End SamplerReturns.

(** ** The settlement returns *)

Lemma add_sold_priced prices totals its :
  products_priced prices totals -> products_priced prices its ->
  products_priced prices (add_sold totals its).
Proof.
  unfold add_sold. revert totals.
  induction its as [|[product qty] its IH]; intros totals Ht Hi; simpl; [done|].
  apply Forall_cons in Hi as [Hp Hi]. apply IH; [|done].
  by apply Forall_dict_set.
Qed.

Lemma scan_sold_priced {np : Numerics} prices recipes l s :
  Forall (fun o => products_priced prices (items o)) l ->
  products_priced prices (sold_products s) ->
  products_priced prices (sold_products (scan_orders recipes l s)).
Proof.
  revert s. induction l as [|o l IH]; intros s Hl Hsold; simpl; [done|].
  apply Forall_cons in Hl as [Ho Hl].
  destruct (Qle_bool (remaining_customers s) 0); [done|].
  repeat (match goal with |- context [if ?b then _ else _] => destruct b end);
    apply IH; try done.
  simpl. by apply add_sold_priced.
Qed.

Lemma revenue_loop_returns prices sold acc :
  products_priced prices sold -> returns (revenue_loop prices sold acc).
Proof.
  revert acc. induction sold as [|[product units] sold IH]; intros acc Hp; simpl.
  - by eexists.
  - apply Forall_cons in Hp as [[price Hprice] Hp]. unfold getitem. rewrite Hprice.
    simpl. by apply IH.
Qed.

Lemma sales_by_product_returns prices sold :
  products_priced prices sold -> returns (sales_by_product prices sold).
Proof.
  induction sold as [|[product units] sold IH]; intros Hp; simpl.
  - by eexists.
  - apply Forall_cons in Hp as [[price Hprice] Hp]. unfold getitem. rewrite Hprice.
    simpl. destruct (IH Hp) as [rest ->]. simpl. by eexists.
Qed.

Section SettleReturns.
Context {np : Numerics}.

Lemma settle_returns sim0 sim : settlement_ready sim -> returns (settle sim0 sim).
Proof.
  intros (Hready & [Hprofiles Hthree] & Hqueue). unfold settle, _simulate_demand_and_sales.
  destruct (sample_orders_returns (prices (state sim)) (demand (config sim))
              (turn (state sim)) (rng sim) Hready) as [[batch g] Hsample]; [done|].
  rewrite Hsample. simpl.
  assert (Forall (fun o => products_priced (prices (state sim)) (items o)) (orders batch))
    as Hnew.
  { eapply sampled_orders_from_profiles; [|done]. simpl.
    intros name profile Hget. apply PyDictFacts.get_Some_elem in Hget.
    by apply (proj1 (Forall_forall _ _) Hprofiles) in Hget. }
  pose proof (serve_queue_scan (recipes (config sim)) (state sim) (orders batch)) as Hscan.
  destruct (serve_queue _ _ _) as [[s qs] dropped]. simpl in Hscan. simpl.
  assert (products_priced (prices (state sim)) (sold_products s)) as Hsold.
  { rewrite Hscan. apply scan_sold_priced.
    - apply Forall_app. split; [|done].
      apply Forall_forall. intros o [Ho _]%list_elem_of_In%filter_In.
      apply (proj1 (Forall_forall _ _) Hqueue). by apply list_elem_of_In.
    - simpl. by repeat (apply Forall_cons in Hthree as [? Hthree]; constructor; [done|]). }
  unfold _compute_revenue. simpl.
  destruct (revenue_loop_returns _ _ 0%Q Hsold) as [rev ->]. simpl.
  destruct (sales_by_product_returns _ _ Hsold) as [products ->]. simpl.
  by eexists.
Qed.
End SettleReturns.

(** ** The contract of the decision phase *)

Lemma ends_with_end_turn_spec acts :
  ends_with_end_turn acts = true <-> last acts = Some end_turn_action.
Proof.
  unfold ends_with_end_turn. destruct (last acts) as [[]|]; split; congruence.
Qed.

Section Contract.
Context {np : Numerics}.

(** A turn that raises ends the episode there, with the records written
    before it. *)
Lemma episode_stops_where_a_turn_raises agent t turns mem sim written e :
  play_one_turn agent mem t sim = Raised e ->
  episode_loop agent (t :: turns) mem sim written = (written, Raised e).
Proof. intros Hturn. simpl. by rewrite Hturn. Qed.
End Contract.

Lemma usual_start_ready :
  settlement_ready (np := zero_draws)
    (after_call (call_end_turn "" None) (begin_turn (new_simulator usual_config None) 0)).
Proof.
  unfold settlement_ready, demand_ready, profiles_priced.
  repeat split; try (by vm_compute); repeat constructor; vm_compute;
    first [discriminate | by eauto].
Qed.



(** The check reads the list the decision-maker returns.  The flag that the
    [end_turn] tool sets is not consulted: a list ending with [end_turn] is
    accepted though the tool was never called. *)
Lemma returned_list_decides :
  exists record sim',
    play_one_turn (np := zero_draws) silent_agent tt 0 (new_simulator usual_config None)
    = Returned (record, tt, sim')
    ∧ _end_turn_requested sim' = false
    ∧ agent_actions record = [].
Proof. eexists _, _. split; [vm_compute; reflexivity|]. split; reflexivity. Qed.

(** ** Two runs *)

Section Determinism.
Context {np : Numerics}.

(** What the decision-maker did fixes what became of the simulator. *)
Lemma run_play_determined {R1 R2} (p1 : Play R1) (p2 : Play R2) sim :
  invocations p1 sim = invocations p2 sim ->
  match run_play p1 sim, run_play p2 sim with
  | Returned (_, s1), Returned (_, s2) => s1 = s2
  | Raised e1, Raised e2 => e1 = e2
  | _, _ => False
  end.
Proof.
  revert p2 sim. induction p1 as [r1|c1 k1 IH|id1 summary1 k1 IH]; intros p2 sim;
    destruct p2 as [r2|c2 k2|id2 summary2 k2]; simpl; try done.
  - intros [= <- Htail]. destruct (exec_tool c1 sim) as [e|[result mid]]; simpl; [done|].
    by apply IH.
  - intros [= <- <- Htail]. by apply IH.
Qed.

Lemma decision_phase_determined {R1 R2} (p1 : Play (Reply * R1)) (p2 : Play (Reply * R2))
    sim :
  decision_of p1 sim = decision_of p2 sim ->
  match decision_phase p1 sim, decision_phase p2 sim with
  | Returned (reply1, _, s1), Returned (reply2, _, s2) => reply1 = reply2 ∧ s1 = s2
  | Raised e1, Raised e2 => e1 = e2
  | _, _ => False
  end.
Proof.
  unfold decision_of, decision_phase. intros [= Hmade Hreplied].
  pose proof (run_play_determined p1 p2 sim Hmade) as Hsame.
  destruct (run_play p1 sim) as [e1|[[reply1 m1] s1]],
           (run_play p2 sim) as [e2|[[reply2 m2] s2]]; simpl; try done.
  injection Hreplied as <-. by subst.
Qed.

Lemma play_one_turn_determined agent1 agent2 mem1 mem2 t sim :
  let sim0 := begin_turn sim t in
  decision_of (play_turn agent1 mem1 (_build_observation sim0)) sim0
  = decision_of (play_turn agent2 mem2 (_build_observation sim0)) sim0 ->
  match play_one_turn agent1 mem1 t sim, play_one_turn agent2 mem2 t sim with
  | Returned (record1, _, s1), Returned (record2, _, s2) => record1 = record2 ∧ s1 = s2
  | Raised e1, Raised e2 => e1 = e2
  | _, _ => False
  end.
Proof.
  intros sim0 Hsame. apply decision_phase_determined in Hsame.
  unfold play_one_turn. fold sim0.
  destruct (decision_phase (play_turn agent1 _ _) sim0) as [e1|[[reply1 m1] s1]],
           (decision_phase (play_turn agent2 _ _) sim0) as [e2|[[reply2 m2] s2]];
    simpl; try done.
  destruct Hsame as [<- <-].
  by destruct (close_turn sim0 reply1 s1) as [e|[record s]].
Qed.

Lemma episode_loop_determined agent1 agent2 turns mem1 mem2 sim written :
  episode_decisions agent1 turns mem1 sim = episode_decisions agent2 turns mem2 sim ->
  episode_loop agent1 turns mem1 sim written = episode_loop agent2 turns mem2 sim written.
Proof.
  revert mem1 mem2 sim written.
  induction turns as [|t turns IH]; intros mem1 mem2 sim written; simpl; [done|].
  intros [= Hmade Hreplied Htail].
  pose proof (play_one_turn_determined agent1 agent2 mem1 mem2 t sim) as Hsame.
  simpl in Hsame. unfold decision_of in Hsame. rewrite Hmade, Hreplied in Hsame.
  specialize (Hsame eq_refl).
  destruct (play_one_turn agent1 mem1 t sim) as [e1|[[record1 m1] s1]],
           (play_one_turn agent2 mem2 t sim) as [e2|[[record2 m2] s2]]; try done.
  - by subst.
  - destruct Hsame as [<- <-]. by apply IH.
Qed.

(** C10.  Two episodes on the same configuration, each on a simulator of its
    own seeded from the configuration, in which the decision-makers do the
    same things turn after turn, write the same trace records and end the
    same way. *)
Theorem same_decisions_same_trace cfg agent1 agent2 :
  decisions agent1 (new_simulator cfg None) = decisions agent2 (new_simulator cfg None) ->
  run_episode agent1 (new_simulator cfg None) = run_episode agent2 (new_simulator cfg None).
Proof.
  unfold decisions, run_episode. intros Hsame.
  by rewrite (episode_loop_determined agent1 agent2 _ _ _ _ [] Hsame).
Qed.
End Determinism.

Lemma same_decisions_same_trace_witness :
  run_episode (np := zero_draws) idle_agent (new_simulator usual_config None)
  = run_episode (np := zero_draws) counting_agent (new_simulator usual_config None).
Proof.
  apply (same_decisions_same_trace (np := zero_draws) usual_config idle_agent counting_agent).
  vm_compute. reflexivity.
Defined.

(** * Further properties of the core *)

(** ** When [place_order] says yes *)

Lemma order_cost_inr_iff {np : Numerics} costs quantities acc :
  (exists cost, order_cost costs quantities acc = Returned (inr cost))
  <-> units_ok quantities
      ∧ Forall (fun '(ing, _) => is_Some (costs !! ing)) quantities
      ∧ convertible quantities.
Proof.
  revert acc. induction quantities as [|[ing qty] l IH]; intros acc; simpl.
  - split; [intros _; split_and!; constructor|intros _; by eexists].
  - destruct (qty <? 0) eqn:Hq.
    + apply Z.ltb_lt in Hq. split; [by intros [cost [=]]|].
      intros [Hu _]. apply Forall_cons in Hu as [Hu _]. lia.
    + apply Z.ltb_ge in Hq. unfold getitem.
      destruct (costs !! ing) as [c|] eqn:Hc; simpl.
      * unfold float_of_int. destruct (Z.abs qty <? FLOAT_INT_LIMIT) eqn:Hfit; simpl.
        -- apply Z.ltb_lt in Hfit. rewrite IH. split.
           ++ intros (Hu & Hp & Hf). split_and!; constructor; eauto.
           ++ intros (Hu & Hp & Hf). apply Forall_cons in Hu as [_ Hu].
              apply Forall_cons in Hp as [_ Hp]. by apply Forall_cons in Hf as [_ Hf].
        -- apply Z.ltb_ge in Hfit. split; [by intros [cost [=]]|].
           intros (_ & _ & Hf). apply Forall_cons in Hf as [Hf _]. lia.
      * split; [by intros [cost [=]]|].
        intros (_ & Hp & _). apply Forall_cons in Hp as [[c Hp] _]. congruence.
Qed.

Lemma check_workers_inr_iff n (on_trip : gmap Z Z) ws (seen0 : gset Z) :
  (exists seen, check_workers n on_trip ws seen0 = inr seen)
  <-> NoDup ws
      ∧ Forall (fun w => w ∉ seen0) ws
      ∧ Forall (fun w => 1 <= w <= n ∧ on_trip !! w = None) ws.
Proof.
  revert seen0. induction ws as [|w ws IH]; intros seen0; simpl.
  - split; [intros _; split_and!; constructor|intros _; by eexists].
  - destruct ((w <? 1) || (n <? w)) eqn:Hrange.
    { split; [by intros [seen [=]]|]. intros (_ & _ & Hall).
      apply Forall_cons in Hall as [[Hw _] _].
      apply orb_true_iff in Hrange as [?%Z.ltb_lt|?%Z.ltb_lt]; lia. }
    apply orb_false_iff in Hrange as [?%Z.ltb_ge ?%Z.ltb_ge].
    case_bool_decide as Hdup.
    { split; [by intros [seen [=]]|]. intros (_ & Hfresh & _).
      by apply Forall_cons in Hfresh as [? _]. }
    case_bool_decide as Htrip.
    { split; [by intros [seen [=]]|]. intros (_ & _ & Hall).
      apply Forall_cons in Hall as [[_ Hw] _]. destruct Htrip as [x Hx]. congruence. }
    rewrite IH. split.
    + intros (Hnd & Hfresh & Hall). split_and!.
      * constructor; [|done]. intros Hin.
        apply (proj1 (Forall_forall _ _) Hfresh) in Hin. set_solver.
      * constructor; [done|]. eapply Forall_impl; [exact Hfresh|]. set_solver.
      * constructor; [|done]. split; [lia|].
        destruct (on_trip !! w) eqn:E; [|done]. exfalso. apply Htrip. by eexists.
    + intros (Hnd & Hfresh & Hall). apply NoDup_cons in Hnd as [Hw Hnd].
      apply Forall_cons in Hfresh as [_ Hfresh]. apply Forall_cons in Hall as [_ Hall].
      split_and!; [done| |done].
      apply Forall_forall. intros x Hx [Hx'%elem_of_singleton|Hx']%elem_of_union.
      * by subst.
      * by apply (proj1 (Forall_forall _ _) Hfresh) in Hx.
Qed.

Section Acceptance.
Context {np : Numerics}.

(** X1.  [place_order] accepts a purchase exactly when no quantity is
    negative, every ingredient has a configured cost, every quantity fits in
    a float, at least one worker is named, the workers are distinct, within
    [1..num_workers] and not on a trip, the load is not greater than the
    carry limit plus [1e-9], and the cost is not greater than the cash; load,
    limit, sum and cost being the floats the code computes. *)
Theorem place_order_accepts_iff quantities workers call_id arguments sim :
  (exists r sim',
     place_order quantities workers call_id arguments sim = Returned (r, sim')
     ∧ ok r = true)
  <-> units_ok quantities
      ∧ priced (config sim) quantities
      ∧ convertible quantities
      ∧ workers ≠ []
      ∧ NoDup workers
      ∧ Forall (fun w => 1 <= w <= num_workers (config sim)
                         ∧ workers_on_trip (state sim) !! w = None) workers
      ∧ (weight_sum (ingredient_weights (config sim)) quantities
         <= fadd (carry_limit (config sim) workers) eps)%Q
      ∧ (cost_of (costs (config sim)) quantities <= cash (state sim))%Q.
Proof.
  split.
  - intros (r & sim' & Hret & Hok). pose proof Hret as Hret0.
    apply place_order_returned in Hret as [(Hno & _)|(_ & cost & seen & Hacc)];
      [congruence|].
    destruct Hacc as (Hcost & Hseen & Hweight & Hcash & _).
    assert (exists c, order_cost (costs (config sim)) quantities 0%Q = Returned (inr c))
      as (Hu & Hp & Hfit)%order_cost_inr_iff by eauto.
    assert (exists s, check_workers (num_workers (config sim))
              (workers_on_trip (state sim)) workers ∅ = inr s)
      as (Hnd & _ & Hall)%check_workers_inr_iff by eauto.
    pose proof (order_cost_inr _ _ _ _ Hcost) as Hsum. split_and!; try done.
    + intros ->. unfold place_order in Hret0. simpl in Hret0.
      rewrite Hcost in Hret0. simpl in Hret0. injection Hret0 as <- _. discriminate.
    + unfold cost_of, float_total. by rewrite <- Hsum.
  - intros (Hu & Hp & Hfit & Hws & Hnd & Hall & Hweight & Hcash).
    destruct (proj2 (order_cost_inr_iff (costs (config sim)) quantities 0%Q)
                (conj Hu (conj Hp Hfit))) as [cost Hcost].
    destruct (proj2 (check_workers_inr_iff (num_workers (config sim))
                       (workers_on_trip (state sim)) workers ∅)) as [seen Hseen].
    { split_and!; [done| |done]. apply Forall_forall. set_solver. }
    pose proof (order_cost_inr _ _ _ _ Hcost) as Hsum.
    unfold place_order. simpl. rewrite Hcost. simpl.
    destruct workers as [|w ws]; [done|]. rewrite Hseen.
    rewrite total_weight_of_sum. fold (carry_limit (config sim) (w :: ws)).
    apply Qgt_bool_false in Hweight. rewrite Hweight.
    assert (Qgt_bool cost (cash (state sim)) = false) as ->.
    { apply Qgt_bool_false. unfold cost_of, float_total in Hcash. by rewrite Hsum. }
    by eexists _, _.
Qed.
End Acceptance.

Lemma place_order_accepts_iff_witness :
  exists r sim',
    place_order (np := zero_draws) [("pan", 3)] [2; 5] "c1" None
      (new_simulator usual_config None) = Returned (r, sim')
    ∧ ok r = true.
Proof.
  apply (proj2 (place_order_accepts_iff (np := zero_draws) [("pan", 3)] [2; 5] "c1" None
                  (new_simulator usual_config None))).
  split_and!.
  - constructor; [lia|constructor].
  - constructor; [vm_compute; eauto|constructor].
  - repeat constructor.
  - discriminate.
  - apply NoDup_cons. split; [|apply NoDup_singleton].
    intros Hin%list_elem_of_singleton. discriminate.
  - constructor; [split; [split; by vm_compute|reflexivity]|].
    constructor; [split; [split; by vm_compute|reflexivity]|constructor].
  - vm_compute. discriminate.
  - vm_compute. discriminate.
Defined.

(** ** Sorting and counting the assignments *)

Lemma insert_by_id_sorted a l :
  Sorted (fun x y => employee_id x <= employee_id y) l ->
  Sorted (fun x y => employee_id x <= employee_id y) (insert_by_id a l).
Proof.
  induction l as [|b l IH]; intros Hl; simpl.
  - repeat constructor.
  - destruct (employee_id a <=? employee_id b) eqn:E.
    + apply Z.leb_le in E. constructor; [done|]. by constructor.
    + apply Z.leb_gt in E. apply Sorted_inv in Hl as [Hl Hb].
      constructor; [by apply IH|].
      destruct l as [|c l]; simpl.
      * constructor. lia.
      * destruct (employee_id a <=? employee_id c); constructor; [lia|].
        by apply HdRel_inv in Hb.
Qed.

(** X2.  [_normalize_assignments] returns the same assignments, in
    non-decreasing order of [employee_id]. *)
Theorem normalize_assignments_sorts assignments :
  _normalize_assignments assignments ≡ₚ assignments
  ∧ Sorted (fun x y => employee_id x <= employee_id y) (_normalize_assignments assignments).
Proof.
  split; [apply normalize_perm|].
  induction assignments as [|a l IH]; simpl; [constructor|].
  by apply insert_by_id_sorted.
Qed.

Lemma count_of_set counts t name :
  count_of (PyDict.set counts t (default 0 (PyDict.get counts t) + 1)) name
  = count_of counts name + (if decide (t = name) then 1 else 0).
Proof.
  unfold count_of. destruct (decide (t = name)) as [->|Hne].
  - by rewrite PyDictFacts.get_set_eq.
  - rewrite PyDictFacts.get_set_ne by done. lia.
Qed.

Lemma workers_on_cons name a l :
  workers_on name (a :: l)
  = (if decide (task a = name) then 1 else 0) + workers_on name l.
Proof.
  unfold workers_on. rewrite filter_cons.
  destruct (decide (task a = name)); simpl; lia.
Qed.

Lemma count_tasks_fold counts0 assignments name :
  count_of
    (foldl (fun counts a =>
              PyDict.set counts (task a) (default 0 (PyDict.get counts (task a)) + 1))
           counts0 assignments) name
  = count_of counts0 name + workers_on name assignments.
Proof.
  revert counts0. induction assignments as [|a l IH]; intros counts0; simpl.
  - unfold workers_on. simpl. lia.
  - rewrite IH, count_of_set, workers_on_cons. lia.
Qed.

Lemma count_tasks_spec assignments name :
  count_of (_count_tasks assignments) name = workers_on name assignments.
Proof.
  unfold _count_tasks. rewrite count_tasks_fold.
  assert (count_of task_counts_zero name = 0) as ->; [|lia].
  unfold count_of. destruct (PyDict.get task_counts_zero name) as [v|] eqn:E; [|done].
  apply PyDictFacts.get_Some_elem in E. unfold task_counts_zero in E. simpl.
  repeat (apply elem_of_cons in E as [[= _ ->]|E]; [done|]). by apply elem_of_nil in E.
Qed.

(** X3.  The capacities are proportional to the head counts: fifteen
    customers per turn for each worker at the counter, one strip of
    txistorra for each worker at the grill, thirty bottles for each worker
    opening sidra.  Who the workers are, the order of the list and the other
    tasks play no part. *)
Theorem capacities_from_head_counts assignments :
  (customers_per_turn (_compute_worker_capacities assignments)
   == 15 * inject_Z (workers_on "atender_clientes" assignments))%Q
  ∧ (txistorra_strips_per_turn (_compute_worker_capacities assignments)
     == inject_Z (workers_on "freir_txistorra" assignments))%Q
  ∧ (sidra_bottles_per_turn (_compute_worker_capacities assignments)
     == 30 * inject_Z (workers_on "abrir_sidra" assignments))%Q.
Proof.
  unfold _compute_worker_capacities. simpl. rewrite !count_tasks_spec.
  unfold TURN_MINUTES. split_and!; field.
Qed.

(** ** When [assign_workers] says yes *)

Section Assigning.
Context {np : Numerics}.

Lemma check_assignments_inr_iff cfg st asg (seen : gset Z) counts :
  (exists counts',
     check_assignments (num_workers cfg) (workers_on_trip st) asg seen counts = inr counts')
  <-> NoDup (map employee_id asg)
      ∧ Forall (fun a => employee_id a ∉ seen) asg
      ∧ Forall (assignable cfg st) asg.
Proof.
  revert seen counts. induction asg as [|a asg IH]; intros seen counts; simpl.
  - split; [intros _; split_and!; constructor|intros _; by eexists].
  - destruct ((employee_id a <? 1) || (num_workers cfg <? employee_id a)) eqn:Hrange.
    { split; [by intros [c [=]]|]. intros (_ & _ & Hall).
      apply Forall_cons in Hall as [[Hw _] _].
      apply orb_true_iff in Hrange as [?%Z.ltb_lt|?%Z.ltb_lt]; lia. }
    apply orb_false_iff in Hrange as [?%Z.ltb_ge ?%Z.ltb_ge].
    case_bool_decide as Htrip.
    { split; [by intros [c [=]]|]. intros (_ & _ & Hall).
      apply Forall_cons in Hall as [(_ & Hw & _) _]. destruct Htrip as [x Hx]. congruence. }
    case_bool_decide as Hdup.
    { split; [by intros [c [=]]|]. intros (_ & Hfresh & _).
      by apply Forall_cons in Hfresh as [? _]. }
    case_bool_decide as Htask; simpl.
    + rewrite IH. split.
      * intros (Hnd & Hfresh & Hall). split_and!.
        -- constructor; [|done]. intros (b & Hb & Hin)%list_elem_of_fmap.
           apply (proj1 (Forall_forall _ _) Hfresh) in Hin. set_solver.
        -- constructor; [done|]. eapply Forall_impl; [exact Hfresh|]. set_solver.
        -- constructor; [|done]. split_and!; [lia|lia| |done].
           destruct (workers_on_trip st !! employee_id a) eqn:E; [|done].
           exfalso. apply Htrip. by eexists.
      * intros (Hnd & Hfresh & Hall). apply NoDup_cons in Hnd as [Hw Hnd].
        apply Forall_cons in Hfresh as [_ Hfresh]. apply Forall_cons in Hall as [_ Hall].
        split_and!; [done| |done].
        apply Forall_forall. intros b Hb [Hb'%elem_of_singleton|Hb']%elem_of_union.
        -- apply Hw. apply list_elem_of_fmap. by exists b.
        -- by apply (proj1 (Forall_forall _ _) Hfresh) in Hb.
    + split; [by intros [c [=]]|]. intros (_ & _ & Hall).
      by apply Forall_cons in Hall as [(_ & _ & ?) _].
Qed.

Lemma check_assignments_counts n on_trip asg (seen : gset Z) counts counts' name :
  check_assignments n on_trip asg seen counts = inr counts' ->
  count_of counts' name = count_of counts name + workers_on name asg.
Proof.
  revert seen counts. induction asg as [|a asg IH]; intros seen counts; simpl.
  - intros [= <-]. unfold workers_on. simpl. lia.
  - destruct (_ || _); [done|]. case_bool_decide; [done|]. case_bool_decide; [done|].
    destruct (negb _); [done|]. intros Hrec. apply IH in Hrec.
    rewrite Hrec. unfold count_of at 2. fold (count_of counts (task a)).
    rewrite count_of_set, workers_on_cons. lia.
Qed.

Lemma assign_workers_accepts_iff_aux asg call_id arguments sim :
  ok (assign_workers asg call_id arguments sim).1 = true
  <-> NoDup (map employee_id asg)
      ∧ Forall (assignable (config sim) (state sim)) asg
      ∧ Forall (fun name => workers_on name asg <= 3)
               ["atender_clientes"; "freir_txistorra"; "preparar_pintxos"; "abrir_sidra"].
Proof.
  unfold assign_workers.
  change (config (count_tool_call sim)) with (config sim).
  change (state (count_tool_call sim)) with (state sim).
  destruct (check_assignments _ _ _ _ _) as [msg|counts] eqn:Hcheck.
  - simpl. split; [done|]. intros (Hnd & Hall & _). exfalso.
    destruct (proj2 (check_assignments_inr_iff (config sim) (state sim) asg ∅
                       task_counts_zero)) as [c Hc]; [|congruence].
    split_and!; [done| |done]. apply Forall_forall. set_solver.
  - assert (exists c, check_assignments (num_workers (config sim))
              (workers_on_trip (state sim)) asg ∅ task_counts_zero = inr c)
      as (Hnd & _ & Hall)%check_assignments_inr_iff by eauto.
    assert (forall name, count_of counts name = workers_on name asg) as Hcount.
    { intros name. rewrite (check_assignments_counts _ _ _ _ _ _ name Hcheck).
      assert (count_of task_counts_zero name = 0) as ->; [|lia].
      exact (count_tasks_spec [] name). }
    destruct (List.find (fun '(task_name, limit) => limit <? count_of counts task_name)
                task_limits) as [[name limit]|] eqn:Hfind; simpl.
    + split; [done|]. intros (_ & _ & Hcaps). exfalso.
      apply find_some in Hfind as [Hin Hover]. apply Z.ltb_lt in Hover.
      rewrite Hcount in Hover. unfold task_limits in Hin. simpl in Hin.
      repeat apply Forall_cons in Hcaps as [? Hcaps].
      repeat (destruct Hin as [[= <- <-]|Hin]; [lia|]). done.
    + split; [|done]. intros _. split_and!; [done|done|].
      assert (forall name limit, In (name, limit) task_limits ->
                workers_on name asg <= limit) as Hle.
      { intros name limit Hin. pose proof (find_none _ _ Hfind _ Hin) as Hno.
        simpl in Hno. apply Z.ltb_ge in Hno. by rewrite Hcount in Hno. }
      unfold task_limits in Hle.
      repeat constructor; eapply Hle; simpl; eauto 10.
Qed.

(** X4.  [assign_workers] accepts a list exactly when its worker ids are
    distinct, every entry names a worker of the stall who is not on a trip
    and one of the five tasks, and none of the four capped tasks gets more
    than three workers.  Shopping has no cap. *)
Theorem assign_workers_accepts_iff asg call_id arguments sim :
  ok (assign_workers asg call_id arguments sim).1 = true
  <-> NoDup (map employee_id asg)
      ∧ Forall (assignable (config sim) (state sim)) asg
      ∧ Forall (fun name => workers_on name asg <= 3)
               ["atender_clientes"; "freir_txistorra"; "preparar_pintxos"; "abrir_sidra"].
Proof. apply assign_workers_accepts_iff_aux. Qed.
End Assigning.

Lemma workers_on_normalize name asg :
  workers_on name (_normalize_assignments asg) = workers_on name asg.
Proof. unfold workers_on. by rewrite normalize_perm. Qed.

Lemma capacities_of_counts asg :
  (customers_per_turn (_compute_worker_capacities asg)
   == 15 * inject_Z (workers_on "atender_clientes" asg))%Q
  ∧ (txistorra_strips_per_turn (_compute_worker_capacities asg)
     == inject_Z (workers_on "freir_txistorra" asg))%Q
  ∧ (sidra_bottles_per_turn (_compute_worker_capacities asg)
     == 30 * inject_Z (workers_on "abrir_sidra" asg))%Q.
Proof.
  unfold _compute_worker_capacities. simpl. rewrite !count_tasks_spec.
  unfold TURN_MINUTES. split_and!; field.
Qed.

Section AssigningEffects.
Context {np : Numerics}.

(** X5.  An accepted [assign_workers] replaces the whole assignment list by
    the one given, sorted by worker id, and leaves cash, stock, prices,
    deliveries, trips and the queue alone.  The capacities that result
    are at most 45 customers, 3 strips of txistorra and 90 bottles of sidra a
    turn. *)
Theorem assign_workers_effects asg call_id arguments sim :
  ok (assign_workers asg call_id arguments sim).1 = true ->
  let st := state sim in
  let st' := state (assign_workers asg call_id arguments sim).2 in
  worker_assignments st' = _normalize_assignments asg
  ∧ (cash st', stock_on_hand st', prices st', inbound_deliveries st',
     workers_on_trip st', order_queue st', turn st')
    = (cash st, stock_on_hand st, prices st, inbound_deliveries st,
       workers_on_trip st, order_queue st, turn st)
  ∧ (0 <= customers_per_turn (worker_capacities st') <= 45)%Q
  ∧ (0 <= txistorra_strips_per_turn (worker_capacities st') <= 3)%Q
  ∧ (0 <= sidra_bottles_per_turn (worker_capacities st') <= 90)%Q.
Proof.
  intros Hok st st'.
  pose proof (proj1 (assign_workers_accepts_iff_aux asg call_id arguments sim) Hok)
    as (_ & _ & Hcaps).
  subst st st'. revert Hok. unfold assign_workers.
  change (config (count_tool_call sim)) with (config sim).
  change (state (count_tool_call sim)) with (state sim).
  destruct (check_assignments _ _ _ _ _) as [msg|counts]; [done|].
  destruct (List.find _ task_limits) as [[name limit]|]; [done|]. intros _. simpl.
  split; [done|]. split; [done|].
  destruct (capacities_of_counts (_normalize_assignments asg)) as (Hc & Ht & Hs).
  rewrite !workers_on_normalize in Hc, Ht, Hs.
  repeat apply Forall_cons in Hcaps as [? Hcaps].
  assert (forall name, 0 <= workers_on name asg) as Hpos by (intros; unfold workers_on; lia).
  assert (forall z, 0 <= z <= 3 -> (0 <= inject_Z z <= 3)%Q) as Hq.
  { intros z [? ?]. split.
    - change 0%Q with (inject_Z 0). by rewrite <- Zle_Qle.
    - change 3%Q with (inject_Z 3). by rewrite <- Zle_Qle. }
  pose proof (Hq (workers_on "atender_clientes" asg) ltac:(split; [apply Hpos|done])).
  pose proof (Hq (workers_on "freir_txistorra" asg) ltac:(split; [apply Hpos|done])).
  pose proof (Hq (workers_on "abrir_sidra" asg) ltac:(split; [apply Hpos|done])).
  rewrite Hc, Ht, Hs. split_and!; lra.
Qed.
End AssigningEffects.

Lemma assign_workers_effects_witness :
  let asg := [{| employee_id := 4; task := "abrir_sidra" |};
              {| employee_id := 1; task := "atender_clientes" |}] in
  let sim := new_simulator (np := zero_draws) usual_config None in
  let st' := state (assign_workers asg "c1" None sim).2 in
  worker_assignments st'
  = [{| employee_id := 1; task := "atender_clientes" |};
     {| employee_id := 4; task := "abrir_sidra" |}]
  ∧ (0 <= sidra_bottles_per_turn (worker_capacities st') <= 90)%Q.
Proof.
  intros asg sim st'.
  destruct (assign_workers_effects (np := zero_draws) asg "c1" None sim)
    as (Hasg & _ & _ & _ & Hsidra); [reflexivity|].
  split; [exact Hasg | exact Hsidra].
Defined.

(** ** Trips *)

Lemma update_worker_trips_lookup st w :
  workers_on_trip (_update_worker_trips st) !! w
  = match workers_on_trip st !! w with
    | Some turns_left => if 0 <? turns_left - 1 then Some (turns_left - 1) else None
    | None => None
    end.
Proof. simpl. rewrite lookup_omap. by destruct (workers_on_trip st !! w). Qed.

(** X6.  A worker with [turns_left] turns of trip left is still away after
    [n] starts of turn when [n < turns_left], with [turns_left - n] turns
    left, and is back for good from the [turns_left]-th on; a worker who is
    not away stays so. *)
Theorem trip_countdown st w n :
  workers_on_trip (Nat.iter n _update_worker_trips st) !! w
  = match workers_on_trip st !! w with
    | Some turns_left =>
        if Z.of_nat n <? turns_left then Some (turns_left - Z.of_nat n)
        else if (n =? 0)%nat then Some turns_left else None
    | None => None
    end.
Proof.
  induction n as [|n IH].
  - change (Nat.iter 0 _update_worker_trips st) with st. change (Z.of_nat 0) with 0.
    destruct (workers_on_trip st !! w) as [t|]; [|done].
    destruct (0 <? t); [by rewrite Z.sub_0_r|done].
  - rewrite Nat.iter_succ, update_worker_trips_lookup, IH.
    destruct (workers_on_trip st !! w) as [t|]; [|done].
    change (S n =? 0)%nat with false.
    destruct (Z.of_nat n <? t) eqn:E1.
    + apply Z.ltb_lt in E1. destruct (0 <? t - Z.of_nat n - 1) eqn:E2.
      * apply Z.ltb_lt in E2. destruct (Z.of_nat (S n) <? t) eqn:E3.
        -- f_equal. lia.
        -- apply Z.ltb_ge in E3. lia.
      * apply Z.ltb_ge in E2. destruct (Z.of_nat (S n) <? t) eqn:E3; [|done].
        apply Z.ltb_lt in E3. lia.
    + apply Z.ltb_ge in E1. destruct (Z.of_nat (S n) <? t) eqn:E3.
      { apply Z.ltb_lt in E3. lia. }
      destruct (n =? 0)%nat eqn:E4; [|done].
      apply Nat.eqb_eq in E4. subst n.
      destruct (0 <? t - 1) eqn:E5; [|done]. apply Z.ltb_lt in E5. lia.
Qed.

(** ** Deliveries *)

Section Deliveries.
Context {np : Numerics}.

Lemma add_delivery_untouched (stock : gmap string Q) quantities ing :
  ing ∉ map fst quantities -> add_delivery stock quantities !! ing = stock !! ing.
Proof.
  unfold add_delivery. revert stock.
  induction quantities as [|[k qty] l IH]; intros stock Hfresh; simpl; [done|].
  apply not_elem_of_cons in Hfresh as [Hne Hfresh]. simpl in Hne.
  rewrite IH by done. by rewrite lookup_insert_ne.
Qed.

Lemma receive_deliveries_fold current_turn ds (stock : gmap string Q) remaining :
  foldl (fun '(stock, remaining) d =>
           if d_arrival_turn d =? current_turn
           then (add_delivery stock (d_quantities d), remaining)
           else (stock, remaining ++ [d]))
        (stock, remaining) ds
  = (foldl add_delivery stock
       (map d_quantities (List.filter (fun d => d_arrival_turn d =? current_turn) ds)),
     remaining ++ List.filter (fun d => negb (d_arrival_turn d =? current_turn)) ds).
Proof.
  revert stock remaining. induction ds as [|d ds IH]; intros stock remaining; simpl.
  - by rewrite app_nil_r.
  - destruct (d_arrival_turn d =? current_turn) eqn:E; simpl; rewrite IH; [done|].
    by rewrite <- app_assoc.
Qed.

(** X7.  [_receive_deliveries] splits the pending deliveries in two: those
    whose arrival turn is the current turn and the others.  The stock becomes
    the old stock with the entries of the first added to it, delivery by
    delivery and entry by entry in their order, each by one float addition;
    the pending list becomes the others, in their order; and every other
    field of the state is what it was.  An ingredient that no delivery due
    now names keeps its stock. *)
Theorem receive_deliveries_spec st :
  let due := List.filter (fun d => d_arrival_turn d =? turn st) (inbound_deliveries st) in
  let later :=
    List.filter (fun d => negb (d_arrival_turn d =? turn st)) (inbound_deliveries st) in
  _receive_deliveries st
  = with_inbound_deliveries
      (with_stock_on_hand st (foldl add_delivery (stock_on_hand st) (map d_quantities due)))
      later
  ∧ forall ing,
      Forall (fun d => ing ∉ map fst (d_quantities d)) due ->
      stock_on_hand (_receive_deliveries st) !! ing = stock_on_hand st !! ing.
Proof.
  intros due later. subst due later. unfold _receive_deliveries.
  rewrite receive_deliveries_fold. simpl. split; [done|].
  intros ing. generalize (stock_on_hand st).
  induction (List.filter _ (inbound_deliveries st)) as [|d ds IH]; intros stock Hall;
    simpl; [done|].
  apply Forall_cons in Hall as [Hd Hall]. rewrite IH by done.
  by apply add_delivery_untouched.
Qed.
End Deliveries.

(** ** What the decision phase cannot touch *)

Section DecisionFrame.
Context {np : Numerics}.

Lemma exec_tool_rng c sim r sim' :
  exec_tool c sim = Returned (r, sim') -> rng sim' = rng sim.
Proof.
  destruct c as [id ar|id ar|new_prices id ar|q ws id ar|asg id ar|id ar]; simpl.
  - by intros [= <- <-].
  - by intros [= <- <-].
  - unfold set_prices. by destruct (List.find _ _) as [[k v]|]; intros [= <- <-].
  - unfold place_order. simpl.
    destruct (order_cost _ _ _) as [e|[ing|cost]]; simpl; [done|by intros [= <- <-]|].
    destruct ws; [by intros [= <- <-]|].
    destruct (check_workers _ _ _ _); [by intros [= <- <-]|].
    destruct (Qgt_bool _ _); [by intros [= <- <-]|].
    by destruct (Qgt_bool _ _); intros [= <- <-].
  - unfold assign_workers. destruct (check_assignments _ _ _ _ _); [by intros [= <- <-]|].
    by destruct (List.find _ _) as [[name limit]|]; intros [= <- <-].
  - by intros [= <- <-].
Qed.

Lemma exec_tool_frame c sim r sim' :
  exec_tool c sim = Returned (r, sim') ->
  (turn (state sim'), stock_on_hand (state sim'), order_queue (state sim'),
   last_turn (state sim'))
  = (turn (state sim), stock_on_hand (state sim), order_queue (state sim),
     last_turn (state sim))
  ∧ exists scheduled,
      inbound_deliveries (state sim') = inbound_deliveries (state sim) ++ scheduled.
Proof.
  destruct c as [id ar|id ar|new_prices id ar|q ws id ar|asg id ar|id ar]; simpl.
  - intros [= <- <-]. split; [done|]. exists []. by rewrite app_nil_r.
  - intros [= <- <-]. split; [done|]. exists []. by rewrite app_nil_r.
  - unfold set_prices. destruct (List.find _ _) as [[k v]|]; intros [= <- <-];
      (split; [done|]; exists []; simpl; by rewrite app_nil_r).
  - intros Hret.
    apply place_order_returned in Hret as [(_ & _ & ->)|(_ & cost & seen & Hacc)].
    + split; [done|]. exists []. by rewrite app_nil_r.
    + destruct Hacc as (_ & _ & _ & _ & ->). unfold accept_order. simpl.
      split; [done|]. by eexists.
  - intros [= Hcall]. apply assign_workers_state in Hcall as [->|[_ ->]];
      (split; [done|]; exists []; simpl; by rewrite app_nil_r).
  - intros [= <- <-]. split; [done|]. exists []. by rewrite app_nil_r.
Qed.

Lemma decision_phase_frame_aux {R} (p : Play R) sim r sim' :
  run_play p sim = Returned (r, sim') ->
  exists scheduled,
    inbound_deliveries (state sim') = inbound_deliveries (state sim) ++ scheduled.
Proof.
  revert sim. induction p as [r0|c k IH|id summary k IH]; intros sim; simpl.
  - intros [= _ <-]. exists []. by rewrite app_nil_r.
  - destruct (exec_tool c sim) as [e|[result mid]] eqn:Hcall; simpl; [done|].
    intros Hrun. apply IH in Hrun as [later Hlater].
    destruct (exec_tool_frame _ _ _ _ Hcall) as [_ [first Hfirst]].
    exists (first ++ later). by rewrite Hlater, Hfirst, <- app_assoc.
  - intros Hrun. by apply IH in Hrun.
Qed.

(** X8.  Whatever the decision-maker does in its phase, if it returns: the
    turn index, the stock on hand, the queue, the summary of the last turn,
    the configuration and the generator are what they were, and the pending
    deliveries are the old ones followed by the ones it scheduled.  A
    purchase puts nothing in stock at once and no tool reaches the
    customers. *)
Theorem decision_phase_frame {R} (p : Play R) sim r sim' :
  run_play p sim = Returned (r, sim') ->
  (turn (state sim'), stock_on_hand (state sim'), order_queue (state sim'),
   last_turn (state sim'), config sim', rng sim')
  = (turn (state sim), stock_on_hand (state sim), order_queue (state sim),
     last_turn (state sim), config sim, rng sim)
  ∧ exists scheduled,
      inbound_deliveries (state sim') = inbound_deliveries (state sim) ++ scheduled.
Proof.
  revert sim. induction p as [r0|c k IH|id summary k IH]; intros sim; simpl.
  - intros [= _ <-]. split; [done|]. exists []. by rewrite app_nil_r.
  - destruct (exec_tool c sim) as [e|[result mid]] eqn:Hcall; simpl; [done|].
    intros Hrun. apply IH in Hrun as [Hsame [later Hlater]].
    destruct (exec_tool_frame _ _ _ _ Hcall) as [Hframe [first Hfirst]].
    pose proof (exec_tool_config _ _ _ _ Hcall) as Hcfg.
    pose proof (exec_tool_rng _ _ _ _ Hcall) as Hrng.
    split.
    + injection Hsame as -> -> -> -> -> ->. injection Hframe as -> -> -> ->.
      by rewrite Hcfg, Hrng.
    + exists (first ++ later). by rewrite Hlater, Hfirst, <- app_assoc.
  - intros Hrun. by apply IH in Hrun.
Qed.
End DecisionFrame.

(** ** A delivery waits for its turn *)

Lemma receive_deliveries_pending {np : Numerics} st :
  inbound_deliveries (_receive_deliveries st)
  = List.filter (fun d => negb (d_arrival_turn d =? turn st)) (inbound_deliveries st).
Proof. unfold _receive_deliveries. by rewrite receive_deliveries_fold. Qed.

Section Waiting.
Context {np : Numerics}.

Lemma settle_keeps_deliveries sim0 sim record sim' :
  settle sim0 sim = Returned (record, sim') ->
  inbound_deliveries (state sim') = inbound_deliveries (state sim).
Proof.
  intros Hs. apply settle_returned in Hs as (sales & mid & rev & summary & Hsim & _ & -> & _).
  apply simulate_returned in Hsim as (batch & g & _ & Hmid & _). by rewrite Hmid.
Qed.

Lemma play_one_turn_keeps_delivery agent mem t sim record mem' sim' d :
  play_one_turn agent mem t sim = Returned (record, mem', sim') ->
  d ∈ inbound_deliveries (state sim) ->
  d_arrival_turn d ≠ t ->
  d ∈ inbound_deliveries (state sim').
Proof.
  unfold play_one_turn, decision_phase. intros Hturn Hin Hne.
  destruct (run_play _ _) as [e|[[reply mem1] mid]] eqn:Hrun; simpl in Hturn; [done|].
  unfold close_turn in Hturn. destruct (ends_with_end_turn _); simpl in Hturn; [|done].
  destruct (settle _ _) as [e|[rec sim1]] eqn:Hsettle; simpl in Hturn; [done|].
  injection Hturn as <- <- <-.
  rewrite (settle_keeps_deliveries _ _ _ _ Hsettle). simpl.
  apply decision_phase_frame_aux in Hrun as [scheduled ->].
  apply elem_of_app. left. simpl. rewrite receive_deliveries_pending. simpl.
  apply list_elem_of_In, filter_In. split; [by apply list_elem_of_In|].
  apply negb_true_iff, Z.eqb_neq. done.
Qed.

(** X9.  A pending delivery is still pending after any run of turns none of
    which is its arrival turn.  Deliveries are received at the start of
    their arrival turn only: one scheduled for a turn that has begun or
    passed (a lead time of zero or less) is never received. *)
Theorem delivery_waits_for_its_turn agent turns mem sim written d sim' :
  d ∈ inbound_deliveries (state sim) ->
  Forall (fun t => t ≠ d_arrival_turn d) turns ->
  (episode_loop agent turns mem sim written).2 = Returned sim' ->
  d ∈ inbound_deliveries (state sim').
Proof.
  revert mem sim written. induction turns as [|t turns IH]; intros mem sim written Hin Hts;
    simpl.
  - by intros [= <-].
  - apply Forall_cons in Hts as [Ht Hts].
    destruct (play_one_turn agent mem t sim) as [e|[[record mem1] sim1]] eqn:Hturn;
      simpl; [done|].
    apply IH; [|done]. eapply play_one_turn_keeps_delivery; [done|done|congruence].
Qed.
End Waiting.

(** With a lead time of zero the loaves bought in turn 0 are due in turn 0,
    which has begun: after turn 1 they are still pending and no bread has
    been added to the five loaves on hand. *)
Lemma delivery_waits_for_its_turn_witness :
  let d := {| d_arrival_turn := 0; d_quantities := [("pan", 3)] |} in
  let sim := after_call (np := zero_draws) (call_place_order [("pan", 3)] [5] "" None)
               (reset (new_simulator no_lead_config None)) in
  let final := (episode_loop idle_agent [1] tt sim []).2 in
  exists sim',
    final = Returned sim'
    ∧ d ∈ inbound_deliveries (state sim')
    ∧ (default 0 (stock_on_hand (state sim') !! "pan") <= 5)%Q.
Proof.
  intros d sim final. subst final.
  destruct (episode_loop idle_agent [1] tt sim []).2 as [e|sim'] eqn:Hfinal;
    [vm_compute in Hfinal; discriminate|].
  exists sim'. split; [reflexivity|]. split.
  - apply (delivery_waits_for_its_turn (np := zero_draws) idle_agent [1] tt sim [] d sim').
    + vm_compute. apply elem_of_cons. by left.
    + repeat constructor; discriminate.
    + exact Hfinal.
  - vm_compute in Hfinal. injection Hfinal as <-. vm_compute. discriminate.
Defined.

(** ** What the scan does with a batch *)

Lemma scan_partition {np : Numerics} recipes l s :
  exists served queued,
    sublist served l
    ∧ sublist queued l
    ∧ l ≡ₚ served ++ queued
    ∧ next_queue (scan_orders recipes l s) = next_queue s ++ queued
    ∧ orders_served (scan_orders recipes l s) = orders_served s ++ map items_only served
    ∧ served_customers (scan_orders recipes l s)
      = served_customers s + Z.of_nat (length served)
    ∧ sold_products (scan_orders recipes l s)
      = foldl (fun acc o => add_sold acc (items o)) (sold_products s) served.
Proof.
  revert s. induction l as [|o l IH]; intros s.
  - exists [], []. simpl. rewrite !app_nil_r, Z.add_0_r. done.
  - simpl. destruct (Qle_bool (remaining_customers s) 0).
    { exists [], (o :: l). simpl. rewrite app_nil_r, Z.add_0_r.
      split_and!; try done. apply sublist_nil_l. }
    assert (forall s', sold_products s' = sold_products s ->
              orders_served s' = orders_served s ->
              served_customers s' = served_customers s ->
              next_queue s' = next_queue s ++ [o] ->
              exists served queued,
                sublist served (o :: l) ∧ sublist queued (o :: l)
                ∧ o :: l ≡ₚ served ++ queued
                ∧ next_queue (scan_orders recipes l s') = next_queue s ++ queued
                ∧ orders_served (scan_orders recipes l s')
                  = orders_served s ++ map items_only served
                ∧ served_customers (scan_orders recipes l s')
                  = served_customers s + Z.of_nat (length served)
                ∧ sold_products (scan_orders recipes l s')
                  = foldl (fun acc o => add_sold acc (items o)) (sold_products s) served)
      as Hblocked.
    { intros s' Hsold Hserved Hcount Hqueue.
      destruct (IH s') as (served & queued & H1 & H2 & H3 & H4 & H5 & H6 & H7).
      exists served, (o :: queued). rewrite H4, H5, H6, H7, Hsold, Hserved, Hcount, Hqueue.
      rewrite <- app_assoc. split_and!; try done.
      - by apply sublist_cons.
      - by apply sublist_skip.
      - rewrite H3. by rewrite Permutation_middle. }
    destruct (Qgt_bool (txistorra_needed recipes o) _); [by apply Hblocked|].
    destruct (Qgt_bool (sidra_needed recipes o) _); [by apply Hblocked|].
    destruct (negb (can_fulfill _ _)); [by apply Hblocked|].
    destruct (IH (serve recipes s o)) as (served & queued & H1 & H2 & H3 & H4 & H5 & H6 & H7).
    exists (o :: served), queued. rewrite H4, H5, H6, H7. simpl.
    rewrite <- app_assoc. split_and!; try done.
    + by apply sublist_skip.
    + by apply sublist_cons.
    + by rewrite H3.
    + lia.
Qed.

(** X10.  The scan splits the batch in two: the orders it serves and the
    orders it leaves for the next turn.  Every order of the batch is in
    exactly one of the two, both keep the order of arrival, and the count of
    served customers is the number of served orders. *)
Theorem scan_splits_the_batch {np : Numerics} recipes caps stock0 l :
  let final := scan_orders recipes l (scan_start caps stock0) in
  exists served,
    orders_served final = map items_only served
    ∧ sublist served l
    ∧ sublist (next_queue final) l
    ∧ l ≡ₚ served ++ next_queue final
    ∧ served_customers final = Z.of_nat (length served).
Proof.
  intros final. subst final.
  destruct (scan_partition recipes l (scan_start caps stock0))
    as (served & queued & H1 & H2 & H3 & H4 & H5 & H6 & _).
  exists served. rewrite H4, H5, H6. simpl. done.
Qed.

(** X11.  The units sold of each product are those of the served orders,
    added up in the order of service from zero pintxos, bocadillos and
    sidras; nothing is sold that was not served. *)
Theorem sold_units_are_served_items {np : Numerics} recipes caps stock0 l :
  let final := scan_orders recipes l (scan_start caps stock0) in
  exists served,
    orders_served final = map items_only served
    ∧ sublist served l
    ∧ sold_products final
      = foldl (fun acc o => add_sold acc (items o))
          [("pintxo", 0); ("bocadillo", 0); ("sidra", 0)] served.
Proof.
  intros final. subst final.
  destruct (scan_partition recipes l (scan_start caps stock0))
    as (served & queued & H1 & _ & _ & _ & H5 & _ & H7).
  exists served. by rewrite H5, H7.
Qed.

Lemma customer_slot_taken {np : Numerics} `{!FloatLaws np} rem m :
  (rem == inject_Z m)%Q -> 1 <= m <= 2 ^ 53 -> (fsub rem 1 == inject_Z (m - 1))%Q.
Proof.
  intros Hrem Hm. unfold fsub.
  rewrite (fl_proper (rem - 1) (inject_Z (m - 1) / inject_Z (2 ^ 0))).
  - rewrite fl_dyadic by lia. change (inject_Z (2 ^ 0)) with 1%Q. field.
  - rewrite Hrem. change (inject_Z (2 ^ 0)) with 1%Q. unfold Z.sub.
    rewrite inject_Z_plus. change (inject_Z (- (1))) with (- (1))%Q. field.
Qed.

Lemma scan_budgets {np : Numerics} `{!FloatLaws np} recipes l s c m :
  (remaining_customers s == inject_Z m)%Q ->
  0 <= m <= 2 ^ 53 ->
  served_customers s + m = c ->
  (tolerance_floor <= remaining_txistorra s)%Q ->
  (fl (remaining_txistorra s) == remaining_txistorra s)%Q ->
  (tolerance_floor <= remaining_sidra s)%Q ->
  (fl (remaining_sidra s) == remaining_sidra s)%Q ->
  let final := scan_orders recipes l s in
  served_customers s <= served_customers final <= c
  ∧ (remaining_customers final == inject_Z (c - served_customers final))%Q
  ∧ (tolerance_floor <= remaining_txistorra final)%Q
  ∧ (tolerance_floor <= remaining_sidra final)%Q.
Proof.
  revert s m. induction l as [|o l IH]; intros s m Hrem Hm Hc Htx Htxf Hsi Hsif; simpl.
  - split_and!; [lia|lia| |done|done]. rewrite Hrem. f_equiv. lia.
  - destruct (Qle_bool (remaining_customers s) 0) eqn:Hrc; simpl.
    { split_and!; [lia|lia| |done|done]. rewrite Hrem. f_equiv. lia. }
    apply Qle_bool_false in Hrc.
    destruct (Qgt_bool (txistorra_needed recipes o) _) eqn:Etx;
      [exact (IH (block_by_grill s o) m Hrem Hm Hc Htx Htxf Hsi Hsif)|].
    destruct (Qgt_bool (sidra_needed recipes o) _) eqn:Esi;
      [exact (IH (block_by_sidra s o) m Hrem Hm Hc Htx Htxf Hsi Hsif)|].
    destruct (negb (can_fulfill _ _));
      [exact (IH (block_by_stock s o) m Hrem Hm Hc Htx Htxf Hsi Hsif)|].
    apply Qgt_bool_false in Etx, Esi.
    assert (1 <= m) as Hpos.
    { rewrite Hrem in Hrc. change 0%Q with (inject_Z 0) in Hrc.
      rewrite <- Zlt_Qlt in Hrc. lia. }
    destruct (within_tolerance _ _ Htxf Etx) as [Htx' Htxf'].
    destruct (within_tolerance _ _ Hsif Esi) as [Hsi' Hsif'].
    destruct (IH (serve recipes s o) (m - 1)) as (H1 & H2 & H3 & H4); simpl;
      try done; try lia.
    + apply customer_slot_taken; [done|lia].
    + simpl in H1. split_and!; [lia|lia|done|done|done].
Qed.

(** X12.  In arithmetic that rounds to the nearest float: from a customer
    capacity that is a whole number [c] of up to 53 bits and grill and sidra
    capacities that are floats and not negative, the scan serves [c]
    customers at most, leaves the customer budget at [c] less the customers
    served, and leaves the grill and the sidra budgets overdrawn by
    [275/2^37], about [2.0009e-9], at most. *)
Theorem scan_within_budgets {np : Numerics} `{!FloatLaws np} recipes caps stock0 l c :
  0 <= c <= 2 ^ 53 ->
  (customers_per_turn caps == inject_Z c)%Q ->
  (0 <= txistorra_strips_per_turn caps)%Q ->
  (fl (txistorra_strips_per_turn caps) == txistorra_strips_per_turn caps)%Q ->
  (0 <= sidra_bottles_per_turn caps)%Q ->
  (fl (sidra_bottles_per_turn caps) == sidra_bottles_per_turn caps)%Q ->
  let final := scan_orders recipes l (scan_start caps stock0) in
  0 <= served_customers final <= c
  ∧ (remaining_customers final == inject_Z (c - served_customers final))%Q
  ∧ (tolerance_floor <= remaining_txistorra final)%Q
  ∧ (tolerance_floor <= remaining_sidra final)%Q.
Proof.
  intros Hc Hcap Htx Htxf Hsi Hsif final. subst final.
  assert (tolerance_floor <= 0)%Q as Hfloor by (by vm_compute).
  apply (scan_budgets recipes l (scan_start caps stock0) c c); simpl;
    try done; try lia; lra.
Qed.

(** X13.  With nobody assigned to the counter nothing is sold: whatever the
    batch, the stock and the other workers, every order goes back to the
    queue and onto the unserved list. *)
Theorem no_counter_no_sales {np : Numerics} recipes assignments stock0 l :
  workers_on "atender_clientes" assignments = 0 ->
  let final := scan_orders recipes l
                 (scan_start (_compute_worker_capacities assignments) stock0) in
  orders_served final = []
  ∧ served_customers final = 0
  ∧ next_queue final = l
  ∧ unserved_orders final = map items_only l
  ∧ stock final = stock0
  ∧ sold_products final = [("pintxo", 0); ("bocadillo", 0); ("sidra", 0)].
Proof.
  intros Hnone final. subst final.
  destruct (capacities_of_counts assignments) as (Hc & _ & _). rewrite Hnone in Hc.
  rewrite scan_stopped; [done|]. simpl. rewrite Hc. by vm_compute.
Qed.

Lemma scan_within_budgets_witness :
  let final := scan_orders (np := zero_draws) usual_recipes
                 [pintxo_order 0; pintxo_order 0; sidra_order 0]
                 (scan_start counter_and_grill {[ "txistorra" := 9%Q; "pan" := 9%Q ]}) in
  served_customers final = 1
  ∧ (tolerance_floor <= remaining_txistorra final)%Q
  ∧ (tolerance_floor <= remaining_sidra final)%Q.
Proof.
  intros final.
  destruct (scan_within_budgets (np := zero_draws) (FloatLaws0 := zero_draws_laws)
              usual_recipes counter_and_grill
              {[ "txistorra" := 9%Q; "pan" := 9%Q ]}
              [pintxo_order 0; pintxo_order 0; sidra_order 0] 15)
    as (_ & _ & Htx & Hsi);
    [lia|by vm_compute|by vm_compute|reflexivity|by vm_compute|reflexivity|].
  split; [vm_compute; reflexivity|]. split; [exact Htx | exact Hsi].
Defined.

Lemma no_counter_no_sales_witness :
  let final := scan_orders (np := zero_draws) usual_recipes [pintxo_order 0; sidra_order 0]
                 (scan_start
                    (_compute_worker_capacities
                       [{| employee_id := 2; task := "freir_txistorra" |};
                        {| employee_id := 3; task := "abrir_sidra" |}])
                    {[ "txistorra" := 9%Q; "pan" := 9%Q; "sidra" := 9%Q ]}) in
  orders_served final = [] ∧ next_queue final = [pintxo_order 0; sidra_order 0].
Proof.
  intros final.
  destruct (no_counter_no_sales (np := zero_draws) usual_recipes
              [{| employee_id := 2; task := "freir_txistorra" |};
               {| employee_id := 3; task := "abrir_sidra" |}]
              {[ "txistorra" := 9%Q; "pan" := 9%Q; "sidra" := 9%Q ]}
              [pintxo_order 0; sidra_order 0])
    as (Hserved & _ & Hqueue & _); [reflexivity|].
  split; [exact Hserved | exact Hqueue].
Defined.

(** ** The books of a turn *)

Lemma revenue_breakdown prices sold acc rev products :
  revenue_loop prices sold acc = Returned rev ->
  sales_by_product prices sold = Returned products ->
  (rev == acc + Qsum (map snd products))%Q ∧ map fst products = map fst sold.
Proof.
  revert acc products. induction sold as [|[k units] sold IH]; intros acc products; simpl.
  - intros [= <-] [= <-]. split; [|done]. unfold Qsum. simpl. ring.
  - unfold getitem. destruct (prices !! k) as [price|]; simpl; [|done].
    destruct (sales_by_product prices sold) as [e|rest] eqn:Hrest; simpl; [done|].
    intros Hrev [= <-]. destruct (IH _ _ Hrev eq_refl) as [Hsum Hkeys].
    split; [|simpl; by rewrite Hkeys]. simpl. rewrite Qsum_cons, Hsum. ring.
Qed.

Section Books.
Context {np : Numerics}.

Lemma settle_unfold sim0 sim record sim' :
  settle sim0 sim = Returned (record, sim') ->
  exists sales mid products,
    _simulate_demand_and_sales sim = Returned (sales, mid)
    ∧ revenue_loop (prices (state mid)) (sl_sold_products sales) 0%Q
      = Returned (revenue record)
    ∧ sales_by_product (prices (state mid)) (sl_sold_products sales) = Returned products
    ∧ by_product record = products
    ∧ tr_turn record = turn (state sim0)
    ∧ agent_actions record = agent_actions_trace mid
    ∧ tool_calls_count record = metrics_tool_calls sim - metrics_tool_calls sim0
    ∧ state_before record = snapshot (state sim0)
    ∧ state_after record = snapshot (state sim')
    ∧ cash (state sim') = (cash (state mid) + revenue record)%Q.
Proof.
  unfold settle.
  destruct (_simulate_demand_and_sales sim) as [e|[sales mid]] eqn:Hs; simpl; [done|].
  unfold _compute_revenue.
  destruct (revenue_loop _ _ _) as [e|rev] eqn:Hr; simpl; [done|].
  destruct (sales_by_product _ _) as [e|products] eqn:Hp; simpl; [done|].
  intros [= <- <-]. simpl. exists sales, mid, products. split_and!; done.
Qed.

End Books.

(** ** The audit trail of a turn *)

Section Audit.
Context {np : Numerics}.

Lemma exec_tool_logged c sim r sim' :
  exec_tool c sim = Returned (r, sim') ->
  metrics_tool_calls sim' = metrics_tool_calls sim + 1
  ∧ exists args,
      agent_actions_trace sim'
      = agent_actions_trace sim ++ [tool_call (call_id_of c) (tool_name c) args r].
Proof.
  destruct c as [id ar|id ar|new_prices id ar|q ws id ar|asg id ar|id ar]; simpl.
  - intros [= <- <-]. simpl. eauto.
  - intros [= <- <-]. simpl. eauto.
  - unfold set_prices. destruct (List.find _ _) as [[k v]|]; intros [= <- <-]; simpl; eauto.
  - unfold place_order. simpl.
    destruct (order_cost _ _ _) as [e|[ing|cost]]; simpl;
      [done|intros [= <- <-]; simpl; eauto|].
    destruct ws; [intros [= <- <-]; simpl; eauto|].
    destruct (check_workers _ _ _ _); [intros [= <- <-]; simpl; eauto|].
    destruct (Qgt_bool _ _); [intros [= <- <-]; simpl; eauto|].
    destruct (Qgt_bool _ _); intros [= <- <-]; simpl; eauto.
  - unfold assign_workers.
    destruct (check_assignments _ _ _ _ _); [intros [= <- <-]; simpl; eauto|].
    destruct (List.find _ _) as [[name limit]|]; intros [= <- <-]; simpl; eauto.
  - intros [= <- <-]. simpl. eauto.
Qed.

Lemma run_play_logged {R} (p : Play R) sim r sim' :
  run_play p sim = Returned (r, sim') ->
  exists added,
    agent_actions_trace sim' = agent_actions_trace sim ++ added
    ∧ metrics_tool_calls sim'
      = metrics_tool_calls sim + Z.of_nat (length (List.filter is_tool_call added)).
Proof.
  revert sim. induction p as [r0|c k IH|id summary k IH]; intros sim; simpl.
  - intros [= _ <-]. exists []. simpl. rewrite app_nil_r. split; [done|lia].
  - destruct (exec_tool c sim) as [e|[result mid]] eqn:Hcall; simpl; [done|].
    intros Hrun. apply IH in Hrun as (later & Htrace & Hcount).
    destruct (exec_tool_logged _ _ _ _ Hcall) as (Hone & args & Hentry).
    exists (tool_call (call_id_of c) (tool_name c) args result :: later).
    rewrite Htrace, Hentry, <- app_assoc. split; [done|]. simpl. lia.
  - intros Hrun. apply IH in Hrun as (later & Htrace & Hcount).
    exists (reasoning id summary :: later). simpl in *.
    rewrite Htrace, <- app_assoc. split; [done|]. lia.
Qed.

Lemma settle_counters sim0 sim record sim' :
  settle sim0 sim = Returned (record, sim') ->
  agent_actions record = agent_actions_trace sim
  ∧ tool_calls_count record = metrics_tool_calls sim - metrics_tool_calls sim0
  ∧ tr_turn record = turn (state sim0)
  ∧ metrics_tool_calls sim' = metrics_tool_calls sim.
Proof.
  unfold settle, _simulate_demand_and_sales.
  destruct (sample_orders_for_agent _ _ _ _) as [e|[batch g]]; simpl; [done|].
  destruct (serve_queue _ _ _) as [[s qs] dropped]. simpl.
  destruct (_compute_revenue _ _) as [e|rev]; simpl; [done|].
  destruct (sales_by_product _ _) as [e|products]; simpl; [done|].
  by intros [= <- <-].
Qed.

(** X15.  A tool call that returns leaves exactly one new entry at the end
    of the trace of the turn: a tool call under the name of the operation and
    the id of the caller, holding the very result that was returned, failed
    or not; and the counter of tool calls goes up by one. *)
Theorem every_tool_call_is_logged c sim r sim' :
  exec_tool c sim = Returned (r, sim') ->
  metrics_tool_calls sim' = metrics_tool_calls sim + 1
  ∧ exists args,
      agent_actions_trace sim'
      = agent_actions_trace sim ++ [tool_call (call_id_of c) (tool_name c) args r].
Proof. apply exec_tool_logged. Qed.

Lemma play_one_turn_counters agent mem t sim record mem' sim' :
  play_one_turn agent mem t sim = Returned (record, mem', sim') ->
  tool_calls_count record
  = Z.of_nat (length (List.filter is_tool_call (agent_actions record)))
  ∧ metrics_tool_calls sim' = metrics_tool_calls sim + tool_calls_count record
  ∧ tr_turn record = t.
Proof.
  unfold play_one_turn, decision_phase.
  destruct (run_play _ _) as [e|[[reply mem1] mid]] eqn:Hrun; simpl; [done|].
  unfold close_turn. destruct (ends_with_end_turn _); [|done].
  destruct (settle _ _) as [e|[record1 sim1]] eqn:Hs; simpl; [done|].
  intros [= <- _ <-].
  apply settle_counters in Hs as (Hacts & Hcount & Hturn & Hkept).
  apply run_play_logged in Hrun as (added & Htrace & Hcalls).
  simpl in *. rewrite Hacts, Hcount, Hkept, Htrace, Hcalls. split_and!; [lia|lia|].
  rewrite Hturn.
  destruct (receive_deliveries_shape (_update_worker_trips (with_turn (state sim) t)))
    as (stock' & remaining & ->).
  done.
Qed.

(** X16.  In the record of a turn none of whose tool calls raised an
    exception, [tool_calls_count] is the number of tool-call entries among
    [agent_actions]: the trace is emptied when the turn begins, reasoning
    notes are not counted, and nothing after the decision phase adds to
    either.  The counter of the simulator grows by that number over the
    turn.  (A call that raises is counted and not recorded; a turn in which
    that happens is not among those the hypothesis covers.) *)
Theorem tool_calls_count_matches_trace agent mem t sim record mem' sim' :
  play_one_turn agent mem t sim = Returned (record, mem', sim') ->
  tool_calls_count record
  = Z.of_nat (length (List.filter is_tool_call (agent_actions record)))
  ∧ metrics_tool_calls sim' = metrics_tool_calls sim + tool_calls_count record.
Proof.
  intros Hturn. apply play_one_turn_counters in Hturn as (? & ? & _). done.
Qed.
End Audit.

(** ** One record for each turn played *)

Lemma turn_range_take n k :
  (k <= Z.to_nat n)%nat -> take k (turn_range n) = map Z.of_nat (seq 0 k).
Proof.
  intros Hk. unfold turn_range. rewrite <- fmap_take. f_equal.
  rewrite take_seq. f_equal. lia.
Qed.

Section EpisodeRecords.
Context {np : Numerics}.

Lemma episode_loop_turns agent turns mem sim written :
  exists new,
    (episode_loop agent turns mem sim written).1 = written ++ new
    ∧ map tr_turn new = take (length new) turns
    ∧ match (episode_loop agent turns mem sim written).2 with
      | Returned sim' =>
          length new = length turns
          ∧ metrics_tool_calls sim'
            = metrics_tool_calls sim + foldr Z.add 0 (map tool_calls_count new)
      | Raised _ => (length new < length turns)%nat
      end.
Proof.
  revert mem sim written. induction turns as [|t turns IH]; intros mem sim written; simpl.
  - exists []. rewrite app_nil_r. simpl. split_and!; [done|done|done|lia].
  - destruct (play_one_turn agent mem t sim) as [e|[[record mem1] sim1]] eqn:Hturn.
    + exists []. rewrite app_nil_r. simpl. split_and!; [done|done|lia].
    + destruct (IH mem1 sim1 (written ++ [record])) as (new & Hout & Hturns & Hend).
      apply play_one_turn_counters in Hturn as (_ & Hcalls & Ht).
      exists (record :: new). rewrite Hout, <- app_assoc. simpl.
      split_and!; [done|by rewrite Hturns, Ht|].
      destruct (episode_loop agent turns mem1 sim1 (written ++ [record])).2 as [e|sim'].
      * lia.
      * destruct Hend as [Hlen Hsum]. split; [lia|]. rewrite Hsum, Hcalls. lia.
Qed.

(** X17.  An episode that ends normally has written one record for each
    turn [0, 1, ..., num_turns - 1], in that order, and the total of tool
    calls it reports is the sum of the counts of the records.  An episode
    ended by an exception has written the records of the turns before the
    one that raised, and no other. *)
Theorem episode_writes_one_record_per_turn agent sim :
  let written := (run_episode agent sim).1 in
  match (run_episode agent sim).2 with
  | Returned result =>
      map tr_turn written = turn_range (num_turns (config sim))
      ∧ tool_calls_total result = foldr Z.add 0 (map tool_calls_count written)
  | Raised _ =>
      (length written < Z.to_nat (num_turns (config sim)))%nat
      ∧ map tr_turn written = map Z.of_nat (seq 0 (length written))
  end.
Proof.
  unfold run_episode.
  destruct (episode_loop_turns agent (turn_range (num_turns (config sim)))
              (fresh agent) (reset sim) []) as (new & Hout & Hturns & Hend).
  destruct (episode_loop agent _ _ _ _) as [written final]. simpl in *. subst written.
  assert (length (turn_range (num_turns (config sim)))
          = Z.to_nat (num_turns (config sim))) as Hlen.
  { unfold turn_range. by rewrite length_map, length_seq. }
  destruct final as [e|sim']; simpl.
  - split; [lia|]. rewrite Hturns. apply turn_range_take. lia.
  - destruct Hend as [Hall Hsum]. split.
    + rewrite Hturns, Hall. apply firstn_all.
    + rewrite Hsum. simpl. lia.
Qed.
End EpisodeRecords.

(** ** Changing the prices *)

Lemma dict_get_app {V} (d1 d2 : list (string * V)) k :
  PyDict.get (d1 ++ d2) k
  = match PyDict.get d1 k with
    | Some v => Some v
    | None => PyDict.get d2 k
    end.
Proof.
  induction d1 as [|[k' v'] d1 IH]; simpl; [done|].
  by destruct (String.eqb k' k).
Qed.

Lemma update_prices_lookup (old : gmap string Q) new_prices k :
  update_prices old new_prices !! k
  = match PyDict.get (reverse new_prices) k with
    | Some v => Some v
    | None => old !! k
    end.
Proof.
  unfold update_prices. revert old.
  induction new_prices as [|[k' v'] rest IH]; intros old; simpl; [done|].
  rewrite IH, reverse_cons, dict_get_app.
  destruct (PyDict.get (reverse rest) k); [done|]. simpl.
  destruct (String.eqb k' k) eqn:E.
  - apply String.eqb_eq in E as ->. by rewrite lookup_insert_eq.
  - apply String.eqb_neq in E. by rewrite lookup_insert_ne.
Qed.

Lemma find_negative_price (new_prices : list (string * Q)) :
  match List.find (fun '(_, v) => Qlt_bool v 0) new_prices with
  | Some (k, v) =>
      (v < 0)%Q
      ∧ exists before after,
          new_prices = before ++ (k, v) :: after
          ∧ Forall (fun '(_, p) => (0 <= p)%Q) before
  | None => Forall (fun '(_, p) => (0 <= p)%Q) new_prices
  end.
Proof.
  induction new_prices as [|[k v] rest IH]; simpl; [constructor|].
  destruct (Qlt_bool v 0) eqn:E.
  - apply Qlt_bool_true in E. split; [done|]. by exists [], rest.
  - apply Qlt_bool_false in E. destruct (List.find _ rest) as [[k' v']|].
    + destruct IH as (Hneg & before & after & -> & Hbefore). split; [done|].
      exists ((k, v) :: before), after. split; [done|]. by constructor.
    + by constructor.
Qed.

Section Prices.
Context {np : Numerics}.

(** X18.  [set_prices] is all or nothing.  It accepts exactly when no price
    given is negative; then each product named has the price given for it
    (the last one, were it named twice), whatever the product is called, and
    the other prices and the rest of the state are as before.  Otherwise the
    reason names the first product with a negative price and no price has
    changed, not even those listed before it. *)
Theorem set_prices_all_or_nothing new_prices call_id arguments sim :
  let out := set_prices new_prices call_id arguments sim in
  (ok out.1 = true <-> Forall (fun '(_, p) => (0 <= p)%Q) new_prices)
  ∧ (ok out.1 = true ->
     (forall k, prices (state out.2) !! k
                = match PyDict.get (reverse new_prices) k with
                  | Some v => Some v
                  | None => prices (state sim) !! k
                  end)
     ∧ state out.2 = with_prices (state sim) (prices (state out.2)))
  ∧ (ok out.1 = false ->
     state out.2 = state sim
     ∧ exists before k v after,
         new_prices = before ++ (k, v) :: after
         ∧ Forall (fun '(_, p) => (0 <= p)%Q) before
         ∧ (v < 0)%Q
         ∧ reason out.1 = Some ("Precio negativo para " +:+ k)).
Proof.
  intros out. subst out. unfold set_prices.
  pose proof (find_negative_price new_prices) as Hfind.
  destruct (List.find _ new_prices) as [[k v]|]; simpl.
  - destruct Hfind as (Hneg & before & after & -> & Hbefore).
    split_and!; [|done|].
    + split; [done|]. intros Hall. apply Forall_app in Hall as [_ Hall].
      apply Forall_cons in Hall as [Hv _]. lra.
    + intros _. split; [done|]. by exists before, k, v, after.
  - split_and!; [done| |done].
    intros _. split; [|done]. intros k. apply update_prices_lookup.
Qed.
End Prices.

(** ** The batch of new orders *)

Lemma py_max_zero_nonneg x : (0 <= py_max 0 x)%Q.
Proof.
  unfold py_max. destruct (Qlt_bool 0 x) eqn:E; [|lra].
  apply Qlt_bool_true in E. lra.
Qed.

Lemma py_round_nonneg q : (0 <= q)%Q -> 0 <= py_round q.
Proof.
  intros Hq. unfold py_round.
  assert (0 <= Qfloor q) as Hf.
  { change 0 with (Qfloor 0). by apply Qfloor_resp_le. }
  repeat (match goal with |- context [if ?b then _ else _] => destruct b end); lia.
Qed.

Lemma list_getitem_elem {A} (l : list A) i a : list_getitem l i = Returned a -> a ∈ l.
Proof.
  unfold list_getitem. destruct (_ <? 0); [done|].
  destruct (l !! _) as [b|] eqn:E; [|done]. intros [= <-]. by eapply list_elem_of_lookup_2.
Qed.

Section Batch.
Context {np : Numerics}.

Lemma sample_profile_in probs g name g' :
  _sample_profile probs g = Returned (name, g') -> name ∈ map fst probs.
Proof.
  unfold _sample_profile.
  destruct (rng_choice _ _ _) as [e|[idx g1]]; simpl; [done|].
  destruct (list_getitem _ _) as [e|name1] eqn:E; simpl; [done|].
  intros [= <- _]. by eapply list_getitem_elem.
Qed.

Lemma sample_customers_nonneg prices params turn_idx g n g' :
  sample_customers_for_agent prices params turn_idx g = Returned (n, g') -> 0 <= n.
Proof.
  unfold sample_customers_for_agent.
  destruct (list_getitem _ _) as [e|m]; simpl; [done|].
  destruct (_compute_expected_ticket prices _ _) as [e|ta]; simpl; [done|].
  destruct (_compute_expected_ticket (price_ref params) _ _) as [e|tc]; simpl; [done|].
  destruct (if Qgt_bool _ _ then _ else _) as [noise g1].
  intros [= <- _]. apply py_round_nonneg, py_max_zero_nonneg.
Qed.

Lemma sample_orders_loop_shape n params turn_idx probs g orders0 demand0
    orders' demand' g' :
  probs ≠ [] ->
  sample_orders_loop n params turn_idx probs g orders0 demand0
  = Returned (orders', demand', g') ->
  exists new,
    orders' = orders0 ++ new
    ∧ length new = n
    ∧ demand' = foldl add_units demand0 (map items new)
    ∧ Forall (fun o =>
                arrival_turn o = Some turn_idx
                ∧ exists name profile,
                    name ∈ map fst probs
                    ∧ PyDict.get (order_profiles params) name = Some profile
                    ∧ items o = p_items profile) new.
Proof.
  intros Hne. revert g orders0 demand0.
  induction n as [|n IH]; intros g orders0 demand0; simpl.
  - intros [= <- <- _]. exists []. by rewrite app_nil_r.
  - destruct probs as [|x rest] eqn:E; [done|]. rewrite <- E in *.
    destruct (_sample_profile probs g) as [e|[name g1]] eqn:Hname; simpl; [done|].
    unfold PyDict.getitem.
    destruct (PyDict.get (order_profiles params) name) as [profile|] eqn:Hget;
      simpl; [|done].
    intros Hloop. apply IH in Hloop as (new & -> & Hlen & -> & Hall).
    exists ({| items := p_items profile; arrival_turn := Some turn_idx |} :: new).
    rewrite <- app_assoc. simpl. split_and!; [done|lia|done|].
    constructor; [|done]. simpl. split; [done|]. exists name, profile.
    split_and!; [|done|done]. by eapply sample_profile_in.
Qed.

Lemma sampled_batch_shape_aux prices params turn_idx g batch g' :
  sample_orders_for_agent prices params turn_idx g = Returned (batch, g') ->
  0 <= new_customers batch
  ∧ Z.of_nat (length (orders batch))
    = match _find_order_mix_segment params turn_idx with
      | [] => 0
      | _ => new_customers batch
      end
  ∧ demand_products batch
    = foldl add_units [("pintxo", 0); ("bocadillo", 0); ("sidra", 0)]
        (map items (orders batch))
  ∧ Forall (fun o =>
              arrival_turn o = Some turn_idx
              ∧ exists name profile,
                  name ∈ map fst (_find_order_mix_segment params turn_idx)
                  ∧ PyDict.get (order_profiles params) name = Some profile
                  ∧ items o = p_items profile) (orders batch).
Proof.
  unfold sample_orders_for_agent.
  destruct (sample_customers_for_agent _ _ _ _) as [e|[n g1]] eqn:Hn; simpl; [done|].
  apply sample_customers_nonneg in Hn.
  destruct (sample_orders_loop _ _ _ _ _ _ _) as [e|[[orders' demand'] g2]] eqn:Hloop;
    simpl; [done|].
  intros [= <- _]. simpl. split; [done|].
  destruct (_find_order_mix_segment params turn_idx) as [|x rest] eqn:Hmix.
  - destruct (Z.to_nat n); simpl in Hloop; injection Hloop as <- <- _; done.
  - rewrite <- Hmix in *.
    apply sample_orders_loop_shape in Hloop as (new & -> & Hlen & -> & Hall);
      [|by rewrite Hmix].
    simpl. split_and!; [lia|done|done].
Qed.

(** X19.  The batch the sampler hands over: the number of new customers is
    not negative; when the mix of the turn names at least one profile there
    is one order for each new customer, and none at all when it names none;
    each order arrives stamped with the current turn and carries the items
    of a configured profile that the mix names; and the demand by product is
    the units of those orders added up from zero pintxos, bocadillos and
    sidras. *)
Theorem sampled_batch_shape prices params turn_idx g batch g' :
  sample_orders_for_agent prices params turn_idx g = Returned (batch, g') ->
  0 <= new_customers batch
  ∧ Z.of_nat (length (orders batch))
    = match _find_order_mix_segment params turn_idx with
      | [] => 0
      | _ => new_customers batch
      end
  ∧ demand_products batch
    = foldl add_units [("pintxo", 0); ("bocadillo", 0); ("sidra", 0)]
        (map items (orders batch))
  ∧ Forall (fun o =>
              arrival_turn o = Some turn_idx
              ∧ exists name profile,
                  name ∈ map fst (_find_order_mix_segment params turn_idx)
                  ∧ PyDict.get (order_profiles params) name = Some profile
                  ∧ items o = p_items profile) (orders batch).
Proof. apply sampled_batch_shape_aux. Qed.

Lemma simulate_stats sim sales sim' :
  _simulate_demand_and_sales sim = Returned (sales, sim') ->
  exists batch g,
    sample_orders_for_agent (prices (state sim)) (demand (config sim))
      (turn (state sim)) (rng sim) = Returned (batch, g)
    ∧ let kept := List.filter (stays (turn (state sim))) (order_queue (state sim)) in
      let s := scan_orders (recipes (config sim)) (kept ++ orders batch)
                 (scan_start (worker_capacities (state sim))
                    (stock_on_hand (state sim))) in
      order_queue (state sim') = next_queue s
      ∧ queue_start (sl_stats sales) = Z.of_nat (length kept)
      ∧ dropped_from_queue (sl_stats sales)
        = Z.of_nat (length (List.filter (aged (turn (state sim)))
                              (order_queue (state sim))))
      ∧ qs_new_customers (sl_stats sales) = new_customers batch
      ∧ qs_served_customers (sl_stats sales) = served_customers s
      ∧ queue_end (sl_stats sales) = Z.of_nat (length (next_queue s)).
Proof.
  unfold _simulate_demand_and_sales.
  destruct (sample_orders_for_agent _ _ _ _) as [e|[batch g]] eqn:Hs; simpl; [done|].
  unfold serve_queue. rewrite filter_queue_spec. simpl.
  intros [= <- <-]. exists batch, g. split; [done|]. simpl. done.
Qed.

(** X20.  The queue figures of a turn add up.  The orders that were waiting
    are the ones kept plus the ones dropped; the ones kept plus the new
    orders are the ones served plus the ones left in the queue; and the
    length reported is the length of the queue the state holds.  The new
    orders number the new customers unless the mix of the turn names no
    profile, in which case customers are counted and no order is made. *)
Theorem queue_figures_add_up sim sales sim' :
  _simulate_demand_and_sales sim = Returned (sales, sim') ->
  let stats := sl_stats sales in
  let arrivals :=
    match _find_order_mix_segment (demand (config sim)) (turn (state sim)) with
    | [] => 0
    | _ => qs_new_customers stats
    end in
  queue_start stats + dropped_from_queue stats
  = Z.of_nat (length (order_queue (state sim)))
  ∧ queue_start stats + arrivals = qs_served_customers stats + queue_end stats
  ∧ queue_end stats = Z.of_nat (length (order_queue (state sim')))
  ∧ 0 <= qs_new_customers stats.
Proof.
  intros Hsim stats arrivals. subst stats arrivals.
  apply simulate_stats in Hsim
    as (batch & g & Hbatch & Hqueue & -> & -> & -> & -> & ->).
  apply sampled_batch_shape_aux in Hbatch as (Hpos & Hlen & _).
  rewrite Hqueue, <- Hlen.
  destruct (scan_partition (recipes (config sim))
              (List.filter (stays (turn (state sim))) (order_queue (state sim))
               ++ orders batch)
              (scan_start (worker_capacities (state sim)) (stock_on_hand (state sim))))
    as (served & queued & _ & _ & Hperm & -> & _ & -> & _).
  apply Permutation_length in Hperm. rewrite !length_app in Hperm. simpl.
  split_and!; [|lia|done|done].
  assert (forall l : list Order,
            (length (List.filter (stays (turn (state sim))) l)
             + length (List.filter (aged (turn (state sim))) l) = length l)%nat) as Hsplit.
  { unfold stays, aged. induction l as [|o l IH]; simpl; [done|].
    destruct (MAX_QUEUE_WAIT_TURNS <=? waited_turns (turn (state sim)) o); simpl; lia. }
  specialize (Hsplit (order_queue (state sim))). lia.
Qed.

(** X21.  Nobody left in the queue after the sales of a turn has waited two
    turns or more: an order there either was waiting for less than that or
    came in this turn. *)
Theorem queue_holds_no_stale_order sim sales sim' :
  _simulate_demand_and_sales sim = Returned (sales, sim') ->
  Forall (fun o => waited_turns (turn (state sim)) o < MAX_QUEUE_WAIT_TURNS)
         (order_queue (state sim')).
Proof.
  intros Hsim.
  apply simulate_stats in Hsim as (batch & g & Hbatch & Hqueue & _).
  apply sampled_batch_shape_aux in Hbatch as (_ & _ & _ & Hnew).
  rewrite Hqueue. apply Forall_forall. intros o [Hin|Hin]%scan_next_queue_from.
  { by apply elem_of_nil in Hin. }
  apply elem_of_app in Hin as [Hin|Hin].
  - apply list_elem_of_In, filter_In in Hin as [_ Hstays].
    unfold stays in Hstays. apply negb_true_iff, Z.leb_gt in Hstays. done.
  - apply (proj1 (Forall_forall _ _) Hnew) in Hin as [Harr _].
    unfold waited_turns, MAX_QUEUE_WAIT_TURNS. rewrite Harr. simpl. lia.
Qed.
End Batch.

(** ** The mix of a turn *)

Lemma find_first {A} (f : A -> bool) (l : list A) :
  match List.find f l with
  | Some a => f a = true
              ∧ exists before after, l = before ++ a :: after
                                     ∧ Forall (fun b => f b = false) before
  | None => Forall (fun b => f b = false) l
  end.
Proof.
  induction l as [|b l IH]; simpl; [constructor|].
  destruct (f b) eqn:E.
  - split; [done|]. by exists [], l.
  - destruct (List.find f l) as [a|].
    + destruct IH as (Ha & before & after & -> & Hbefore). split; [done|].
      exists (b :: before), after. split; [done|]. by constructor.
    + by constructor.
Qed.


(** ** Capacities follow the assignments *)

Section Staffing.
Context {np : Numerics}.

Lemma exec_tool_staffed c sim r sim' :
  exec_tool c sim = Returned (r, sim') -> staffed (state sim) -> staffed (state sim').
Proof.
  destruct c as [id ar|id ar|new_prices id ar|q ws id ar|asg id ar|id ar]; simpl.
  - by intros [= <- <-].
  - by intros [= <- <-].
  - unfold set_prices. by destruct (List.find _ _) as [[k v]|]; intros [= <- <-].
  - intros Hret Hst.
    apply place_order_returned in Hret as [(_ & _ & ->)|(_ & cost & seen & Hacc)]; [done|].
    destruct Hacc as (_ & _ & _ & _ & ->). by unfold staffed, accept_order.
  - intros [= Hcall] Hst. by apply assign_workers_state in Hcall as [->|[_ ->]].
  - by intros [= <- <-].
Qed.

Lemma engine_step_staffed sim sim' :
  engine_step sim sim' -> staffed (state sim) -> staffed (state sim').
Proof.
  intros Hstep Hst. destruct Hstep as
    [c sim r sim' Hcall|id summary sim|reply sim|t sim|t sim|sim|sim|sim0 sim record sim' Hs];
    try done.
  - by eapply exec_tool_staffed.
  - simpl.
    destruct (receive_deliveries_shape (_update_worker_trips (with_turn (state sim) t)))
      as (stock' & remaining & ->). done.
  - simpl. destruct (receive_deliveries_shape (state sim)) as (stock' & remaining & ->).
    done.
  - apply settle_returned in Hs as (sales & mid & rev & summary & Hsim & _ & -> & _).
    apply simulate_returned in Hsim as (batch & g & _ & -> & _). done.
Qed.

(** X23.  In every state an episode can be in, the capacities are the ones
    computed from the assignments the state holds: no purchase, trip,
    delivery or settlement leaves them out of step.  So no capacity is ever
    negative. *)
Theorem capacities_follow_assignments cfg sim :
  reachable cfg sim ->
  worker_capacities (state sim)
  = _compute_worker_capacities (worker_assignments (state sim))
  ∧ (0 <= customers_per_turn (worker_capacities (state sim)))%Q
  ∧ (0 <= txistorra_strips_per_turn (worker_capacities (state sim)))%Q
  ∧ (0 <= sidra_bottles_per_turn (worker_capacities (state sim)))%Q.
Proof.
  intros [g Hreach].
  assert (staffed (state sim)) as Hst.
  { revert sim Hreach. apply (rtc_ind_r (fun s => staffed (state s))); [done|].
    intros mid sim _ Hstep IH. by eapply engine_step_staffed. }
  split; [done|]. rewrite Hst.
  destruct (capacities_of_counts (worker_assignments (state sim))) as (-> & -> & ->).
  unfold workers_on.
  assert (forall n : nat, (0 <= inject_Z (Z.of_nat n))%Q) as Hpos.
  { intros n. change 0%Q with (inject_Z 0). rewrite <- Zle_Qle. lia. }
  split_and!.
  - apply Qmult_le_0_compat; [done|apply Hpos].
  - apply Hpos.
  - apply Qmult_le_0_compat; [done|apply Hpos].
Qed.
End Staffing.

(** ** What the scan uses and what it reports *)

Section ScanLedger.
Context {np : Numerics}.

Lemma scan_ledger recipes l s :
  exists served,
    sublist served l
    ∧ orders_served (scan_orders recipes l s) = orders_served s ++ map items_only served
    ∧ stock (scan_orders recipes l s)
      = foldl (fun st o => consume_stock st (needed_ingredients recipes (items o)))
          (stock s) served
    ∧ remaining_customers (scan_orders recipes l s)
      = foldl (fun r _ => fsub r 1) (remaining_customers s) served
    ∧ remaining_txistorra (scan_orders recipes l s)
      = foldl (fun r o => fsub r (txistorra_needed recipes o)) (remaining_txistorra s) served
    ∧ remaining_sidra (scan_orders recipes l s)
      = foldl (fun r o => fsub r (sidra_needed recipes o)) (remaining_sidra s) served.
Proof.
  revert s. induction l as [|o l IH]; intros s.
  - exists []. simpl. by rewrite app_nil_r.
  - simpl. destruct (Qle_bool (remaining_customers s) 0).
    { exists []. simpl. rewrite app_nil_r. split_and!; try done. apply sublist_nil_l. }
    assert (forall s', stock s' = stock s ->
              orders_served s' = orders_served s ->
              remaining_customers s' = remaining_customers s ->
              remaining_txistorra s' = remaining_txistorra s ->
              remaining_sidra s' = remaining_sidra s ->
              exists served,
                sublist served (o :: l)
                ∧ orders_served (scan_orders recipes l s')
                  = orders_served s ++ map items_only served
                ∧ stock (scan_orders recipes l s')
                  = foldl (fun st o =>
                             consume_stock st (needed_ingredients recipes (items o)))
                      (stock s) served
                ∧ remaining_customers (scan_orders recipes l s')
                  = foldl (fun r _ => fsub r 1) (remaining_customers s) served
                ∧ remaining_txistorra (scan_orders recipes l s')
                  = foldl (fun r o => fsub r (txistorra_needed recipes o))
                      (remaining_txistorra s) served
                ∧ remaining_sidra (scan_orders recipes l s')
                  = foldl (fun r o => fsub r (sidra_needed recipes o))
                      (remaining_sidra s) served)
      as Hblocked.
    { intros s' Hstock Hserved Hc Htx Hsi.
      destruct (IH s') as (served & H1 & H2 & H3 & H4 & H5 & H6).
      exists served. rewrite H2, H3, H4, H5, H6, Hstock, Hserved, Hc, Htx, Hsi.
      split_and!; try done. by apply sublist_cons. }
    destruct (Qgt_bool (txistorra_needed recipes o) _); [by apply Hblocked|].
    destruct (Qgt_bool (sidra_needed recipes o) _); [by apply Hblocked|].
    destruct (negb (can_fulfill _ _)); [by apply Hblocked|].
    destruct (IH (serve recipes s o)) as (served & H1 & H2 & H3 & H4 & H5 & H6).
    exists (o :: served). rewrite H2, H3, H4, H5, H6. simpl.
    rewrite <- app_assoc. split_and!; try done. by apply sublist_skip.
Qed.

(** X24.  What a turn uses up is what its served orders need, and nothing
    else: the stock after the scan is the stock before with the ingredients
    of each served order taken off in the order of service, and the budgets
    left are the capacities less one customer slot, the strips and the
    bottles of each served order, each taken off by one float subtraction.
    An order left in the queue costs nothing. *)
Theorem scan_uses_what_served_orders_need recipes caps stock0 l :
  let final := scan_orders recipes l (scan_start caps stock0) in
  exists served,
    sublist served l
    ∧ orders_served final = map items_only served
    ∧ stock final
      = foldl (fun st o => consume_stock st (needed_ingredients recipes (items o)))
          stock0 served
    ∧ remaining_customers final
      = foldl (fun r _ => fsub r 1) (customers_per_turn caps) served
    ∧ remaining_txistorra final
      = foldl (fun r o => fsub r (txistorra_needed recipes o))
          (txistorra_strips_per_turn caps) served
    ∧ remaining_sidra final
      = foldl (fun r o => fsub r (sidra_needed recipes o))
          (sidra_bottles_per_turn caps) served.
Proof. intros final. apply (scan_ledger recipes l (scan_start caps stock0)). Qed.

Lemma verdicts_stopped (l : list Order) (f : Verdict -> bool) :
  map fst (List.filter (fun ov : Order * Verdict => f (snd ov))
             (map (fun o => (o, held_by_counter)) l))
  = if f held_by_counter then l else [].
Proof.
  induction l as [|o l IH]; simpl; [by destruct (f _)|].
  destruct (f held_by_counter); simpl; [by rewrite IH|done].
Qed.

Lemma scan_verdicts recipes l s :
  let vs := verdicts recipes l s in
  let final := scan_orders recipes l s in
  map fst vs = l
  ∧ orders_served final = orders_served s ++ map items_only (orders_with is_served vs)
  ∧ next_queue final = next_queue s ++ orders_with is_held vs
  ∧ unserved_orders final
    = unserved_orders s ++ map items_only (orders_with is_held_by_capacity vs)
  ∧ blocked_by_stock final
    = blocked_by_stock s || negb (bool_decide (orders_with is_held_by_stock vs = []))
  ∧ blocked_by_customers_capacity final + blocked_by_grill_capacity final
    + blocked_by_sidra_capacity final
    = blocked_by_customers_capacity s + blocked_by_grill_capacity s
      + blocked_by_sidra_capacity s
      + Z.of_nat (length (orders_with is_held_by_capacity vs)).
Proof.
  unfold orders_with. revert s. induction l as [|o l IH]; intros s.
  - simpl. rewrite !app_nil_r, orb_false_r.
    split_and!; try done. lia.
  - simpl. destruct (Qle_bool (remaining_customers s) 0).
    { simpl. rewrite !verdicts_stopped. simpl. rewrite app_nil_r, orb_false_r.
      split_and!; try done; try lia.
      rewrite map_map. simpl. by rewrite map_id. }
    destruct (Qgt_bool (txistorra_needed recipes o) _).
    { destruct (IH (block_by_grill s o)) as (H1 & H2 & H3 & H4 & H5 & H6).
      simpl in *.
      rewrite H1, H2, H3, H4, H5, H6, <- !app_assoc. split_and!; try done. lia. }
    destruct (Qgt_bool (sidra_needed recipes o) _).
    { destruct (IH (block_by_sidra s o)) as (H1 & H2 & H3 & H4 & H5 & H6).
      simpl in *.
      rewrite H1, H2, H3, H4, H5, H6, <- !app_assoc. split_and!; try done. lia. }
    destruct (negb (can_fulfill _ _)).
    { destruct (IH (block_by_stock s o)) as (H1 & H2 & H3 & H4 & H5 & H6).
      simpl in *.
      rewrite H1, H2, H3, H4, H5, H6, <- !app_assoc. split_and!; try done.
      by rewrite orb_true_r. }
    destruct (IH (serve recipes s o)) as (H1 & H2 & H3 & H4 & H5 & H6).
    simpl in *.
    rewrite H1, H2, H3, H4, H5, H6, <- !app_assoc. split_and!; try done.
Qed.

Lemma held_orders_split (vs : list (Order * Verdict)) :
  length (orders_with is_held vs)
  = (length (orders_with is_held_by_capacity vs)
     + length (orders_with is_held_by_stock vs))%nat.
Proof.
  unfold orders_with. induction vs as [|[o v] vs IH]; simpl; [done|].
  destruct v; simpl; rewrite ?length_cons; lia.
Qed.

Lemma held_orders_all_reported (vs : list (Order * Verdict)) :
  orders_with is_held_by_stock vs = [] ->
  orders_with is_held vs = orders_with is_held_by_capacity vs.
Proof.
  unfold orders_with. induction vs as [|[o v] vs IH]; simpl; [done|].
  destruct v; simpl; try done; intros Hnone; by rewrite IH.
Qed.

(** X25.  Take each order of the batch with the branch of the loop it took.
    The orders served are those that passed every check; the next queue is
    every other order, in order; the list of unserved orders is the items of
    the orders held back by the counter, the grill or the sidra, in order,
    and the three block counters add up to their number.  An order held back
    for lack of stock is in the queue and not in that list, and the stock
    flag says whether there is one: so the list is as long as the queue
    exactly when the flag is not raised, and then it is the items of the
    whole queue. *)
Theorem unserved_orders_report recipes caps stock0 l :
  let vs := verdicts recipes l (scan_start caps stock0) in
  let final := scan_orders recipes l (scan_start caps stock0) in
  map fst vs = l
  ∧ orders_served final = map items_only (orders_with is_served vs)
  ∧ next_queue final = orders_with is_held vs
  ∧ unserved_orders final = map items_only (orders_with is_held_by_capacity vs)
  ∧ blocked_by_stock final = negb (bool_decide (orders_with is_held_by_stock vs = []))
  ∧ blocked_by_customers_capacity final + blocked_by_grill_capacity final
    + blocked_by_sidra_capacity final
    = Z.of_nat (length (unserved_orders final))
  ∧ (length (unserved_orders final) = length (next_queue final)
     <-> blocked_by_stock final = false)
  ∧ (blocked_by_stock final = false ->
     unserved_orders final = map items_only (next_queue final)).
Proof.
  intros vs final. subst vs final.
  destruct (scan_verdicts recipes l (scan_start caps stock0))
    as (H1 & H2 & H3 & H4 & H5 & H6).
  simpl in *. rewrite H2, H3, H4, H5, H6, length_map.
  split_and!; try done.
  - rewrite held_orders_split. case_bool_decide as Hnone; simpl.
    + rewrite Hnone. simpl. split; [done|lia].
    + split; [|done]. intros Hlen.
      destruct (orders_with is_held_by_stock _); [done|simpl in Hlen; lia].
  - case_bool_decide as Hnone; [|done]. intros _. by rewrite held_orders_all_reported.
Qed.
End ScanLedger.

(** ** The properties above, on the usual stall *)

(** Sending worker 2 for three loaves schedules one delivery and leaves the
    stock on hand as it was. *)
Lemma decision_phase_frame_witness :
  exists sim',
    run_play (np := zero_draws)
      (play_call (call_place_order [("pan", 3)] [2] "c1" None) (fun _ => play_return tt))
      (reset (new_simulator usual_config None)) = Returned (tt, sim')
    ∧ stock_on_hand (state sim')
      = stock_on_hand (state (reset (np := zero_draws) (new_simulator usual_config None)))
    ∧ exists scheduled, inbound_deliveries (state sim') = [] ++ scheduled.
Proof.
  destruct (run_play (np := zero_draws)
              (play_call (call_place_order [("pan", 3)] [2] "c1" None)
                 (fun _ => play_return tt))
              (reset (new_simulator usual_config None))) as [e|[[] sim']] eqn:Hrun;
    [vm_compute in Hrun; discriminate|].
  exists sim'. split; [reflexivity|].
  destruct (decision_phase_frame (np := zero_draws) _ _ _ _ Hrun) as [Hsame Hsched].
  split; [congruence|exact Hsched].
Defined.


(** A look at the status is logged under its name and id. *)
Lemma every_tool_call_is_logged_witness :
  exists r sim',
    exec_tool (np := zero_draws) (call_get_status "s1" None)
      (reset (new_simulator usual_config None)) = Returned (r, sim')
    ∧ metrics_tool_calls sim' = 1
    ∧ exists args, agent_actions_trace sim' = [tool_call "s1" "get_status" args r].
Proof.
  destruct (exec_tool (np := zero_draws) (call_get_status "s1" None)
              (reset (new_simulator usual_config None))) as [e|[r sim']] eqn:Hcall;
    [vm_compute in Hcall; discriminate|].
  exists r, sim'. split; [reflexivity|].
  exact (every_tool_call_is_logged (np := zero_draws) _ _ _ _ Hcall).
Defined.

(** The idle agent makes one call a turn, and the record says so. *)
Lemma tool_calls_count_matches_trace_witness :
  exists record sim',
    play_one_turn (np := zero_draws) idle_agent tt 0 (new_simulator usual_config None)
    = Returned (record, tt, sim')
    ∧ tool_calls_count record
      = Z.of_nat (length (List.filter is_tool_call (agent_actions record))).
Proof.
  destruct (play_one_turn (np := zero_draws) idle_agent tt 0
              (new_simulator usual_config None)) as [e|[[record []] sim']] eqn:Hturn;
    [vm_compute in Hturn; discriminate|].
  exists record, sim'. split; [reflexivity|].
  destruct (tool_calls_count_matches_trace (np := zero_draws) _ _ _ _ _ _ _ Hturn)
    as [Hcount _].
  exact Hcount.
Defined.

(** The batch of turn 0 at the initial prices. *)
Lemma sampled_batch_shape_witness :
  exists batch g',
    sample_orders_for_agent (np := zero_draws) (init_prices (initial usual_config))
      (demand usual_config) 0 tt = Returned (batch, g')
    ∧ 0 <= new_customers batch
    ∧ Forall (fun o => arrival_turn o = Some 0) (orders batch).
Proof.
  destruct (sample_orders_for_agent (np := zero_draws) (init_prices (initial usual_config))
              (demand usual_config) 0 tt) as [e|[batch g']] eqn:Hs;
    [vm_compute in Hs; discriminate|].
  exists batch, g'. split; [reflexivity|].
  destruct (sampled_batch_shape (np := zero_draws) _ _ _ _ _ _ Hs)
    as (Hpos & _ & _ & Hall).
  split; [exact Hpos|]. eapply Forall_impl; [exact Hall|]. by intros o [Ho _].
Defined.

(** The queue figures of the first turn of the idle stall. *)
Lemma queue_figures_add_up_witness :
  exists sales sim',
    _simulate_demand_and_sales (np := zero_draws)
      (after_call (call_end_turn "" None) (begin_turn (new_simulator usual_config None) 0))
    = Returned (sales, sim')
    ∧ queue_start (sl_stats sales) + dropped_from_queue (sl_stats sales) = 0
    ∧ queue_end (sl_stats sales) = Z.of_nat (length (order_queue (state sim'))).
Proof.
  destruct (_simulate_demand_and_sales (np := zero_draws)
              (after_call (call_end_turn "" None)
                 (begin_turn (new_simulator usual_config None) 0)))
    as [e|[sales sim']] eqn:Hs; [vm_compute in Hs; discriminate|].
  exists sales, sim'. split; [reflexivity|].
  destruct (queue_figures_add_up (np := zero_draws) _ _ _ Hs) as (Hstart & _ & Hend & _).
  split; [exact Hstart | exact Hend].
Defined.

Lemma queue_holds_no_stale_order_witness :
  exists sales sim',
    _simulate_demand_and_sales (np := zero_draws)
      (after_call (call_end_turn "e1" None)
         (begin_turn (new_simulator usual_config None) 0))
    = Returned (sales, sim')
    ∧ Forall (fun o => waited_turns 0 o < 2) (order_queue (state sim')).
Proof.
  destruct (_simulate_demand_and_sales (np := zero_draws)
              (after_call (call_end_turn "e1" None)
                 (begin_turn (new_simulator usual_config None) 0)))
    as [e|[sales sim']] eqn:Hs; [vm_compute in Hs; discriminate|].
  exists sales, sim'. split; [reflexivity|].
  exact (queue_holds_no_stale_order (np := zero_draws) _ _ _ Hs).
Defined.

(** With worker 2 gone shopping the grill is unmanned and its budget is
    zero, not negative. *)
Lemma capacities_follow_assignments_witness :
  let sim := after_call (np := zero_draws) (call_place_order [("pan", 3)] [2] "c1" None)
               (reset (new_simulator usual_config None)) in
  worker_capacities (state sim)
  = _compute_worker_capacities (worker_assignments (state sim))
  ∧ (0 <= txistorra_strips_per_turn (worker_capacities (state sim)))%Q.
Proof.
  intros sim.
  destruct (capacities_follow_assignments (np := zero_draws) usual_config sim)
    as (Hcaps & _ & Hgrill & _).
  - apply after_call_reachable, start_reachable.
  - split; [exact Hcaps | exact Hgrill].
Defined.

(** ** The customers curve must cover the episode *)

Lemma list_getitem_bound {A} (l : list A) i a :
  list_getitem l i = Returned a -> i < Z.of_nat (length l).
Proof.
  unfold list_getitem. destruct (i <? 0) eqn:Hneg; [apply Z.ltb_lt in Hneg; lia|].
  rewrite Hneg. apply Z.ltb_ge in Hneg.
  destruct (l !! Z.to_nat i) as [b|] eqn:Hl; [|done]. intros _.
  apply lookup_lt_Some in Hl. lia.
Qed.

Section Curve.
Context {np : Numerics}.

Lemma settle_reads_curve sim0 sim record sim' :
  settle sim0 sim = Returned (record, sim') ->
  turn (state sim) < Z.of_nat (length (customers_curve (demand (config sim))))
  ∧ config sim' = config sim.
Proof.
  intros Hs.
  apply settle_returned in Hs as (sales & mid & rev & summary & Hsim & _ & _ & _ & ->).
  apply simulate_returned in Hsim as (batch & g & Hbatch & _ & _ & ->).
  split; [|done]. unfold sample_orders_for_agent, sample_customers_for_agent in Hbatch.
  destruct (list_getitem _ _) as [e|m] eqn:Hcurve; simpl in Hbatch; [done|].
  by eapply list_getitem_bound.
Qed.

Lemma play_one_turn_reads_curve agent mem t sim record mem' sim' :
  play_one_turn agent mem t sim = Returned (record, mem', sim') ->
  t < Z.of_nat (length (customers_curve (demand (config sim))))
  ∧ config sim' = config sim.
Proof.
  unfold play_one_turn, decision_phase.
  destruct (run_play _ _) as [e|[[reply mem1] mid]] eqn:Hrun; simpl; [done|].
  unfold close_turn. destruct (ends_with_end_turn _); [|done].
  destruct (settle _ _) as [e|[record1 sim1]] eqn:Hs; simpl; [done|].
  intros [= _ _ <-]. apply settle_reads_curve in Hs as [Hturn Hcfg].
  assert (turn (state mid) = t ∧ config mid = config sim) as [Ht Hmid].
  { clear Hturn Hcfg.
    assert (forall {R} (p : Play R) s r s',
              run_play p s = Returned (r, s') ->
              turn (state s') = turn (state s) ∧ config s' = config s) as Hkeeps.
    { intros R p. induction p as [r0|c k IH|id summary k IH]; intros s r s'; simpl.
      - by intros [= _ <-].
      - destruct (exec_tool c s) as [e|[result s1]] eqn:Hcall; simpl; [done|].
        intros Hrest. apply IH in Hrest as [-> ->].
        destruct (exec_tool_frame _ _ _ _ Hcall) as [[= -> _ _ _] _].
        split; [done|]. by eapply exec_tool_config.
      - intros Hrest. by apply IH in Hrest as [-> ->]. }
    apply Hkeeps in Hrun as [-> ->]. simpl. split; [|done].
    destruct (receive_deliveries_shape (_update_worker_trips (with_turn (state sim) t)))
      as (stock' & remaining & ->). done. }
  simpl in *. rewrite Ht, Hmid in Hturn. split; [done|]. by rewrite Hcfg.
Qed.

Lemma episode_loop_reads_curve agent turns mem sim written sim' :
  (episode_loop agent turns mem sim written).2 = Returned sim' ->
  Forall (fun t => t < Z.of_nat (length (customers_curve (demand (config sim))))) turns.
Proof.
  revert mem sim written. induction turns as [|t turns IH]; intros mem sim written; simpl.
  - constructor.
  - destruct (play_one_turn agent mem t sim) as [e|[[record mem1] sim1]] eqn:Hturn;
      [done|].
    intros Hrest. apply play_one_turn_reads_curve in Hturn as [Ht Hcfg].
    constructor; [done|]. apply IH in Hrest. by rewrite Hcfg in Hrest.
Qed.

(** X26.  Whatever the decision-maker, an episode ends normally only when
    the customers curve has an entry for each of its turns: with a curve
    shorter than [num_turns] the episode is ended by an exception, the
    [IndexError] of the missing entry if none comes before. *)
Theorem episode_needs_the_whole_curve agent sim result :
  (run_episode agent sim).2 = Returned result ->
  num_turns (config sim) <= Z.of_nat (length (customers_curve (demand (config sim)))).
Proof.
  unfold run_episode.
  destruct (episode_loop agent _ _ _ _) as [written final] eqn:Hloop. simpl.
  destruct final as [e|sim']; [done|]. intros _.
  pose proof (episode_loop_reads_curve agent (turn_range (num_turns (config sim)))
                (fresh agent) (reset sim) [] sim') as Hall.
  rewrite Hloop in Hall. specialize (Hall eq_refl). simpl in Hall.
  destruct (Z.to_nat (num_turns (config sim))) as [|n] eqn:Hn; [lia|].
  assert (Z.of_nat n ∈ turn_range (num_turns (config sim))) as Hin.
  { unfold turn_range. rewrite Hn. apply list_elem_of_fmap. exists n. split; [done|].
    apply elem_of_seq. lia. }
  apply (proj1 (Forall_forall _ _) Hall) in Hin. lia.
Qed.
End Curve.

(** The usual stall runs its two turns on a curve of two entries. *)
Lemma episode_needs_the_whole_curve_witness :
  exists result,
    (run_episode (np := zero_draws) idle_agent (new_simulator usual_config None)).2
    = Returned result
    ∧ num_turns usual_config
      <= Z.of_nat (length (customers_curve (demand usual_config))).
Proof.
  destruct (run_episode (np := zero_draws) idle_agent (new_simulator usual_config None)).2
    as [e|result] eqn:Hrun; [vm_compute in Hrun; discriminate|].
  exists result. split; [reflexivity|].
  exact (episode_needs_the_whole_curve (np := zero_draws) idle_agent
           (new_simulator usual_config None) result Hrun).
Defined.
